(** * Forgeron: ASN.1 DER codec, byte buffer and schema validator

    A shallow embedding of [src/util.ts] (the [ByteStringBuffer] class) and
    [src/asn1.ts] ([create], [copy], [equals], [fromDer], [toDer],
    [integerToDer], [validate]) together with the properties stated about
    them.

    Conventions of the embedding:
    - a JavaScript number that holds an integer is a [Z]; the bit operators
      convert their operands with [ToInt32]/[ToUint32] exactly as ECMAScript
      does, so 32-bit wrap-around is explicit;
    - a JavaScript string is the list of its UTF-16 code units;
    - a thrown exception is the [Throw] outcome of [Result];
    - [String.prototype.charCodeAt] past the end of the string yields [NaN]
      in JavaScript; the embedding stops there with [Undef ReadPastEnd]. *)

From Stdlib Require Import ZArith List Bool Lia String DecimalString.
Import ListNotations.
Open Scope Z_scope.

(* ================================================================== *)
(** ** JavaScript integer operators *)

Module JS.

Definition ToInt32 (x : Z) : Z := (x + 2 ^ 31) mod 2 ^ 32 - 2 ^ 31.
Definition ToUint32 (x : Z) : Z := x mod 2 ^ 32.
Definition ToUint16 (x : Z) : Z := x mod 2 ^ 16.

(** [a << b] *)
Definition shl (a b : Z) : Z :=
  ToInt32 (Z.shiftl (ToInt32 a) (ToUint32 b mod 32)).
(** [a >> b] *)
Definition sar (a b : Z) : Z :=
  Z.shiftr (ToInt32 a) (ToUint32 b mod 32).
(** [a >>> b] *)
Definition shru (a b : Z) : Z :=
  Z.shiftr (ToUint32 a) (ToUint32 b mod 32).
(** [a & b], [a | b], [a ^ b] *)
Definition band (a b : Z) : Z := Z.land (ToInt32 a) (ToInt32 b).
Definition bor (a b : Z) : Z := Z.lor (ToInt32 a) (ToInt32 b).
Definition bxor (a b : Z) : Z := Z.lxor (ToInt32 a) (ToInt32 b).

End JS.

(** A JavaScript string: its UTF-16 code units. *)
Definition jsstring := list Z.

Definition jslength (s : jsstring) : Z := Z.of_nat (List.length s).

(** [String.fromCharCode(x)] *)
Definition fromCharCode (x : Z) : jsstring := [JS.ToUint16 x].

(** [s.charCodeAt(i)]; [None] stands for [NaN]. *)
Definition charCodeAt (s : jsstring) (i : Z) : option Z :=
  if i <? 0 then None else nth_error s (Z.to_nat i).

(** [s.slice(start, end)] with ECMAScript's treatment of negative and
    out-of-range indices. *)
Definition slice (s : jsstring) (start end_ : Z) : jsstring :=
  let len := jslength s in
  let from := if start <? 0 then Z.max (len + start) 0 else Z.min start len in
  let to := if end_ <? 0 then Z.max (len + end_) 0 else Z.min end_ len in
  firstn (Z.to_nat (to - from)) (skipn (Z.to_nat from) s).

(** [s.slice(start)] and [s.substr(start)] (they agree with one argument). *)
Definition slice_from (s : jsstring) (start : Z) : jsstring :=
  slice s start (jslength s).

(* ================================================================== *)
(** ** Outcomes *)

(** The exceptions the two source files throw. *)
Inductive Error : Type :=
| BitsParamError (n : Z)
    (* util.ts:19 "Only 8, 16, 24, or 32 bits supported" *)
| TooFewBytesDerError (message : string) (available remaining requested : Z)
    (* asn1.ts:369 *)
| NegativeLengthError (length : Z)
    (* asn1.ts:435 "Negative length: " *)
| UnparsedDerBytesRemainError (byteCount remaining : Z)
    (* asn1.ts:441 *)
| IndefinitePrimitiveError
    (* asn1.ts:693 "Non-constructed ASN.1 object of indefinite length." *)
| IntegerTooLargeError (integer : Z)
    (* asn1.ts:860 "Integer too large; max is 32-bits." *)
| UnusedBitsError
    (* asn1.ts:947 "captureBitStringValue only supported for zero unused bits" *)
| TypeError.
    (* raised by the JavaScript runtime on a value of the wrong shape *)

(** Where the embedding has no answer. *)
Inductive Stuck : Type :=
| OutOfFuel     (* the recursion budget of the embedding ran out *)
| ReadPastEnd   (* charCodeAt returned NaN *)
| IllTyped.     (* a value used at a type the declarations exclude *)

Inductive Result (A : Type) : Type :=
| Ok (a : A)
| Throw (e : Error)
| Undef (s : Stuck).
Arguments Ok {A} a.
Arguments Throw {A} e.
Arguments Undef {A} s.

Definition bind {A B} (m : Result A) (k : A -> Result B) : Result B :=
  match m with
  | Ok a => k a
  | Throw e => Throw e
  | Undef s => Undef s
  end.

Notation "x <- m ;; k" := (bind m (fun x => k))
  (at level 61, m at next level, right associativity).
Notation "' p <- m ;; k" := (bind m (fun x => match x with p => k end))
  (at level 61, p pattern, m at next level, right associativity).

(* ================================================================== *)
(** ** util.ts: ByteStringBuffer *)

(** The private counter [_constructedStringLength] only triggers a V8 string
    flattening and has no observable effect; it is not part of the state. *)
Record ByteStringBuffer : Type := mkBuffer {
  data : jsstring;
  read : Z
}.

(** [createBuffer()] / [createBuffer(s)] with a string. *)
Definition createBuffer (input : option jsstring) : ByteStringBuffer :=
  match input with
  | Some b => mkBuffer b 0
  | None => mkBuffer [] 0
  end.

Definition _checkBitsParam (n : Z) : Result unit :=
  if negb ((n =? 8) || (n =? 16) || (n =? 24) || (n =? 32))
  then Throw (BitsParamError n)
  else Ok tt.

Module Buffer.

Definition length (b : ByteStringBuffer) : Z := jslength (data b) - read b.

Definition isEmpty (b : ByteStringBuffer) : bool := length b <=? 0.

Definition putBytes (b : ByteStringBuffer) (bytes : jsstring) : ByteStringBuffer :=
  mkBuffer (data b ++ bytes) (read b).

Definition putByte (b : ByteStringBuffer) (x : Z) : ByteStringBuffer :=
  putBytes b (fromCharCode x).

Definition putInt16 (b : ByteStringBuffer) (i : Z) : ByteStringBuffer :=
  putBytes b
    (fromCharCode (JS.band (JS.sar i 8) 255) ++
     fromCharCode (JS.band i 255)).

Definition putInt24 (b : ByteStringBuffer) (i : Z) : ByteStringBuffer :=
  putBytes b
    (fromCharCode (JS.band (JS.sar i 16) 255) ++
     fromCharCode (JS.band (JS.sar i 8) 255) ++
     fromCharCode (JS.band i 255)).

Definition putInt32 (b : ByteStringBuffer) (i : Z) : ByteStringBuffer :=
  putBytes b
    (fromCharCode (JS.band (JS.sar i 24) 255) ++
     fromCharCode (JS.band (JS.sar i 16) 255) ++
     fromCharCode (JS.band (JS.sar i 8) 255) ++
     fromCharCode (JS.band i 255)).

(** The [do { n -= 8; ... } while (n > 0)] loop of [putInt]; after
    [_checkBitsParam] it runs at most four times. *)
Fixpoint putInt_loop (fuel : nat) (i n : Z) (bytes : jsstring) : jsstring :=
  match fuel with
  | O => bytes
  | S fuel' =>
      let n := n - 8 in
      let bytes := bytes ++ fromCharCode (JS.band (JS.sar i n) 255) in
      if n >? 0 then putInt_loop fuel' i n bytes else bytes
  end.

Definition putInt (b : ByteStringBuffer) (i n : Z) : Result ByteStringBuffer :=
  _ <- _checkBitsParam n ;;
  Ok (putBytes b (putInt_loop 4 i n [])).

Definition putSignedInt (b : ByteStringBuffer) (i n : Z) : Result ByteStringBuffer :=
  let i := if i <? 0 then i + JS.shl 2 (n - 1) else i in
  putInt b i n.

(** [getByte]: [this.data.charCodeAt(this.read++)]. *)
Definition getByte (b : ByteStringBuffer) : Result (Z * ByteStringBuffer) :=
  match charCodeAt (data b) (read b) with
  | Some c => Ok (c, mkBuffer (data b) (read b + 1))
  | None => Undef ReadPastEnd
  end.

(** [this.data.charCodeAt(i)] as an outcome. *)
Definition codeAt (b : ByteStringBuffer) (i : Z) : Result Z :=
  match charCodeAt (data b) i with
  | Some c => Ok c
  | None => Undef ReadPastEnd
  end.

Definition getInt16 (b : ByteStringBuffer) : Result (Z * ByteStringBuffer) :=
  c0 <- codeAt b (read b) ;;
  c1 <- codeAt b (read b + 1) ;;
  Ok (JS.bxor (JS.shl c0 8) c1, mkBuffer (data b) (read b + 2)).

Definition getInt24 (b : ByteStringBuffer) : Result (Z * ByteStringBuffer) :=
  c0 <- codeAt b (read b) ;;
  c1 <- codeAt b (read b + 1) ;;
  c2 <- codeAt b (read b + 2) ;;
  Ok (JS.bxor (JS.bxor (JS.shl c0 16) (JS.shl c1 8)) c2,
      mkBuffer (data b) (read b + 3)).

Definition getInt32 (b : ByteStringBuffer) : Result (Z * ByteStringBuffer) :=
  c0 <- codeAt b (read b) ;;
  c1 <- codeAt b (read b + 1) ;;
  c2 <- codeAt b (read b + 2) ;;
  c3 <- codeAt b (read b + 3) ;;
  Ok (JS.bxor (JS.bxor (JS.bxor (JS.shl c0 24) (JS.shl c1 16)) (JS.shl c2 8)) c3,
      mkBuffer (data b) (read b + 4)).

(** The [do { rval = (rval << 8) + charCodeAt(read++); n -= 8 } while (n > 0)]
    loop of [getInt]. *)
Fixpoint getInt_loop (fuel : nat) (b : ByteStringBuffer) (rval n : Z)
  : Result (Z * ByteStringBuffer) :=
  match fuel with
  | O => Ok (rval, b)
  | S fuel' =>
      '(c, b) <- getByte b ;;
      let rval := JS.shl rval 8 + c in
      let n := n - 8 in
      if n >? 0 then getInt_loop fuel' b rval n else Ok (rval, b)
  end.

Definition getInt (b : ByteStringBuffer) (n : Z) : Result (Z * ByteStringBuffer) :=
  _ <- _checkBitsParam n ;;
  getInt_loop 4 b 0 n.

Definition getSignedInt (b : ByteStringBuffer) (n : Z) : Result (Z * ByteStringBuffer) :=
  '(x, b) <- getInt b n ;;
  let max := JS.shl 2 (n - 2) in
  let x := if x >=? max then x - JS.shl max 1 else x in
  Ok (x, b).

Definition clear (b : ByteStringBuffer) : ByteStringBuffer := mkBuffer [] 0.

(** [getBytes(count?)]: [None] is an omitted count. *)
Definition getBytes (b : ByteStringBuffer) (count : option Z)
  : jsstring * ByteStringBuffer :=
  match count with
  | Some count =>
      if negb (count =? 0) then
        let count := Z.min (length b) count in
        (slice (data b) (read b) (read b + count),
         mkBuffer (data b) (read b + count))
      else ([], b)
  | None =>
      ((if read b =? 0 then data b else slice_from (data b) (read b)),
       clear b)
  end.

(** [bytes(count?)]: peek. *)
Definition bytes (b : ByteStringBuffer) (count : option Z) : jsstring :=
  match count with
  | None => slice_from (data b) (read b)
  | Some count => slice (data b) (read b) (read b + count)
  end.

(** [putBuffer(buffer)] appends all unread bytes of [buffer] (and empties
    it; every caller in asn1.ts passes a temporary). *)
Definition putBuffer (b buffer : ByteStringBuffer) : ByteStringBuffer :=
  putBytes b (fst (getBytes buffer None)).

End Buffer.

(* ================================================================== *)
(** ** asn1.ts: the data model *)

(** [enum Class] *)
Module Class.
Definition UNIVERSAL : Z := 0.
Definition APPLICATION : Z := 64.
Definition CONTEXT_SPECIFIC : Z := 128.
Definition PRIVATE : Z := 192.
End Class.

(** [enum Type] *)
Module Asn1Type.
Definition NONE : Z := 0.
Definition BOOLEAN : Z := 1.
Definition INTEGER : Z := 2.
Definition BITSTRING : Z := 3.
Definition OCTETSTRING : Z := 4.
Definition NULL : Z := 5.
Definition OID : Z := 6.
Definition ODESC : Z := 7.
Definition EXTERNAL : Z := 8.
Definition REAL : Z := 9.
Definition ENUMERATED : Z := 10.
Definition EMBEDDED : Z := 11.
Definition UTF8 : Z := 12.
Definition ROID : Z := 13.
Definition SEQUENCE : Z := 16.
Definition SET : Z := 17.
Definition PRINTABLESTRING : Z := 19.
Definition IA5STRING : Z := 22.
Definition UTCTIME : Z := 23.
Definition GENERALIZEDTIME : Z := 24.
Definition BMPSTRING : Z := 30.
End Asn1Type.

(** An optional property [k?: A] of an object: the key is absent, or it is
    present and holds a value that may itself be [undefined]. *)
Inductive Field (A : Type) : Type :=
| Absent
| Present (v : option A).
Arguments Absent {A}.
Arguments Present {A} v.

(** What reading the property yields ([None] is [undefined]). *)
Definition field_get {A} (f : Field A) : option A :=
  match f with
  | Absent => None
  | Present v => v
  end.

(** ['k' in obj] *)
Definition field_in {A} (f : Field A) : bool :=
  match f with
  | Absent => false
  | Present _ => true
  end.

(** [string | Asn1[]] *)
Inductive JsValue (A : Type) : Type :=
| VString (s : jsstring)
| VArray (l : list A).
Arguments VString {A} s.
Arguments VArray {A} l.

Definition isArray {A} (v : JsValue A) : bool :=
  match v with
  | VString _ => false
  | VArray _ => true
  end.

(** [interface Asn1] *)
#[local] Unset Elimination Schemes.
Inductive Asn1 : Type :=
| mkAsn1 (tagClass type : Z) (constructed composed : bool)
         (value : JsValue Asn1)
         (bitStringContents : Field jsstring)
         (original : option Asn1).

#[local] Set Elimination Schemes.

Definition tagClass (o : Asn1) : Z := let 'mkAsn1 x _ _ _ _ _ _ := o in x.
Definition type (o : Asn1) : Z := let 'mkAsn1 _ x _ _ _ _ _ := o in x.
Definition constructed (o : Asn1) : bool := let 'mkAsn1 _ _ x _ _ _ _ := o in x.
Definition composed (o : Asn1) : bool := let 'mkAsn1 _ _ _ x _ _ _ := o in x.
Definition value (o : Asn1) : JsValue Asn1 := let 'mkAsn1 _ _ _ _ x _ _ := o in x.
Definition bitStringContents (o : Asn1) : Field jsstring :=
  let 'mkAsn1 _ _ _ _ _ x _ := o in x.
Definition original (o : Asn1) : option Asn1 := let 'mkAsn1 _ _ _ _ _ _ x := o in x.

(** ** asn1.ts: copy, create, equals *)

(** [copy(obj, options)]; [options] is [None] when omitted and otherwise
    holds [excludeBitStringContents].  The [original] snapshot is never
    copied. *)
Fixpoint copy (obj : Asn1) (options : option bool) : Asn1 :=
  match obj with
  | mkAsn1 tagClass type constructed composed value bitStringContents _ =>
      mkAsn1 tagClass type constructed composed
        (match value with
         | VString s => VString s
         | VArray l => VArray (map (fun o => copy o options) l)
         end)
        (match options with
         | Some false => Present (field_get bitStringContents)
         | _ => Absent
         end)
        None
  end.

(** [create(tagClass, type, constructed, value, options)]; [options] is
    [None] when omitted and otherwise holds its one optional key.  A list of
    nodes has no [undefined] entry, so the filtering loop returns it
    unchanged. *)
Definition create (tagClass type : Z) (constructed : bool)
    (value : JsValue Asn1) (options : option (Field jsstring)) : Asn1 :=
  let obj :=
    mkAsn1 tagClass type constructed (constructed || isArray value) value
           Absent None in
  match options with
  | Some (Present b) =>
      let obj :=
        mkAsn1 tagClass type constructed (constructed || isArray value) value
               (Present b) None in
      mkAsn1 tagClass type constructed (constructed || isArray value) value
             (Present b) (Some (copy obj None))
  | _ => obj
  end.

Fixpoint jsstring_eqb (s1 s2 : jsstring) : bool :=
  match s1, s2 with
  | [], [] => true
  | c1 :: t1, c2 :: t2 => (c1 =? c2) && jsstring_eqb t1 t2
  | _, _ => false
  end.

(** [===] on two possibly undefined strings. *)
Definition opt_string_eqb (a b : option jsstring) : bool :=
  match a, b with
  | None, None => true
  | Some s1, Some s2 => jsstring_eqb s1 s2
  | _, _ => false
  end.

(** The loop of [equals] over two arrays of equal length. *)
Fixpoint equals_each (eq : Asn1 -> Asn1 -> bool) (l1 l2 : list Asn1) : bool :=
  match l1, l2 with
  | o1 :: t1, o2 :: t2 => if eq o1 o2 then equals_each eq t1 t2 else false
  | _, _ => true
  end.

(** [equals(obj1, obj2)] on two nodes, as every recursive call invokes it:
    without options. *)
Fixpoint equals_node (obj1 obj2 : Asn1) {struct obj1} : bool :=
  match obj1, obj2 with
  | mkAsn1 tagClass1 type1 constructed1 composed1 value1 _ _,
    mkAsn1 tagClass2 type2 constructed2 composed2 value2 _ _ =>
      (tagClass1 =? tagClass2) && (type1 =? type2) &&
      Bool.eqb constructed1 constructed2 && Bool.eqb composed1 composed2 &&
      match value1, value2 with
      | VArray l1, VArray l2 =>
          (Nat.eqb (List.length l1) (List.length l2)) &&
          equals_each equals_node l1 l2
      | VString s1, VString s2 => jsstring_eqb s1 s2
      | _, _ => false
      end
  end.

(** [equals(obj1, obj2, options)] on two nodes; [options] is [None] when
    omitted and otherwise holds [includeBitStringContents]. *)
Definition equals (obj1 obj2 : Asn1) (options : option bool) : bool :=
  let equal := equals_node obj1 obj2 in
  match options with
  | Some true =>
      equal && opt_string_eqb (field_get (bitStringContents obj1))
                              (field_get (bitStringContents obj2))
  | _ => equal
  end.

(** ** asn1.ts: toDer *)

(** The [do { lenBytes += chr(len & 0xFF); len = len >>> 8 } while (len > 0)]
    loop; [>>>] leaves less than [2^24], so four rounds always end it. *)
Fixpoint lenBytes_loop (fuel : nat) (len : Z) (lenBytes : jsstring) : jsstring :=
  match fuel with
  | O => lenBytes
  | S fuel' =>
      let lenBytes := lenBytes ++ fromCharCode (JS.band len 255) in
      let len := JS.shru len 8 in
      if len >? 0 then lenBytes_loop fuel' len lenBytes else lenBytes
  end.

(** Tag byte, length octets and value octets put together (the tail of
    [toDer], from "add tag byte" on). *)
Definition toDer_assemble (b1 : Z) (value : ByteStringBuffer) : ByteStringBuffer :=
  let bytes := createBuffer None in
  let bytes := Buffer.putByte bytes b1 in
  let bytes :=
    if Buffer.length value <=? 127 then
      Buffer.putByte bytes (JS.band (Buffer.length value) 127)
    else
      let len := Buffer.length value in
      let lenBytes := lenBytes_loop 4 len [] in
      let bytes := Buffer.putByte bytes (JS.bor (jslength lenBytes) 128) in
      fold_left Buffer.putByte (rev lenBytes) bytes in
  Buffer.putBuffer bytes value.

(** The raw value of a primitive as [toDer] emits it: BMPSTRING code units
    as 16-bit words, an INTEGER with one redundant leading byte removed,
    anything else as it is. *)
Definition toDer_primitive (type : Z) (v : jsstring) (value : ByteStringBuffer)
  : ByteStringBuffer :=
  if type =? Asn1Type.BMPSTRING then
    fold_left Buffer.putInt16 v value
  else
    match v with
    | c0 :: c1 :: _ =>
        if (type =? Asn1Type.INTEGER) &&
           (((c0 =? 0) && (JS.band c1 128 =? 0)) ||
            ((c0 =? 255) && (JS.band c1 128 =? 128)))
        then Buffer.putBytes value (slice_from v 1)
        else Buffer.putBytes value v
    | _ => Buffer.putBytes value v
    end.

(** "add all of the child DER bytes together" (asn1.ts:761-765). *)
Fixpoint putChildren (encode : Asn1 -> Result ByteStringBuffer)
    (l : list Asn1) (value_ : ByteStringBuffer) : Result ByteStringBuffer :=
  match l with
  | [] => Ok value_
  | child :: rest =>
      der <- encode child ;;
      putChildren encode rest (Buffer.putBuffer value_ der)
  end.

Fixpoint toDer (obj : Asn1) : Result ByteStringBuffer :=
  match obj with
  | mkAsn1 tagClass type constructed composed value bitStringContents original =>
      let b1 := JS.bor tagClass type in
      let value_ := createBuffer None in
      let useBitStringContents :=
        if field_in bitStringContents then
          match original with
          | Some o => equals_node obj o
          | None => true
          end
        else false in
      '(b1, value_) <-
        (if useBitStringContents then
           match field_get bitStringContents with
           | Some s => Ok (b1, Buffer.putBytes value_ s)
           | None => Throw TypeError
           end
         else if composed then
           let '(b1, value_) :=
             if constructed then (JS.bor b1 32, value_)
             else (b1, Buffer.putByte value_ 0) in
           match value with
           | VArray l =>
               value_ <- putChildren toDer l value_ ;;
               Ok (b1, value_)
           | VString [] => Ok (b1, value_)
           | VString (_ :: _) => Throw TypeError
           end
         else
           match value with
           | VString v => Ok (b1, toDer_primitive type v value_)
           | VArray _ => Undef IllTyped
           end) ;;
      Ok (toDer_assemble b1 value_)
  end.

(** ** asn1.ts: fromDer *)

Record ParseOptions : Type := mkOptions {
  strict : bool;
  parseAllBytes : bool;
  decodeBitStrings : bool
}.

(** The [options] argument of [fromDer]: omitted, a boolean, or an object
    whose keys may each be left out. *)
Inductive FromDerOptions : Type :=
| OptionsOmitted
| OptionsStrict (strict : bool)
| OptionsObject (strict parseAllBytes decodeBitStrings : option bool).

Definition default_true (o : option bool) : bool :=
  match o with
  | Some b => b
  | None => true
  end.

Definition resolve_options (options : FromDerOptions) : ParseOptions :=
  match options with
  | OptionsOmitted => mkOptions true true true
  | OptionsStrict s => mkOptions s true true
  | OptionsObject s p d =>
      mkOptions (default_true s) (default_true p) (default_true d)
  end.

Definition _checkBufferLength (bytes : ByteStringBuffer) (remaining n : Z)
  : Result unit :=
  if n >? remaining then
    Throw (TooFewBytesDerError "Too few bytes to parse DER."
             (Buffer.length bytes) remaining n)
  else Ok tt.

(** [_getValueLength]; [None] is the indefinite length. *)
Definition _getValueLength (bytes : ByteStringBuffer) (remaining : Z)
  : Result (option Z * ByteStringBuffer) :=
  '(b2, bytes) <- Buffer.getByte bytes ;;
  let remaining := remaining - 1 in
  if b2 =? 128 then Ok (None, bytes)
  else
    let longForm := JS.band b2 128 in
    '(length, bytes) <-
      (if longForm =? 0 then Ok (b2, bytes)
       else
         let longFormBytes := JS.band b2 127 in
         _ <- _checkBufferLength bytes remaining longFormBytes ;;
         Buffer.getInt bytes (JS.shl longFormBytes 3)) ;;
    if length <? 0 then Throw (NegativeLengthError length)
    else Ok (Some length, bytes).

(** A parser of one nested object, given the buffer and the bytes it may
    consume. *)
Definition Parser : Type :=
  ByteStringBuffer -> Z -> Result (Asn1 * ByteStringBuffer).

(** The [for (;;)] loop that reads the children of an object of indefinite
    length up to the end-of-contents octets. *)
Fixpoint indefinite_loop (fuel : nat) (parse : Parser)
    (bytes : ByteStringBuffer) (remaining : Z) (value : list Asn1)
  : Result (list Asn1 * ByteStringBuffer * Z) :=
  match fuel with
  | O => Undef OutOfFuel
  | S fuel' =>
      _ <- _checkBufferLength bytes remaining 2 ;;
      if jsstring_eqb (Buffer.bytes bytes (Some 2)) [0; 0] then
        let bytes := snd (Buffer.getBytes bytes (Some 2)) in
        Ok (value, bytes, remaining - 2)
      else
        let start := Buffer.length bytes in
        '(child, bytes) <- parse bytes remaining ;;
        let remaining := remaining - (start - Buffer.length bytes) in
        indefinite_loop fuel' parse bytes remaining (value ++ [child])
  end.

(** The [while (length > 0)] loop that reads the children of an object of
    definite length. *)
Fixpoint definite_loop (fuel : nat) (parse : Parser)
    (bytes : ByteStringBuffer) (remaining length : Z) (value : list Asn1)
  : Result (list Asn1 * ByteStringBuffer * Z * Z) :=
  if length >? 0 then
    match fuel with
    | O => Undef OutOfFuel
    | S fuel' =>
        let start := Buffer.length bytes in
        '(child, bytes) <- parse bytes length ;;
        let used := start - Buffer.length bytes in
        definite_loop fuel' parse bytes (remaining - used) (length - used)
                      (value ++ [child])
    end
  else Ok (value, bytes, remaining, length).

(** The block that tries to read the contents of a BIT STRING as one nested
    object (asn1.ts:630-685).  It yields the new value if the attempt
    succeeded, [None] if it was abandoned, and the cursor and remaining
    count that the rest of [_fromDer] continues with.  A [catch] leaves the
    buffer as the failed call left it, that is with the same [data]; the
    restore of [bytes.read] that follows makes its cursor irrelevant. *)
Definition decode_bit_string (parse : Parser)
    (bytes : ByteStringBuffer) (remaining length type : Z)
  : Result (option (JsValue Asn1) * ByteStringBuffer * Z) :=
  let savedRead := read bytes in
  let savedRemaining := remaining in
  '(unused, bytes, remaining) <-
    (if type =? Asn1Type.BITSTRING then
       _ <- _checkBufferLength bytes remaining 1 ;;
       '(unused, bytes) <- Buffer.getByte bytes ;;
       Ok (unused, bytes, remaining - 1)
     else Ok (0, bytes, remaining)) ;;
  '(value, bytes, remaining) <-
    (if unused =? 0 then
       let start := Buffer.length bytes in
       match parse bytes remaining with
       | Ok (composed, bytes') =>
           let used := start - Buffer.length bytes' in
           let remaining := remaining - used in
           let used := if type =? Asn1Type.BITSTRING then used + 1 else used in
           let tc := tagClass composed in
           if (used =? length) &&
              ((tc =? Class.UNIVERSAL) || (tc =? Class.CONTEXT_SPECIFIC))
           then Ok (Some (VArray [composed]), bytes', remaining)
           else Ok (None, bytes', remaining)
       | Throw _ => Ok (None, bytes, remaining)
       | Undef s => Undef s
       end
     else Ok (None, bytes, remaining)) ;;
  match value with
  | None => Ok (None, mkBuffer (data bytes) savedRead, savedRemaining)
  | Some v => Ok (Some v, bytes, remaining)
  end.

(** The [for (; length > 0; length -= 2)] loop that reads a BMPSTRING. *)
Fixpoint bmp_loop (fuel : nat) (bytes : ByteStringBuffer)
    (remaining length : Z) (value : jsstring)
  : Result (jsstring * ByteStringBuffer * Z) :=
  if length >? 0 then
    match fuel with
    | O => Undef OutOfFuel
    | S fuel' =>
        _ <- _checkBufferLength bytes remaining 2 ;;
        '(c, bytes) <- Buffer.getInt16 bytes ;;
        bmp_loop fuel' bytes (remaining - 2) (length - 2)
                 (value ++ fromCharCode c)
    end
  else Ok (value, bytes, remaining).

(** "ensure there are enough bytes to get the value" (asn1.ts:575-586):
    a declared length beyond the remaining bytes is an error in strict mode
    and is cut down to them otherwise. *)
Definition clamp_length (options : ParseOptions) (bytes : ByteStringBuffer)
    (remaining : Z) (length : option Z) : Result (option Z) :=
  match length with
  | Some l =>
      if l >? remaining then
        if strict options then
          Throw (TooFewBytesDerError "Too few bytes to read ASN.1 value."
                   (Buffer.length bytes) remaining l)
        else Ok (Some remaining)
      else Ok (Some l)
  | None => Ok None
  end.

(** The children of a constructed object (asn1.ts:595-620). *)
Definition parse_children (fuel : nat) (parse : Parser)
    (bytes : ByteStringBuffer) (remaining : Z) (length : option Z)
  : Result (list Asn1 * ByteStringBuffer * Z) :=
  match length with
  | None => indefinite_loop fuel parse bytes remaining []
  | Some length =>
      '(l, bytes, remaining, _) <-
        definite_loop fuel parse bytes remaining length [] ;;
      Ok (l, bytes, remaining)
  end.

(** "asn1 not constructed or composed, get raw value" (asn1.ts:687-710). *)
Definition read_raw_value (options : ParseOptions) (type : Z)
    (bytes : ByteStringBuffer) (remaining : Z) (length : option Z)
  : Result (jsstring * ByteStringBuffer * Z) :=
  length <-
    match length with
    | None =>
        if strict options then Throw IndefinitePrimitiveError
        else Ok remaining
    | Some l => Ok l
    end ;;
  if type =? Asn1Type.BMPSTRING then
    bmp_loop (Z.to_nat length) bytes remaining length []
  else
    let '(s, bytes) := Buffer.getBytes bytes (Some length) in
    Ok (s, bytes, remaining - length).

(** [_fromDer(bytes, remaining, depth, options)].  [fuel] bounds the nesting
    depth and the number of children read at one level. *)
Fixpoint _fromDer (fuel : nat) (options : ParseOptions) (depth : Z)
    (bytes : ByteStringBuffer) (remaining : Z)
  : Result (Asn1 * ByteStringBuffer) :=
  match fuel with
  | O => Undef OutOfFuel
  | S fuel' =>
      _ <- _checkBufferLength bytes remaining 2 ;;
      '(b1, bytes) <- Buffer.getByte bytes ;;
      let remaining := remaining - 1 in
      let tagClass := JS.band b1 192 in
      let type := JS.band b1 31 in
      let start := Buffer.length bytes in
      '(length, bytes) <- _getValueLength bytes remaining ;;
      let remaining := remaining - (start - Buffer.length bytes) in
      length <- clamp_length options bytes remaining length ;;
      let constructed := JS.band b1 32 =? 32 in
      if constructed then
        '(l, bytes, remaining) <-
          parse_children fuel' (_fromDer fuel' options (depth + 1))
                         bytes remaining length ;;
        Ok (create tagClass type constructed (VArray l) None, bytes)
      else
        let isBitString :=
          (tagClass =? Class.UNIVERSAL) && (type =? Asn1Type.BITSTRING) in
        let asn1Options :=
          if isBitString
          then Some (Present (Some (Buffer.bytes bytes length)))
          else None in
        '(value, bytes, remaining) <-
          match length with
          | Some l =>
              if decodeBitStrings options && isBitString && (l >? 1) then
                decode_bit_string
                  (_fromDer fuel' (mkOptions true false true) (depth + 1))
                  bytes remaining l type
              else Ok (None, bytes, remaining)
          | None => Ok (None, bytes, remaining)
          end ;;
        match value with
        | Some v => Ok (create tagClass type constructed v asn1Options, bytes)
        | None =>
            '(s, bytes, remaining) <-
              read_raw_value options type bytes remaining length ;;
            Ok (create tagClass type constructed (VString s) asn1Options, bytes)
        end
  end.

(** [fromDer(bytes, options)].  The result carries the buffer as the call
    leaves it. *)
Definition fromDer (bytes : jsstring + ByteStringBuffer)
    (options : FromDerOptions) : Result (Asn1 * ByteStringBuffer) :=
  let options := resolve_options options in
  let bytes :=
    match bytes with
    | inl s => createBuffer (Some s)
    | inr b => b
    end in
  let byteCount := Buffer.length bytes in
  '(value, bytes) <-
    _fromDer (S (Z.to_nat (Buffer.length bytes))) options 0 bytes
             (Buffer.length bytes) ;;
  if parseAllBytes options && negb (Buffer.length bytes =? 0) then
    Throw (UnparsedDerBytesRemainError byteCount (Buffer.length bytes))
  else Ok (value, bytes).

(* ================================================================== *)
(** ** asn1.ts: validate *)

(** A validator object.  Every expectation may be left out ([None] is
    [undefined]); [value] is the list of sub-validators when it is an
    array. *)
#[local] Unset Elimination Schemes.
Inductive Schema : Type :=
| mkSchema (name : option string)
           (tagClass type : option Z) (constructed : option bool)
           (value : option (list Schema))
           (optional : bool)
           (capture captureAsn1 captureBitStringContents
            captureBitStringValue : option string).
#[local] Set Elimination Schemes.

Module SchemaFields.
Definition name (v : Schema) := let 'mkSchema x _ _ _ _ _ _ _ _ _ := v in x.
Definition tagClass (v : Schema) := let 'mkSchema _ x _ _ _ _ _ _ _ _ := v in x.
Definition type (v : Schema) := let 'mkSchema _ _ x _ _ _ _ _ _ _ := v in x.
Definition constructed (v : Schema) := let 'mkSchema _ _ _ x _ _ _ _ _ _ := v in x.
Definition value (v : Schema) := let 'mkSchema _ _ _ _ x _ _ _ _ _ := v in x.
Definition optional (v : Schema) := let 'mkSchema _ _ _ _ _ x _ _ _ _ := v in x.
End SchemaFields.

(** What [validate] receives as [obj].  The signature says [Asn1], but the
    loop over the sub-validators hands on [obj.value[j]], and on a node whose
    value is a string that is a one-letter string. *)
Inductive Subject : Type :=
| Node (o : Asn1)
| Letter (c : Z).
Coercion Node : Asn1 >-> Subject.

(** The properties [validate] reads from [obj]; a string has none of them
    ([None] is [undefined]). *)
Module SubjectFields.
Definition tagClass (obj : Subject) : option Z :=
  match obj with
  | Node o => Some (tagClass o)
  | Letter _ => None
  end.
Definition type (obj : Subject) : option Z :=
  match obj with
  | Node o => Some (type o)
  | Letter _ => None
  end.
Definition constructed (obj : Subject) : option bool :=
  match obj with
  | Node o => Some (constructed o)
  | Letter _ => None
  end.
End SubjectFields.

(** [value[j]] where it is truthy: a child of an array, or one letter of a
    string. *)
Definition element (value : JsValue Asn1) (j : nat) : option Subject :=
  match value with
  | VArray l => option_map Node (nth_error l j)
  | VString s => option_map Letter (nth_error s j)
  end.

(** What a capture map can hold: [obj.value] (undefined when [obj] is a
    letter), [obj] itself, or BIT STRING bytes. *)
Inductive Captured : Type :=
| CapturedValue (v : JsValue Asn1)
| CapturedUndefined
| CapturedAsn1 (o : Asn1)
| CapturedLetter (c : Z)
| CapturedBytes (s : option jsstring).

(** The capture object, as the list of its keys with their values. *)
Definition CaptureMap : Type := list (string * Captured).

(** [capture[key] = x] *)
Definition capture_set (m : CaptureMap) (key : string) (x : Captured) : CaptureMap :=
  (key, x) :: filter (fun kv => negb (String.eqb (fst kv) key)) m.

Definition capture_get (m : CaptureMap) (key : string) : option Captured :=
  match find (fun kv => String.eqb (fst kv) key) m with
  | Some kv => Some (snd kv)
  | None => None
  end.

(** A key that is set and not the empty string is truthy. *)
Definition truthy_key (k : option string) : option string :=
  match k with
  | Some s => if String.eqb s EmptyString then None else Some s
  | None => None
  end.

(** The double-quote character, as a string. *)
Definition dq : string := String (Ascii.ascii_of_nat 34) EmptyString.

(** Conversion to text inside a message. *)
Definition show_Z (z : Z) : string := NilZero.string_of_int (Z.to_int z).
Definition show_bool (b : bool) : string := if b then "true" else "false".
Definition show_opt {A} (show : A -> string) (o : option A) : string :=
  match o with
  | Some a => show a
  | None => "undefined"
  end.
Definition show_name (o : option string) : string := show_opt (fun s => s) o.

(** [x === e] for a property [x] and an expectation [e] that may each be
    undefined. *)
Definition same_Z (x e : option Z) : bool :=
  match x, e with
  | Some a, Some b => a =? b
  | None, None => true
  | _, _ => false
  end.
Definition same_bool (x e : option bool) : bool :=
  match x, e with
  | Some a, Some b => Bool.eqb a b
  | None, None => true
  | _, _ => false
  end.
Definition is_undefined {A} (e : option A) : bool :=
  match e with
  | Some _ => false
  | None => true
  end.

(** [errors.push(msg)] when an errors array was passed. *)
Definition push_error (errors : option (list string)) (msg : string)
  : option (list string) :=
  match errors with
  | Some l => Some (l ++ [msg])
  | None => None
  end.

Definition value_length (v : JsValue Asn1) : Z :=
  match v with
  | VString s => jslength s
  | VArray l => Z.of_nat (List.length l)
  end.

Definition ValidateState : Type :=
  (bool * option CaptureMap * option (list string))%type.

Definition Validator : Type :=
  Schema -> Subject -> option CaptureMap -> option (list string) ->
  Result ValidateState.

(** The message pushed inside the loop over the sub-validators. *)
Definition length_message (v : Schema) (obj : Asn1) : string :=
  ("[" ++ show_name (SchemaFields.name v) ++ "] " ++
   "Tag class " ++ dq ++ show_opt show_Z (SchemaFields.tagClass v) ++ dq ++ ", type " ++ dq ++
   show_opt show_Z (SchemaFields.type v) ++ dq ++ " expected value length " ++ dq ++
   show_Z (match SchemaFields.value v with
           | Some l => Z.of_nat (List.length l)
           | None => 0
           end) ++ dq ++ ", got " ++ dq ++
   show_Z (value_length (value obj)) ++ dq)%string.

(** The state of the loop over the sub-validators: [rval], the index [j]
    into the children of the node, the capture map and the errors array. *)
Definition WalkState : Type :=
  (bool * nat * option CaptureMap * option (list string))%type.

(** The loop [for (i = 0; rval && i < v.value.length; ++i)] of [validate],
    entered with the validators still to visit, the index [j] and the
    current [rval].  On a letter [obj.value] is undefined and the read of
    [obj.value[j]] raises a TypeError. *)
Fixpoint validate_children (validate : Validator) (v : Schema) (obj : Subject)
    (vs : list Schema) (j : nat) (rval : bool)
    (capture : option CaptureMap) (errors : option (list string))
  : Result WalkState :=
  match vs with
  | [] => Ok (rval, j, capture, errors)
  | vi :: rest =>
      if rval then
        let rval := SchemaFields.optional vi || false in
        match obj with
        | Letter _ => Throw TypeError
        | Node o =>
            '(rval, j, capture, errors) <-
              match element (value o) j with
              | Some child =>
                  '(rval, capture, errors) <- validate vi child capture errors ;;
                  if rval then Ok (rval, S j, capture, errors)
                  else if SchemaFields.optional vi
                       then Ok (true, j, capture, errors)
                       else Ok (rval, j, capture, errors)
              | None => Ok (rval, j, capture, errors)
              end ;;
            let errors :=
              if negb rval then push_error errors (length_message v o)
              else errors in
            validate_children validate v obj rest j rval capture errors
        end
      else Ok (rval, j, capture, errors)
  end.

(** "ensure tag class and type are the same if specified" and "ensure
    constructed flag is the same if specified". *)
Definition tag_matches (v : Schema) (obj : Subject) : bool :=
  (same_Z (SubjectFields.tagClass obj) (SchemaFields.tagClass v) ||
   is_undefined (SchemaFields.tagClass v)) &&
  (same_Z (SubjectFields.type obj) (SchemaFields.type v) ||
   is_undefined (SchemaFields.type v)).

Definition constructed_matches (v : Schema) (obj : Subject) : bool :=
  same_bool (SubjectFields.constructed obj) (SchemaFields.constructed v) ||
  is_undefined (SchemaFields.constructed v).

(** The captures made once [obj] has matched.  The operator [in] raises a
    TypeError when its right operand is a string. *)
Definition apply_captures (v : Schema) (obj : Subject) (capture : CaptureMap)
  : Result CaptureMap :=
  let 'mkSchema _ _ _ _ _ _ cap capAsn1 capContents capValue := v in
  let capture :=
    match truthy_key cap with
    | Some k =>
        capture_set capture k
          (match obj with
           | Node o => CapturedValue (value o)
           | Letter _ => CapturedUndefined
           end)
    | None => capture
    end in
  let capture :=
    match truthy_key capAsn1 with
    | Some k =>
        capture_set capture k
          (match obj with
           | Node o => CapturedAsn1 o
           | Letter c => CapturedLetter c
           end)
    | None => capture
    end in
  capture <-
    match truthy_key capContents with
    | Some k =>
        match obj with
        | Node o =>
            if field_in (bitStringContents o)
            then Ok (capture_set capture k
                       (CapturedBytes (field_get (bitStringContents o))))
            else Ok capture
        | Letter _ => Throw TypeError
        end
    | None => Ok capture
    end ;;
  match truthy_key capValue with
  | Some k =>
      match obj with
      | Node o =>
          if field_in (bitStringContents o) then
            match field_get (bitStringContents o) with
            | None => Throw TypeError
            | Some contents =>
                if jslength contents <? 2 then
                  Ok (capture_set capture k (CapturedBytes (Some [])))
                else
                  match charCodeAt contents 0 with
                  | Some unused =>
                      if negb (unused =? 0) then Throw UnusedBitsError
                      else Ok (capture_set capture k
                                 (CapturedBytes (Some (slice_from contents 1))))
                  | None => Undef ReadPastEnd
                  end
            end
          else Ok capture
      | Letter _ => Throw TypeError
      end
  | None => Ok capture
  end.

(** [validate(obj, v, capture, errors)]; [capture] and [errors] are [None]
    when not passed.  The result is the returned boolean with the capture
    map and the errors array as the call leaves them. *)
Fixpoint validate (v : Schema) (obj : Subject)
    (capture : option CaptureMap) (errors : option (list string))
  : Result ValidateState :=
  let 'mkSchema name vTagClass vType vConstructed vValue _ _ _ _ _ := v in
  if tag_matches v obj then
    if constructed_matches v obj then
      '(rval, _, capture, errors) <-
        match vValue with
        | Some vs =>
            validate_children
              (fun vi child capture errors => validate vi child capture errors)
              v obj vs 0 true capture errors
        | None => Ok (true, 0%nat, capture, errors)
        end ;;
      match rval, capture with
      | true, Some m =>
          m <- apply_captures v obj m ;;
          Ok (rval, Some m, errors)
      | _, _ => Ok (rval, capture, errors)
      end
    else
      Ok (false, capture,
          push_error errors
            ("[" ++ show_name name ++ "] " ++
             "Expected constructed " ++ dq ++ show_opt show_bool vConstructed ++
             dq ++ ", got " ++ dq ++
             show_opt show_bool (SubjectFields.constructed obj) ++ dq)%string)
  else
    let errors :=
      if negb (same_Z (SubjectFields.tagClass obj) vTagClass) then
        push_error errors
          ("[" ++ show_name name ++ "] " ++
           "Expected tag class " ++ dq ++ show_opt show_Z vTagClass ++
           dq ++ ", got " ++ dq ++
           show_opt show_Z (SubjectFields.tagClass obj) ++ dq)%string
      else errors in
    let errors :=
      if negb (same_Z (SubjectFields.type obj) vType) then
        push_error errors
          ("[" ++ show_name name ++ "] " ++
           "Expected type " ++ dq ++ show_opt show_Z vType ++
           dq ++ ", got " ++ dq ++
           show_opt show_Z (SubjectFields.type obj) ++ dq)%string
      else errors in
    Ok (false, capture, errors).

(* ================================================================== *)
(** ** asn1.ts: integerToDer *)

Definition integerToDer (x : Z) : Result ByteStringBuffer :=
  let rval := createBuffer None in
  if (x >=? -128) && (x <? 128) then Buffer.putSignedInt rval x 8
  else if (x >=? -32768) && (x <? 32768) then Buffer.putSignedInt rval x 16
  else if (x >=? -8388608) && (x <? 8388608) then Buffer.putSignedInt rval x 24
  else if (x >=? -2147483648) && (x <? 2147483648) then Buffer.putSignedInt rval x 32
  else Throw (IntegerTooLargeError x).

(* ================================================================== *)
(** ** Vocabulary of the statements *)

(** A code unit that is a byte. *)
Definition is_byte (c : Z) : Prop := 0 <= c < 256.

(** The unsigned number a byte string denotes, most significant byte first. *)
Definition be_value (bs : jsstring) : Z :=
  fold_left (fun acc b => acc * 256 + b) bs 0.

(** The same bytes read as a two's-complement number of [8 * length] bits. *)
Definition signed_be_value (bs : jsstring) : Z :=
  let u := be_value bs in
  let w := 8 * jslength bs in
  if u >=? 2 ^ (w - 1) then u - 2 ^ w else u.

(** [x] fits in [k] bytes of two's complement. *)
Definition fits_bytes (x k : Z) : Prop := - 2 ^ (8 * k - 1) <= x < 2 ^ (8 * k - 1).

(** The bytes of a buffer not yet consumed, and the buffer after [k] more
    bytes were consumed. *)
Definition unread (b : ByteStringBuffer) : jsstring :=
  skipn (Z.to_nat (read b)) (data b).

Definition advance (b : ByteStringBuffer) (k : Z) : ByteStringBuffer :=
  mkBuffer (data b) (read b + k).

(** The read cursor lies inside the stored bytes. *)
Definition cursor_ok (b : ByteStringBuffer) : Prop :=
  0 <= read b <= jslength (data b).

(** The invariant of the data model, [composed == constructed || value is a
    list], at a node, at every node below it and in its snapshot. *)
Fixpoint composed_ok (o : Asn1) : bool :=
  match o with
  | mkAsn1 _ _ constructed composed value _ original =>
      Bool.eqb composed (constructed || isArray value) &&
      match value with
      | VArray l => forallb composed_ok l
      | VString _ => true
      end &&
      match original with
      | Some o' => composed_ok o'
      | None => true
      end
  end.

(** The nodes that the public operations hand out: [create] applied to a
    string or to nodes so obtained, [copy] of such a node, and the result of
    a [fromDer] call. *)
Inductive Produced : Asn1 -> Prop :=
| Produced_create_string tagClass type constructed s options :
    Produced (create tagClass type constructed (VString s) options)
| Produced_create_array tagClass type constructed l options :
    (forall child, In child l -> Produced child) ->
    Produced (create tagClass type constructed (VArray l) options)
| Produced_copy o options :
    Produced o -> Produced (copy o options)
| Produced_fromDer bytes options o bytes' :
    fromDer bytes options = Ok (o, bytes') -> Produced o.

(** What a call [parse bytes remaining] may do when it starts with the
    cursor inside the data and [remaining] no larger than what is left: it
    throws, or it returns a node that satisfies the invariant and a buffer
    with the same data whose cursor moved by at least 2 and at most
    [remaining] bytes.  In particular it is defined. *)
Definition parse_post (b : ByteStringBuffer) (r : Z)
    (res : Result (Asn1 * ByteStringBuffer)) : Prop :=
  match res with
  | Ok (o, b') =>
      data b' = data b /\ read b + 2 <= read b' <= read b + r /\
      composed_ok o = true
  | Throw _ => True
  | Undef _ => False
  end.

Definition parser_ok (n : Z) (parse : Parser) : Prop :=
  forall b r,
    cursor_ok b -> 0 <= r <= Buffer.length b -> r < n ->
    parse_post b r (parse b r).

(** The walk over the sub-validators as the specification words it: try
    each sub-validator at [j]; on success advance [j]; on failure of an
    optional one go on without failing; on failure of a required one record
    the overall failure and go on collecting diagnostics for the remaining
    sub-validators. *)
Fixpoint walk_as_specified (validate : Validator) (v : Schema) (obj : Asn1)
    (vs : list Schema) (j : nat) (overall : bool)
    (capture : option CaptureMap) (errors : option (list string))
  : Result WalkState :=
  match vs with
  | [] => Ok (overall, j, capture, errors)
  | vi :: rest =>
      '(matched, j, capture, errors) <-
        match element (value obj) j with
        | Some child =>
            '(rval, capture, errors) <- validate vi child capture errors ;;
            if rval then Ok (true, S j, capture, errors)
            else Ok (SchemaFields.optional vi, j, capture, errors)
        | None => Ok (SchemaFields.optional vi, j, capture, errors)
        end ;;
      let errors :=
        if negb matched then push_error errors (length_message v obj)
        else errors in
      walk_as_specified validate v obj rest j (overall && matched)
                        capture errors
  end.

(** *** DER, as X.690 defines it, of the tree a node stands for *)

(** The digits of [x] in [base], most significant first, at least one.
    The numbers concerned are JavaScript integers, below [2^53]: eight
    divisions exhaust them. *)
Fixpoint digits_be (base : Z) (fuel : nat) (x : Z) (acc : list Z) : list Z :=
  let acc := x mod base :: acc in
  match fuel with
  | O => acc
  | S fuel' => if x / base =? 0 then acc else digits_be base fuel' (x / base) acc
  end.

(** Length octets: one octet up to 127, otherwise [0x80 | k] followed by
    the [k] base-256 digits of the length. *)
Definition length_octets (len : Z) : jsstring :=
  if len <=? 127 then [len]
  else
    let ds := digits_be 256 8 len [] in
    (128 + jslength ds) :: ds.

(** Identifier octets: one octet for tag numbers up to 30; above, the
    number 31 in the leading octet and the tag number in base 128 with the
    continuation bit on every octet but the last. *)
Definition identifier_octets (cls num : Z) (constructed : bool) : jsstring :=
  let lead := cls + (if constructed then 32 else 0) in
  if num <=? 30 then [lead + num]
  else
    let ds := digits_be 128 8 num [] in
    (lead + 31) :: map (fun d => 128 + d) (removelast ds) ++ [last ds 0].

(** A BMPSTRING value is held as UTF-16 code units and written as two
    octets per unit. *)
Definition utf16be (s : jsstring) : jsstring :=
  flat_map (fun c => [c / 256; c mod 256]) s.

(** The octets of the value tree that a node without BIT STRING bookkeeping
    stands for. *)
Fixpoint der_of (o : Asn1) : jsstring :=
  match o with
  | mkAsn1 tagClass type constructed _ value _ _ =>
      let content :=
        match value with
        | VArray l => flat_map der_of l
        | VString s => if type =? Asn1Type.BMPSTRING then utf16be s else s
        end in
      identifier_octets tagClass type constructed ++
      length_octets (jslength content) ++ content
  end.

Definition class_ok (c : Z) : bool :=
  (c =? Class.UNIVERSAL) || (c =? Class.APPLICATION) ||
  (c =? Class.CONTEXT_SPECIFIC) || (c =? Class.PRIVATE).

Definition byteb (c : Z) : bool := (0 <=? c) && (c <? 256).
Definition code_unitb (c : Z) : bool := (0 <=? c) && (c <? 65536).

(** An INTEGER's leading byte is not redundant relative to sign extension
    (the condition under which [toDer] leaves the value alone). *)
Definition integer_minimal (s : jsstring) : bool :=
  match s with
  | c0 :: c1 :: _ =>
      negb (((c0 =? 0) && (c1 <? 128)) || ((c0 =? 255) && (128 <=? c1)))
  | _ => true
  end.

(** A well-formed value tree, as a node built by [create] without
    [bitStringContents]: one of the four classes, a tag number, a list of
    well-formed children exactly when constructed, octets (UTF-16 code units
    for tag number 30) otherwise, and a minimal value under the UNIVERSAL
    INTEGER tag. *)
Fixpoint der_tree (o : Asn1) : bool :=
  match o with
  | mkAsn1 tagClass type constructed composed value bitStringContents original =>
      class_ok tagClass && (0 <=? type) &&
      Bool.eqb composed constructed &&
      negb (field_in bitStringContents) &&
      match original with Some _ => false | None => true end &&
      match value with
      | VArray l => constructed && forallb der_tree l
      | VString s =>
          negb constructed &&
          (if type =? Asn1Type.BMPSTRING
           then forallb code_unitb s else forallb byteb s) &&
          (if (tagClass =? Class.UNIVERSAL) && (type =? Asn1Type.INTEGER)
           then integer_minimal s else true)
      end
  end.


(** Tag numbers in low-tag-number form throughout. *)
Fixpoint low_tags (o : Asn1) : bool :=
  match o with
  | mkAsn1 _ type _ _ value _ _ =>
      (type <=? 30) &&
      match value with
      | VArray l => forallb low_tags l
      | VString _ => true
      end
  end.

(** No primitive with tag number 2, whatever its class, starts with a
    redundant byte. *)
Fixpoint tag2_minimal (o : Asn1) : bool :=
  match o with
  | mkAsn1 _ type _ _ value _ _ =>
      match value with
      | VArray l => forallb tag2_minimal l
      | VString s => if type =? Asn1Type.INTEGER then integer_minimal s else true
      end
  end.

(** The node [_fromDer] builds for a well-formed tree when it does not
    re-decode BIT STRINGs: the same tree, with the contents and the snapshot
    that [create] attaches to a primitive UNIVERSAL BIT STRING. *)
Fixpoint reparsed (o : Asn1) : Asn1 :=
  match o with
  | mkAsn1 tagClass type constructed _ value _ _ =>
      match value with
      | VArray l => create tagClass type constructed (VArray (map reparsed l)) None
      | VString s =>
          create tagClass type constructed (VString s)
            (if (tagClass =? Class.UNIVERSAL) && (type =? Asn1Type.BITSTRING)
             then Some (Present (Some s)) else None)
      end
  end.

(** What [toDer] writes as the tag byte for a five-bit tag number and what
    [_fromDer] reads back from it, checked on all 4 * 32 * 2 bytes. *)
Definition tag_byte_check (c : bool) (cls num : Z) : bool :=
  let b1 := JS.bor cls num in
  let b1 := if c then JS.bor b1 32 else b1 in
  (b1 =? cls + (if c then 32 else 0) + num) &&
  (0 <=? b1) && (b1 <? 256) &&
  (JS.band b1 192 =? cls) && (JS.band b1 31 =? num) &&
  Bool.eqb (JS.band b1 32 =? 32) c.

(* ================================================================== *)
(** ** util.ts: the remaining buffer methods and the string helpers *)

(** [s.substr(start, length)]; [None] is an omitted length. *)
Definition substr (s : jsstring) (start : Z) (len : option Z) : jsstring :=
  let size := jslength s in
  let start := if start <? 0 then Z.max (size + start) 0 else Z.min start size in
  let len :=
    match len with
    | None => size - start
    | Some l => Z.min (Z.max l 0) (size - start)
    end in
  firstn (Z.to_nat len) (skipn (Z.to_nat start) s).

(** [s.charAt(i)]: the empty string outside [s]. *)
Definition charAt (s : jsstring) (i : Z) : jsstring :=
  match charCodeAt s i with
  | Some c => [c]
  | None => []
  end.

(** The operand of a bit operator or of [String.fromCharCode] when it may
    be [NaN] or [undefined] ([None]): both convert to [0]. *)
Definition nan0 (x : option Z) : Z :=
  match x with
  | Some v => v
  | None => 0
  end.

(** The code units of a literal. *)
Definition codes (s : string) : jsstring :=
  map (fun a => Z.of_nat (Ascii.nat_of_ascii a)) (list_ascii_of_string s).

(** The [while (n > 0) { if (n & 1) s += c; n >>>= 1; if (n > 0) c += c }]
    loop shared by [fillString] and [fillWithByte].  After the first round
    [n] is below [2^31] and it halves every round: 33 rounds exhaust it. *)
Fixpoint fill_loop (fuel : nat) (c : jsstring) (n : Z) (s : jsstring) : jsstring :=
  match fuel with
  | O => s
  | S fuel' =>
      if n >? 0 then
        let s := if negb (JS.band n 1 =? 0) then s ++ c else s in
        let n := JS.shru n 1 in
        let c := if n >? 0 then c ++ c else c in
        fill_loop fuel' c n s
      else s
  end.

Definition fillString (c : jsstring) (n : Z) : jsstring :=
  fill_loop 33 c n [].

(** The [for (; n > 0; --n, ++i)] loop of [xorBytes]; [t] collects up to
    ten characters before they are moved to [s3]. *)
Fixpoint xorBytes_loop (fuel : nat) (s1 s2 : jsstring) (n i : Z)
    (s3 t : jsstring) (c : Z) : jsstring :=
  match fuel with
  | O => s3 ++ t
  | S fuel' =>
      if n >? 0 then
        let b := JS.bxor (nan0 (charCodeAt s1 i)) (nan0 (charCodeAt s2 i)) in
        let '(s3, t, c) := if c >=? 10 then (s3 ++ t, [], 0) else (s3, t, c) in
        xorBytes_loop fuel' s1 s2 (n - 1) (i + 1) s3 (t ++ fromCharCode b) (c + 1)
      else s3 ++ t
  end.

Definition xorBytes (s1 s2 : jsstring) (n : Z) : jsstring :=
  xorBytes_loop (Z.to_nat n) s1 s2 n 0 [] [] 0.

(** [Number.prototype.toString(16)] on an integer. *)
Definition hex_digit (d : Z) : Z := if d <? 10 then 48 + d else 87 + d.

Definition toString16 (z : Z) : jsstring :=
  if z <? 0
  then 45 :: map hex_digit (digits_be 16 (Z.to_nat (Z.log2 (- z))) (- z) [])
  else map hex_digit (digits_be 16 (Z.to_nat (Z.log2 z)) z []).

(** [parseInt(s, 16)]: leading white space, a sign, an [0x] prefix, then
    the longest run of hexadecimal digits; [None] is [NaN].  (The digits
    are summed exactly; the callers pass at most two of them.) *)
Definition is_white_space (c : Z) : bool :=
  ((9 <=? c) && (c <=? 13)) || (c =? 32) || (c =? 160) || (c =? 5760) ||
  ((8192 <=? c) && (c <=? 8202)) || (c =? 8232) || (c =? 8233) ||
  (c =? 8239) || (c =? 8287) || (c =? 12288) || (c =? 65279).

Definition digit_value (c : Z) : option Z :=
  if (48 <=? c) && (c <=? 57) then Some (c - 48)
  else if (97 <=? c) && (c <=? 122) then Some (c - 87)
  else if (65 <=? c) && (c <=? 90) then Some (c - 55)
  else None.

Fixpoint trim_start (s : jsstring) : jsstring :=
  match s with
  | c :: rest => if is_white_space c then trim_start rest else s
  | [] => []
  end.

Fixpoint parse_digits (radix : Z) (s : jsstring) (acc : option Z) : option Z :=
  match s with
  | [] => acc
  | c :: rest =>
      match digit_value c with
      | Some d =>
          if d <? radix
          then parse_digits radix rest (Some (nan0 acc * radix + d))
          else acc
      | None => acc
      end
  end.

Definition parseInt16 (s : jsstring) : option Z :=
  let s := trim_start s in
  let '(sign, s) :=
    match s with
    | c :: rest =>
        if c =? 45 then (-1, rest) else if c =? 43 then (1, rest) else (1, s)
    | [] => (1, s)
    end in
  let s :=
    match s with
    | c0 :: c1 :: rest =>
        if (c0 =? 48) && ((c1 =? 120) || (c1 =? 88)) then rest else s
    | _ => s
    end in
  match parse_digits 16 s None with
  | Some v => Some (sign * v)
  | None => None
  end.

(** The [for (; i < hex.length; i += 2)] loop of [hexToBytes]:
    [hex.substr(i, 2)] holds one character when one is left. *)
Fixpoint hexToBytes_loop (hex : jsstring) : jsstring :=
  match hex with
  | a :: b :: rest =>
      fromCharCode (nan0 (parseInt16 [a; b])) ++ hexToBytes_loop rest
  | [a] => fromCharCode (nan0 (parseInt16 [a]))
  | [] => []
  end.

Definition hexToBytes (hex : jsstring) : jsstring :=
  if JS.band (jslength hex) 1 =? 1 then
    match hex with
    | h0 :: rest => fromCharCode (nan0 (parseInt16 [h0])) ++ hexToBytes_loop rest
    | [] => []
    end
  else hexToBytes_loop hex.

Definition int32ToBytes (i : Z) : jsstring :=
  fromCharCode (JS.band (JS.sar i 24) 255) ++
  fromCharCode (JS.band (JS.sar i 16) 255) ++
  fromCharCode (JS.band (JS.sar i 8) 255) ++
  fromCharCode (JS.band i 255).

Definition _base64 : jsstring :=
  codes "ABCDEFGHIJKLMNOPQRSTUVWXYZabcdefghijklmnopqrstuvwxyz0123456789+/=".

Definition _base64Idx : list Z :=
  [ 62; -1; -1; -1; 63;
    52; 53; 54; 55; 56; 57; 58; 59; 60; 61;
    -1; -1; -1; 64; -1; -1; -1;
    0; 1; 2; 3; 4; 5; 6; 7; 8; 9; 10; 11; 12;
    13; 14; 15; 16; 17; 18; 19; 20; 21; 22; 23; 24; 25;
    -1; -1; -1; -1; -1; -1;
    26; 27; 28; 29; 30; 31; 32; 33; 34; 35; 36; 37; 38;
    39; 40; 41; 42; 43; 44; 45; 46; 47; 48; 49; 50; 51 ].

(** The four characters [encode64] writes for one group; [chr2] and [chr3]
    are [NaN] ([None]) past the end of the input. *)
Definition encode64_group (chr1 : Z) (chr2 chr3 : option Z) : jsstring :=
  charAt _base64 (JS.sar chr1 2) ++
  charAt _base64 (JS.bor (JS.shl (JS.band chr1 3) 4) (JS.sar (nan0 chr2) 4)) ++
  match chr2 with
  | None => codes "=="
  | Some c2 =>
      charAt _base64 (JS.bor (JS.shl (JS.band c2 15) 2) (JS.sar (nan0 chr3) 6)) ++
      match chr3 with
      | None => codes "="
      | Some c3 => charAt _base64 (JS.band c3 63)
      end
  end.

(** [if (maxline && line.length > maxline) { ... }]; the result is the new
    [(line, output)]. *)
Definition encode64_wrap (maxline : option Z) (line output : jsstring)
  : jsstring * jsstring :=
  match maxline with
  | Some m =>
      if negb (m =? 0) && (jslength line >? m)
      then (substr line m None, output ++ substr line 0 (Some m) ++ [13; 10])
      else (line, output)
  | None => (line, output)
  end.

Fixpoint encode64_loop (input : jsstring) (maxline : option Z)
    (line output : jsstring) : jsstring :=
  match input with
  | [] => output ++ line
  | [chr1] =>
      let '(line, output) :=
        encode64_wrap maxline (line ++ encode64_group chr1 None None) output in
      output ++ line
  | [chr1; chr2] =>
      let '(line, output) :=
        encode64_wrap maxline (line ++ encode64_group chr1 (Some chr2) None)
                      output in
      output ++ line
  | chr1 :: chr2 :: chr3 :: rest =>
      let '(line, output) :=
        encode64_wrap maxline
          (line ++ encode64_group chr1 (Some chr2) (Some chr3)) output in
      encode64_loop rest maxline line output
  end.

Definition encode64 (input : jsstring) (maxline : option Z) : jsstring :=
  encode64_loop input maxline [] [].

(** The characters that [/[^A-Za-z0-9\+\/\=]/g] leaves in place. *)
Definition is_base64_char (c : Z) : bool :=
  ((65 <=? c) && (c <=? 90)) || ((97 <=? c) && (c <=? 122)) ||
  ((48 <=? c) && (c <=? 57)) || (c =? 43) || (c =? 47) || (c =? 61).

(** [_base64Idx[input.charCodeAt(i) - 43]]; [None] is [undefined]. *)
Definition base64_index (c : option Z) : option Z :=
  match c with
  | Some c => if c - 43 <? 0 then None else nth_error _base64Idx (Z.to_nat (c - 43))
  | None => None
  end.

Definition is_64 (enc : option Z) : bool :=
  match enc with
  | Some e => e =? 64
  | None => false
  end.

Definition decode64_group (enc1 enc2 enc3 enc4 : option Z) : jsstring :=
  fromCharCode (JS.bor (JS.shl (nan0 enc1) 2) (JS.sar (nan0 enc2) 4)) ++
  if negb (is_64 enc3) then
    fromCharCode (JS.bor (JS.shl (JS.band (nan0 enc2) 15) 4) (JS.sar (nan0 enc3) 2)) ++
    if negb (is_64 enc4) then
      fromCharCode (JS.bor (JS.shl (JS.band (nan0 enc3) 3) 6) (nan0 enc4))
    else []
  else [].

Fixpoint decode64_loop (input : jsstring) : jsstring :=
  match input with
  | [] => []
  | [c1] =>
      decode64_group (base64_index (Some c1)) None None None
  | [c1; c2] =>
      decode64_group (base64_index (Some c1)) (base64_index (Some c2)) None None
  | [c1; c2; c3] =>
      decode64_group (base64_index (Some c1)) (base64_index (Some c2))
                     (base64_index (Some c3)) None
  | c1 :: c2 :: c3 :: c4 :: rest =>
      decode64_group (base64_index (Some c1)) (base64_index (Some c2))
                     (base64_index (Some c3)) (base64_index (Some c4)) ++
      decode64_loop rest
  end.

Definition decode64 (input : jsstring) : jsstring :=
  decode64_loop (filter is_base64_char input).

(** The methods of [ByteStringBuffer] (alias [ByteBuffer]) that asn1.ts
    does not call. *)
Module ByteBuffer.

Definition fillWithByte (b : ByteStringBuffer) (byte n : Z) : ByteStringBuffer :=
  mkBuffer (fill_loop 33 (fromCharCode byte) n (data b)) (read b).

Definition putInt16Le (b : ByteStringBuffer) (i : Z) : ByteStringBuffer :=
  Buffer.putBytes b
    (fromCharCode (JS.band i 255) ++
     fromCharCode (JS.band (JS.sar i 8) 255)).

Definition putInt24Le (b : ByteStringBuffer) (i : Z) : ByteStringBuffer :=
  Buffer.putBytes b
    (fromCharCode (JS.band i 255) ++
     fromCharCode (JS.band (JS.sar i 8) 255) ++
     fromCharCode (JS.band (JS.sar i 16) 255)).

Definition putInt32Le (b : ByteStringBuffer) (i : Z) : ByteStringBuffer :=
  Buffer.putBytes b
    (fromCharCode (JS.band i 255) ++
     fromCharCode (JS.band (JS.sar i 8) 255) ++
     fromCharCode (JS.band (JS.sar i 16) 255) ++
     fromCharCode (JS.band (JS.sar i 24) 255)).

Definition getInt16Le (b : ByteStringBuffer) : Result (Z * ByteStringBuffer) :=
  c0 <- Buffer.codeAt b (read b) ;;
  c1 <- Buffer.codeAt b (read b + 1) ;;
  Ok (JS.bxor c0 (JS.shl c1 8), mkBuffer (data b) (read b + 2)).

Definition getInt24Le (b : ByteStringBuffer) : Result (Z * ByteStringBuffer) :=
  c0 <- Buffer.codeAt b (read b) ;;
  c1 <- Buffer.codeAt b (read b + 1) ;;
  c2 <- Buffer.codeAt b (read b + 2) ;;
  Ok (JS.bxor (JS.bxor c0 (JS.shl c1 8)) (JS.shl c2 16),
      mkBuffer (data b) (read b + 3)).

Definition getInt32Le (b : ByteStringBuffer) : Result (Z * ByteStringBuffer) :=
  c0 <- Buffer.codeAt b (read b) ;;
  c1 <- Buffer.codeAt b (read b + 1) ;;
  c2 <- Buffer.codeAt b (read b + 2) ;;
  c3 <- Buffer.codeAt b (read b + 3) ;;
  Ok (JS.bxor (JS.bxor (JS.bxor c0 (JS.shl c1 8)) (JS.shl c2 16)) (JS.shl c3 24),
      mkBuffer (data b) (read b + 4)).

Definition at_ (b : ByteStringBuffer) (i : Z) : Result Z :=
  Buffer.codeAt b (read b + i).

Definition setAt (b : ByteStringBuffer) (i x : Z) : ByteStringBuffer :=
  mkBuffer
    (substr (data b) 0 (Some (read b + i)) ++ fromCharCode x ++
     substr (data b) (read b + i + 1) None)
    (read b).

Definition last (b : ByteStringBuffer) : Result Z :=
  Buffer.codeAt b (jslength (data b) - 1).

Definition copy (b : ByteStringBuffer) : ByteStringBuffer :=
  mkBuffer (data (createBuffer (Some (data b)))) (read b).

Definition compact (b : ByteStringBuffer) : ByteStringBuffer :=
  if read b >? 0 then mkBuffer (slice_from (data b) (read b)) 0 else b.

Definition truncate (b : ByteStringBuffer) (count : Z) : ByteStringBuffer :=
  let len := Z.max 0 (Buffer.length b - count) in
  mkBuffer (substr (data b) (read b) (Some len)) 0.

(** The loop of [toHex]; a [NaN] code prints as the three letters that
    [NaN.toString(16)] gives. *)
Fixpoint toHex_loop (fuel : nat) (b : ByteStringBuffer) (i : Z)
    (rval : jsstring) : jsstring :=
  match fuel with
  | O => rval
  | S fuel' =>
      if i <? jslength (data b) then
        let rval :=
          match charCodeAt (data b) i with
          | Some c => (if c <? 16 then rval ++ codes "0" else rval) ++ toString16 c
          | None => rval ++ codes "NaN"
          end in
        toHex_loop fuel' b (i + 1) rval
      else rval
  end.

Definition toHex (b : ByteStringBuffer) : jsstring :=
  toHex_loop (Z.to_nat (jslength (data b) - read b)) b (read b) [].

End ByteBuffer.

Definition bytesToHex (bytes : jsstring) : jsstring :=
  ByteBuffer.toHex (createBuffer (Some bytes)).

(** The alphabet and the reverse table agree on a six-bit number: the
    check is run on all 64. *)
Definition alphabet_check (e : Z) : bool :=
  match charAt _base64 e with
  | [x] =>
      is_base64_char x && negb (x =? 61) &&
      match base64_index (Some x) with
      | Some e' => e' =? e
      | None => false
      end
  | _ => false
  end.

(* ================================================================== *)
(** ** asn1.ts: getBerValueLength *)

(** The exported twin of [_getValueLength]: the same reads without the
    check of the remaining bytes and without the check of the sign. *)
Definition getBerValueLength (b : ByteStringBuffer)
  : Result (option Z * ByteStringBuffer) :=
  '(b2, b) <- Buffer.getByte b ;;
  if b2 =? 128 then Ok (None, b)
  else
    let longForm := JS.band b2 128 in
    if longForm =? 0 then Ok (Some b2, b)
    else
      '(length, b) <- Buffer.getInt b (JS.shl (JS.band b2 127) 3) ;;
      Ok (Some length, b).

(* ================================================================== *)
(** ** rsa.ts: the key validators, privateKeyToAsn1, _bnToBytes *)

Module Rsa.

(** A validator of a primitive with one capture, and of a constructed
    object with sub-validators, as the object literals of rsa.ts write
    them ([optional] and the other capture keys are left out). *)
Definition primitive_ (name : string) (type : Z) (capture : string) : Schema :=
  mkSchema (Some name) (Some Class.UNIVERSAL) (Some type) (Some false)
           None false (Some capture) None None None.

Definition constructed_ (name : string) (type : Z) (value : list Schema) : Schema :=
  mkSchema (Some name) (Some Class.UNIVERSAL) (Some type) (Some true)
           (Some value) false None None None None.

Definition privateKeyValidator : Schema :=
  constructed_ "PrivateKeyInfo" Asn1Type.SEQUENCE
    [ primitive_ "PrivateKeyInfo.version" Asn1Type.INTEGER "privateKeyVersion";
      constructed_ "PrivateKeyInfo.privateKeyAlgorithm" Asn1Type.SEQUENCE
        [ primitive_ "AlgorithmIdentifier.algorithm" Asn1Type.OID
                     "privateKeyOid" ];
      primitive_ "PrivateKeyInfo" Asn1Type.OCTETSTRING "privateKey" ].

Definition rsaPrivateKeyValidator : Schema :=
  constructed_ "RSAPrivateKey" Asn1Type.SEQUENCE
    [ primitive_ "RSAPrivateKey.version" Asn1Type.INTEGER "privateKeyVersion";
      primitive_ "RSAPrivateKey.modulus" Asn1Type.INTEGER "privateKeyModulus";
      primitive_ "RSAPrivateKey.publicExponent" Asn1Type.INTEGER
                 "privateKeyPublicExponent";
      primitive_ "RSAPrivateKey.privateExponent" Asn1Type.INTEGER
                 "privateKeyPrivateExponent";
      primitive_ "RSAPrivateKey.prime1" Asn1Type.INTEGER "privateKeyPrime1";
      primitive_ "RSAPrivateKey.prime2" Asn1Type.INTEGER "privateKeyPrime2";
      primitive_ "RSAPrivateKey.exponent1" Asn1Type.INTEGER
                 "privateKeyExponent1";
      primitive_ "RSAPrivateKey.exponent2" Asn1Type.INTEGER
                 "privateKeyExponent2";
      primitive_ "RSAPrivateKey.coefficient" Asn1Type.INTEGER
                 "privateKeyCoefficient" ].

Definition rsaPublicKeyValidator : Schema :=
  constructed_ "RSAPublicKey" Asn1Type.SEQUENCE
    [ primitive_ "RSAPublicKey.modulus" Asn1Type.INTEGER "publicKeyModulus";
      primitive_ "RSAPublicKey.exponent" Asn1Type.INTEGER "publicKeyExponent" ].

(** [_bnToBytes(b)]: the hexadecimal digits of [b], a pair of zeros in
    front when the first digit is [8] or more, read as bytes, and one
    redundant leading byte dropped. *)
Definition _bnToBytes (b : Z) : jsstring :=
  let hex := toString16 b in
  let hex :=
    match hex with
    | h0 :: _ => if h0 >=? 56 then codes "00" ++ hex else hex
    | [] => hex
    end in
  let bytes := hexToBytes hex in
  match bytes with
  | c0 :: c1 :: _ =>
      if ((c0 =? 0) && (JS.band c1 128 =? 0)) ||
         ((c0 =? 255) && (JS.band c1 128 =? 128))
      then substr bytes 1 None
      else bytes
  | _ => bytes
  end.

(** The fields of a private key that [privateKeyToAsn1] reads. *)
Record PrivateKey : Type := mkPrivateKey {
  n : Z; e : Z; d : Z; p : Z; q : Z; dP : Z; dQ : Z; qInv : Z
}.

Definition integer_ (bytes : jsstring) : Asn1 :=
  create Class.UNIVERSAL Asn1Type.INTEGER false (VString bytes) None.

Definition privateKeyToAsn1 (key : PrivateKey) : Result Asn1 :=
  version <- integerToDer 0 ;;
  Ok (create Class.UNIVERSAL Asn1Type.SEQUENCE true
        (VArray
           [ integer_ (fst (Buffer.getBytes version None));
             integer_ (_bnToBytes (n key));
             integer_ (_bnToBytes (e key));
             integer_ (_bnToBytes (d key));
             integer_ (_bnToBytes (p key));
             integer_ (_bnToBytes (q key));
             integer_ (_bnToBytes (dP key));
             integer_ (_bnToBytes (dQ key));
             integer_ (_bnToBytes (qInv key)) ])
        None).

End Rsa.

(* ================================================================== *)
(** ** Vocabulary of the further statements *)

(** No primitive UNIVERSAL BIT STRING anywhere in the tree. *)
Fixpoint no_bit_string (o : Asn1) : bool :=
  match o with
  | mkAsn1 tagClass type constructed _ value _ _ =>
      negb ((tagClass =? Class.UNIVERSAL) && (type =? Asn1Type.BITSTRING) &&
            negb constructed) &&
      match value with
      | VArray l => forallb no_bit_string l
      | VString _ => true
      end
  end.

(** The shape [toDer] can encode: a list of encodable children exactly
    under [composed], a string otherwise, and contents that are not
    [undefined] when the key is there. *)
Fixpoint encodable (o : Asn1) : bool :=
  match o with
  | mkAsn1 _ _ _ composed value bitStringContents _ =>
      match value with
      | VArray l => composed && forallb encodable l
      | VString _ => negb composed
      end &&
      match bitStringContents with
      | Present None => false
      | _ => true
      end
  end.

(** The errors array after a call, relative to the one passed in: the same
    messages followed by at least [least] new ones, and still not there
    when none was passed. *)
Definition errors_extend (before after : option (list string)) (least : nat)
  : Prop :=
  match before with
  | Some l =>
      exists more, after = Some (l ++ more) /\ (least <= List.length more)%nat
  | None => after = None
  end.

(** What a call of the validator, and a run of the loop over the
    sub-validators entered with [rval], leave behind: messages are only
    added, at least one when the outcome turns to failure; without a
    capture object there is none afterwards and the only exception is the
    TypeError of the runtime.  The call is always defined. *)
Definition validate_post (res : Result ValidateState)
    (capture : option CaptureMap) (errors : option (list string)) : Prop :=
  match res with
  | Ok (r, c', e') =>
      errors_extend errors e' (if r then 0 else 1) /\
      (capture = None -> c' = None)
  | Throw e => capture = None -> e = TypeError
  | Undef _ => False
  end.

Definition walk_post (res : Result WalkState) (rval : bool)
    (capture : option CaptureMap) (errors : option (list string)) : Prop :=
  match res with
  | Ok (r', _, c', e') =>
      errors_extend errors e' (if rval && negb r' then 1 else 0) /\
      (capture = None -> c' = None)
  | Throw e => capture = None -> e = TypeError
  | Undef _ => False
  end.

(** A validator that names a tag class, a type or a constructed flag: no
    letter of a string matches it. *)
Definition names_tag (v : Schema) : bool :=
  negb (is_undefined (SchemaFields.tagClass v)) ||
  negb (is_undefined (SchemaFields.type v)) ||
  negb (is_undefined (SchemaFields.constructed v)).

(** Every sub-validator of [v], at every depth, names a tag class, a type
    or a constructed flag. *)
Fixpoint sub_validators_tagged (v : Schema) : bool :=
  match v with
  | mkSchema _ _ _ _ (Some vs) _ _ _ _ _ =>
      forallb (fun vi => names_tag vi && sub_validators_tagged vi) vs
  | mkSchema _ _ _ _ None _ _ _ _ _ => true
  end.

(* ================================================================== *)
(** * Properties *)

(** ** The integer operators on the ranges the code uses *)

Lemma ToInt32_small x : - 2 ^ 31 <= x < 2 ^ 31 -> JS.ToInt32 x = x.
Proof.
  intros H. unfold JS.ToInt32.
  rewrite Z.mod_small by (change (2 ^ 32) with (2 ^ 31 + 2 ^ 31); lia). lia.
Qed.

Lemma ToInt32_range x : - 2 ^ 31 <= JS.ToInt32 x < 2 ^ 31.
Proof.
  unfold JS.ToInt32.
  pose proof (Z.mod_pos_bound (x + 2 ^ 31) (2 ^ 32) ltac:(lia)).
  change (2 ^ 32) with (2 ^ 31 + 2 ^ 31) in *. lia.
Qed.

Lemma band_255 x : JS.band x 255 = JS.ToInt32 x mod 256.
Proof.
  unfold JS.band. rewrite (ToInt32_small 255) by lia.
  change 255 with (Z.ones 8). rewrite Z.land_ones by lia. reflexivity.
Qed.

Lemma band_255_byte x : is_byte (JS.band x 255).
Proof. rewrite band_255. unfold is_byte. apply Z.mod_pos_bound. lia. Qed.

Lemma sar_div i k :
  0 <= k < 32 -> JS.sar i k = JS.ToInt32 i / 2 ^ k.
Proof.
  intros Hk. unfold JS.sar, JS.ToUint32.
  rewrite (Z.mod_small k (2 ^ 32)) by lia.
  rewrite (Z.mod_small k 32) by lia.
  apply Z.shiftr_div_pow2. lia.
Qed.

Lemma shl_mul a k :
  0 <= k < 32 -> JS.shl a k = JS.ToInt32 (JS.ToInt32 a * 2 ^ k).
Proof.
  intros Hk. unfold JS.shl, JS.ToUint32.
  rewrite (Z.mod_small k (2 ^ 32)) by lia.
  rewrite (Z.mod_small k 32) by lia.
  rewrite Z.shiftl_mul_pow2 by lia. reflexivity.
Qed.

Lemma ToUint16_byte c : is_byte c -> JS.ToUint16 c = c.
Proof. unfold is_byte, JS.ToUint16. intros. apply Z.mod_small. lia. Qed.

Lemma fromCharCode_band x : fromCharCode (JS.band x 255) = [JS.ToInt32 x mod 256].
Proof.
  unfold fromCharCode. rewrite ToUint16_byte by apply band_255_byte.
  now rewrite band_255.
Qed.

(** ** Reading at the cursor *)

Lemma jslength_app (xs ys : jsstring) : jslength (xs ++ ys) = jslength xs + jslength ys.
Proof. unfold jslength. rewrite length_app. lia. Qed.

Lemma jslength_nonneg (xs : jsstring) : 0 <= jslength xs.
Proof. unfold jslength. lia. Qed.

Lemma jslength_cons c (xs : jsstring) : jslength (c :: xs) = 1 + jslength xs.
Proof. unfold jslength. cbn [List.length]. lia. Qed.

Lemma unread_length b : cursor_ok b -> jslength (unread b) = Buffer.length b.
Proof.
  unfold cursor_ok, unread, Buffer.length, jslength. intros H.
  rewrite length_skipn. unfold jslength in H. lia.
Qed.

Lemma unread_split b :
  cursor_ok b ->
  data b = firstn (Z.to_nat (read b)) (data b) ++ unread b /\
  jslength (firstn (Z.to_nat (read b)) (data b)) = read b.
Proof.
  unfold cursor_ok, unread, jslength. intros H. split.
  - symmetry. apply firstn_skipn.
  - rewrite length_firstn. lia.
Qed.

Lemma unread_advance b xs suf :
  cursor_ok b -> unread b = xs ++ suf ->
  cursor_ok (advance b (jslength xs)) /\ unread (advance b (jslength xs)) = suf.
Proof.
  intros Hc Hu. pose proof (unread_length b Hc) as Hl.
  rewrite Hu, jslength_app in Hl. unfold Buffer.length in Hl.
  pose proof (jslength_nonneg xs). pose proof (jslength_nonneg suf).
  unfold cursor_ok in *. unfold advance, unread in *. cbn [data read]. split.
  - lia.
  - replace (Z.to_nat (read b + jslength xs))
      with (List.length xs + Z.to_nat (read b))%nat by (unfold jslength; lia).
    rewrite <- skipn_skipn, Hu. rewrite skipn_app, skipn_all.
    rewrite Nat.sub_diag. reflexivity.
Qed.

Lemma charCodeAt_unread b c suf :
  cursor_ok b -> unread b = c :: suf -> charCodeAt (data b) (read b) = Some c.
Proof.
  intros Hc Hu. unfold charCodeAt. destruct Hc as [H0 H1].
  destruct (Z.ltb_spec (read b) 0); [lia|].
  unfold unread in Hu.
  rewrite <- (firstn_skipn (Z.to_nat (read b)) (data b)), Hu.
  rewrite nth_error_app2 by (rewrite length_firstn; lia).
  rewrite length_firstn.
  replace (Z.to_nat (read b) - Nat.min (Z.to_nat (read b)) (List.length (data b)))%nat
    with 0%nat by (unfold jslength in H1; lia).
  reflexivity.
Qed.

Lemma getByte_unread b c suf :
  cursor_ok b -> unread b = c :: suf ->
  Buffer.getByte b = Ok (c, advance b 1).
Proof.
  intros Hc Hu. unfold Buffer.getByte.
  now rewrite (charCodeAt_unread b c suf Hc Hu).
Qed.

Lemma advance_cons b c suf :
  cursor_ok b -> unread b = c :: suf ->
  cursor_ok (advance b 1) /\ unread (advance b 1) = suf.
Proof.
  intros Hc Hu. apply (unread_advance b [c] suf Hc Hu).
Qed.

Lemma advance_advance b j k : advance (advance b j) k = advance b (j + k).
Proof. unfold advance. cbn [data read]. f_equal. lia. Qed.

Lemma advance_0 b : advance b 0 = b.
Proof. destruct b. unfold advance. cbn [data read]. f_equal. lia. Qed.

Lemma slice_unread b xs suf :
  cursor_ok b -> unread b = xs ++ suf ->
  slice (data b) (read b) (read b + jslength xs) = xs.
Proof.
  intros Hc Hu. pose proof (unread_length b Hc) as Hl.
  rewrite Hu, jslength_app in Hl. unfold Buffer.length in Hl.
  pose proof (jslength_nonneg xs) as Hxs. pose proof (jslength_nonneg suf) as Hsuf.
  destruct Hc as [Hr0 Hr1]. unfold slice.
  destruct (Z.ltb_spec (read b) 0); [lia|].
  destruct (Z.ltb_spec (read b + jslength xs) 0); [lia|].
  rewrite !Z.min_l by lia.
  unfold unread in Hu. rewrite Hu.
  replace (Z.to_nat (read b + jslength xs - read b)) with (List.length xs)
    by (unfold jslength; lia).
  rewrite firstn_app, firstn_all, Nat.sub_diag. cbn [firstn]. apply app_nil_r.
Qed.

Lemma getBytes_unread b xs suf :
  cursor_ok b -> unread b = xs ++ suf ->
  Buffer.getBytes b (Some (jslength xs)) = (xs, advance b (jslength xs)).
Proof.
  intros Hc Hu. unfold Buffer.getBytes.
  destruct (Z.eqb_spec (jslength xs) 0) as [E|E]; cbn [negb].
  - rewrite E, advance_0. destruct xs; [reflexivity|].
    rewrite jslength_cons in E. pose proof (jslength_nonneg xs). lia.
  - pose proof (unread_length b Hc) as Hl.
    rewrite Hu, jslength_app in Hl. pose proof (jslength_nonneg suf).
    rewrite Z.min_r by lia.
    now rewrite (slice_unread b xs suf Hc Hu).
Qed.

(** ** Fixed-width integers in the buffer *)

Lemma be_value_app xs ys :
  be_value (xs ++ ys) = fold_left (fun acc b => acc * 256 + b) ys (be_value xs).
Proof. unfold be_value. apply fold_left_app. Qed.

Lemma be_value_snoc xs c : be_value (xs ++ [c]) = be_value xs * 256 + c.
Proof. rewrite be_value_app. reflexivity. Qed.

Lemma be_value_bound bs :
  Forall is_byte bs -> 0 <= be_value bs < 256 ^ jslength bs.
Proof.
  induction bs as [|c bs IH] using rev_ind; intros HF.
  - cbn. lia.
  - apply Forall_app in HF. destruct HF as [HF Hc].
    inversion Hc as [|? ? Hb _]; subst. unfold is_byte in Hb.
    rewrite be_value_snoc, jslength_app.
    change (jslength [c]) with 1.
    rewrite Z.pow_add_r by (pose proof (jslength_nonneg bs); lia).
    specialize (IH HF). nia.
Qed.

Ltac step_getByte Hc Hu :=
  match goal with
  | |- context [Buffer.getByte ?b] =>
      let Hc' := fresh "Hc" in let Hu' := fresh "Hu" in
      destruct (advance_cons b _ _ Hc Hu) as [Hc' Hu'];
      rewrite (getByte_unread b _ _ Hc Hu); cbn [bind];
      clear Hu; rename Hu' into Hu; clear Hc; rename Hc' into Hc
  end.

Lemma getInt_value b bs suf k :
  cursor_ok b -> unread b = bs ++ suf -> Forall is_byte bs ->
  jslength bs = k -> 1 <= k <= 4 ->
  Buffer.getInt b (8 * k) = Ok (JS.ToInt32 (be_value bs), advance b k).
Proof.
  intros Hc Hu HF Hl Hk.
  assert (Hcases : k = 1 \/ k = 2 \/ k = 3 \/ k = 4) by lia.
  unfold Buffer.getInt.
  destruct Hcases as [-> | [-> | [-> | ->]]];
    (destruct bs as [|c0 [|c1 [|c2 [|c3 [|c4 bs]]]]];
     unfold jslength in Hl; cbn [List.length] in Hl; try lia);
    cbn [_checkBitsParam Z.eqb Z.mul Pos.mul Pos.eqb orb negb bind];
    cbn [app] in Hu;
    repeat match goal with
           | H : Forall _ (_ :: _) |- _ => inversion H; subst; clear H
           end;
    unfold is_byte in *;
    cbn [Buffer.getInt_loop];
    repeat (step_getByte Hc Hu;
            cbn [Z.sub Z.add Z.opp Z.pos_sub Z.succ_double Z.pred_double Z.double
                 Pos.pred_double Z.gtb Z.compare Pos.compare Pos.compare_cont]);
    rewrite ?advance_advance; cbn [Z.add Pos.add Pos.succ];
    f_equal; f_equal;
    rewrite ?shl_mul by lia;
    cbv [be_value fold_left];
    change (2 ^ 8) with 256;
    unfold JS.ToInt32; change (2 ^ 31) with 2147483648;
    change (2 ^ 32) with 4294967296;
    Z.div_mod_to_equations; lia.
Qed.

Lemma putInt_value b i k :
  1 <= k <= 4 ->
  exists bs,
    Buffer.putInt b i (8 * k) = Ok (Buffer.putBytes b bs) /\
    jslength bs = k /\ Forall is_byte bs /\
    be_value bs = JS.ToInt32 i mod 2 ^ (8 * k).
Proof.
  intros Hk.
  assert (Hcases : k = 1 \/ k = 2 \/ k = 3 \/ k = 4) by lia.
  unfold Buffer.putInt.
  destruct Hcases as [-> | [-> | [-> | ->]]];
    cbn [_checkBitsParam Z.eqb Z.mul Pos.mul Pos.eqb orb negb bind];
    cbn [Buffer.putInt_loop Z.sub Z.add Z.opp Z.pos_sub Z.succ_double
         Z.pred_double Z.double Pos.pred_double Z.gtb Z.compare Pos.compare
         Pos.compare_cont];
    rewrite ?fromCharCode_band; cbn [app];
    rewrite ?sar_div by lia;
    (eexists; split; [reflexivity|]);
    (split; [reflexivity|]);
    (split;
     [ repeat (apply Forall_cons; [unfold is_byte; apply Z.mod_pos_bound; lia|]);
       apply Forall_nil
     | cbv [be_value fold_left];
       pose proof (ToInt32_range i);
       change (2 ^ 31) with 2147483648 in *;
       change (2 ^ 0) with 1; change (2 ^ 8) with 256;
       change (2 ^ 16) with 65536; change (2 ^ 24) with 16777216;
       change (2 ^ 32) with 4294967296;
       generalize dependent (JS.ToInt32 i); intros z Hz;
       repeat match goal with
              | |- context [JS.ToInt32 (z / ?c)] =>
                  rewrite (ToInt32_small (z / c))
                    by (change (2 ^ 31) with 2147483648;
                        Z.div_mod_to_equations; lia)
              end;
       Z.div_mod_to_equations; lia ]).
Qed.

Lemma putSignedInt_value b i k :
  1 <= k <= 4 -> fits_bytes i k ->
  exists bs,
    Buffer.putSignedInt b i (8 * k) = Ok (Buffer.putBytes b bs) /\
    jslength bs = k /\ Forall is_byte bs /\
    be_value bs = i mod 2 ^ (8 * k).
Proof.
  intros Hk Hfit. unfold Buffer.putSignedInt.
  destruct (putInt_value b (if i <? 0 then i + JS.shl 2 (8 * k - 1) else i) k Hk)
    as (bs & Hput & Hlen & Hbytes & Hval).
  exists bs. repeat split; try assumption.
  rewrite Hval. clear Hput Hval.
  assert (Hcases : k = 1 \/ k = 2 \/ k = 3 \/ k = 4) by lia.
  unfold fits_bytes in Hfit.
  destruct Hcases as [-> | [-> | [-> | ->]]];
    cbn [Z.mul Pos.mul Z.sub Z.add Z.opp Z.pos_sub Z.succ_double
         Z.pred_double Z.double Pos.pred_double] in *;
    [ change (JS.shl 2 7) with 256; change (2 ^ 7) with 128 in Hfit;
      change (2 ^ 8) with 256
    | change (JS.shl 2 15) with 65536; change (2 ^ 15) with 32768 in Hfit;
      change (2 ^ 16) with 65536
    | change (JS.shl 2 23) with 16777216; change (2 ^ 23) with 8388608 in Hfit;
      change (2 ^ 24) with 16777216
    | change (JS.shl 2 31) with 0; change (2 ^ 31) with 2147483648 in Hfit;
      change (2 ^ 32) with 4294967296 ];
    (destruct (Z.ltb_spec i 0);
     rewrite ToInt32_small by (change (2 ^ 31) with 2147483648; lia);
     Z.div_mod_to_equations; lia).
Qed.

Lemma getSignedInt_value b bs suf k :
  cursor_ok b -> unread b = bs ++ suf -> Forall is_byte bs ->
  jslength bs = k -> 1 <= k <= 4 ->
  Buffer.getSignedInt b (8 * k) = Ok (signed_be_value bs, advance b k).
Proof.
  intros Hc Hu HF Hl Hk. unfold Buffer.getSignedInt.
  rewrite (getInt_value b bs suf k Hc Hu HF Hl Hk). cbn [bind].
  f_equal. f_equal. unfold signed_be_value. rewrite Hl.
  pose proof (be_value_bound bs HF) as Hb. rewrite Hl in Hb.
  assert (Hcases : k = 1 \/ k = 2 \/ k = 3 \/ k = 4) by lia.
  destruct Hcases as [-> | [-> | [-> | ->]]];
    cbn [Z.mul Pos.mul Z.sub Z.add Z.opp Z.pos_sub Z.succ_double
         Z.pred_double Z.double Pos.pred_double] in *;
    [ change (JS.shl 2 6) with 128; change (JS.shl 128 1) with 256;
      change (2 ^ 7) with 128; change (2 ^ 8) with 256;
      change (256 ^ 1) with 256 in Hb
    | change (JS.shl 2 14) with 32768; change (JS.shl 32768 1) with 65536;
      change (2 ^ 15) with 32768; change (2 ^ 16) with 65536;
      change (256 ^ 2) with 65536 in Hb
    | change (JS.shl 2 22) with 8388608; change (JS.shl 8388608 1) with 16777216;
      change (2 ^ 23) with 8388608; change (2 ^ 24) with 16777216;
      change (256 ^ 3) with 16777216 in Hb
    | change (JS.shl 2 30) with (-2147483648);
      change (JS.shl (-2147483648) 1) with 0;
      change (2 ^ 31) with 2147483648; change (2 ^ 32) with 4294967296;
      change (256 ^ 4) with 4294967296 in Hb ];
    [ rewrite ToInt32_small by (change (2 ^ 31) with 2147483648; lia);
      reflexivity ..
    | pose proof (ToInt32_range (be_value bs)) as Hr;
      change (2 ^ 31) with 2147483648 in Hr;
      destruct (Z.geb_spec (JS.ToInt32 (be_value bs)) (-2147483648)); [|lia];
      unfold JS.ToInt32; change (2 ^ 31) with 2147483648;
      change (2 ^ 32) with 4294967296;
      destruct (Z.geb_spec (be_value bs) 2147483648);
      Z.div_mod_to_equations; lia ].
Qed.

Lemma signed_of_mod i bs k :
  1 <= k -> fits_bytes i k -> jslength bs = k ->
  be_value bs = i mod 2 ^ (8 * k) -> signed_be_value bs = i.
Proof.
  intros Hk Hfit Hl Hv. unfold signed_be_value, fits_bytes in *.
  rewrite Hl, Hv.
  assert (Hp : 2 ^ (8 * k) = 2 * 2 ^ (8 * k - 1)).
  { rewrite <- Z.pow_succ_r by lia. f_equal. lia. }
  assert (0 < 2 ^ (8 * k - 1)) by (apply Z.pow_pos_nonneg; lia).
  destruct (Z.geb_spec (i mod 2 ^ (8 * k)) (2 ^ (8 * k - 1))) as [G|G];
    rewrite Hp in *.
  - destruct (Z.lt_ge_cases i 0).
    + rewrite <- (Z.mod_unique i (2 * 2 ^ (8 * k - 1)) (-1) (i + 2 * 2 ^ (8 * k - 1)));
        lia.
    + rewrite Z.mod_small in G by lia. lia.
  - destruct (Z.lt_ge_cases i 0).
    + rewrite <- (Z.mod_unique i (2 * 2 ^ (8 * k - 1)) (-1) (i + 2 * 2 ^ (8 * k - 1))) in G;
        lia.
    + apply Z.mod_small. lia.
Qed.

Lemma unread_fresh bs :
  cursor_ok (mkBuffer bs 0) /\ unread (mkBuffer bs 0) = bs ++ [].
Proof.
  unfold cursor_ok, unread. cbn [data read Z.to_nat skipn].
  pose proof (jslength_nonneg bs). rewrite app_nil_r. split; [lia|reflexivity].
Qed.

Lemma in_range_dec x a b :
  ((x >=? a) && (x <? b) = true /\ a <= x < b) \/
  ((x >=? a) && (x <? b) = false /\ ~ a <= x < b).
Proof.
  destruct (Z.geb_spec x a), (Z.ltb_spec x b); cbn [andb];
    [left | right | right | right]; split; (reflexivity || lia).
Qed.

Lemma width_cases n :
  In n [8; 16; 24; 32] -> exists k, n = 8 * k /\ 1 <= k <= 4 /\ n / 8 = k.
Proof.
  cbn [In]. intros [<- | [<- | [<- | [<- | []]]]];
    [exists 1 | exists 2 | exists 3 | exists 4]; repeat split; lia.
Qed.

(** ** Claims about the buffer primitives *)

(** C10. For every width [n] in {8, 16, 24, 32} and every integer [i] with
    [-2^(n-1) <= i < 2^(n-1)], writing [i] with [putSignedInt(i, n)] into a
    fresh buffer and reading it back with [getSignedInt(n)] returns exactly
    [i] (and consumes the [n/8] bytes written). *)
Theorem putSignedInt_getSignedInt_roundtrip (n i : Z) :
  In n [8; 16; 24; 32] ->
  - 2 ^ (n - 1) <= i < 2 ^ (n - 1) ->
  exists b,
    Buffer.putSignedInt (createBuffer None) i n = Ok b /\
    Buffer.getSignedInt b n = Ok (i, advance b (n / 8)).
Proof.
  intros Hn Hi. destruct (width_cases n Hn) as (k & -> & Hk & Hdiv).
  rewrite Hdiv.
  assert (Hfit : fits_bytes i k) by exact Hi.
  destruct (putSignedInt_value (createBuffer None) i k Hk Hfit)
    as (bs & Hput & Hlen & Hbytes & Hval).
  exists (mkBuffer bs 0). split; [exact Hput|].
  destruct (unread_fresh bs) as [Hc Hu].
  rewrite (getSignedInt_value _ bs [] k Hc Hu Hbytes Hlen Hk).
  now rewrite (signed_of_mod i bs k ltac:(lia) Hfit Hlen Hval).
Qed.

Lemma putSignedInt_getSignedInt_roundtrip_witness :
  exists b,
    Buffer.putSignedInt (createBuffer None) (-129) 16 = Ok b /\
    Buffer.getSignedInt b 16 = Ok (-129, advance b (16 / 8)).
Proof.
  apply (putSignedInt_getSignedInt_roundtrip 16 (-129)).
  - cbn [In]. right. left. reflexivity.
  - lia.
Defined.

(** C7, as stated (bias [2^(n-1)]), fails: [putSignedInt(-1, 8)] writes the
    single byte 255, which is [-1 + 2^8], not [-1 + 2^7 = 127]. *)
Lemma putSignedInt_half_bias_counterexample :
  Buffer.putSignedInt (createBuffer None) (-1) 8 = Ok (mkBuffer [255] 0) /\
  be_value [255] <> -1 + 2 ^ (8 - 1).
Proof. split; [reflexivity | vm_compute; lia]. Qed.

(** C7, amended. For every width [n] in {8, 16, 24, 32} and every negative
    [i] representable in [n]-bit two's complement, [putSignedInt(i, n)]
    writes [n/8] bytes whose big-endian unsigned value is [i + 2^n] (the
    bias is [2^n], the value of [2 << (n - 1)] for [n < 32]); symmetrically
    [getSignedInt(n)] returns the raw unsigned value [u] of the next [n/8]
    bytes when [u < 2^(n-1)] and [u - 2^n] when [u >= 2^(n-1)]. *)
Theorem putSignedInt_bias_getSignedInt_unbias :
  (forall n i,
      In n [8; 16; 24; 32] -> - 2 ^ (n - 1) <= i < 0 ->
      exists bs,
        Buffer.putSignedInt (createBuffer None) i n = Ok (mkBuffer bs 0) /\
        jslength bs = n / 8 /\ Forall is_byte bs /\
        be_value bs = i + 2 ^ n) /\
  (forall n b bs suf,
      In n [8; 16; 24; 32] ->
      cursor_ok b -> unread b = bs ++ suf ->
      Forall is_byte bs -> jslength bs = n / 8 ->
      Buffer.getSignedInt b n =
        Ok ((if be_value bs >=? 2 ^ (n - 1)
             then be_value bs - 2 ^ n else be_value bs),
            advance b (n / 8))).
Proof.
  split.
  - intros n i Hn Hi. destruct (width_cases n Hn) as (k & -> & Hk & Hdiv).
    rewrite Hdiv.
    assert (Hpos : 0 < 2 ^ (8 * k - 1)) by (apply Z.pow_pos_nonneg; lia).
    assert (Hfit : fits_bytes i k) by (unfold fits_bytes; lia).
    destruct (putSignedInt_value (createBuffer None) i k Hk Hfit)
      as (bs & Hput & Hlen & Hbytes & Hval).
    exists bs. repeat split; try assumption.
    rewrite Hval.
    assert (Hp : 2 ^ (8 * k) = 2 * 2 ^ (8 * k - 1)).
    { rewrite <- Z.pow_succ_r by lia. f_equal. lia. }
    symmetry. apply (Z.mod_unique i (2 ^ (8 * k)) (-1)); lia.
  - intros n b bs suf Hn Hc Hu HF Hl.
    destruct (width_cases n Hn) as (k & -> & Hk & Hdiv).
    rewrite Hdiv in *.
    rewrite (getSignedInt_value b bs suf k Hc Hu HF Hl Hk).
    unfold signed_be_value. now rewrite Hl.
Qed.

Lemma putSignedInt_bias_getSignedInt_unbias_witness :
  (exists bs,
      Buffer.putSignedInt (createBuffer None) (-129) 16 = Ok (mkBuffer bs 0) /\
      jslength bs = 16 / 8 /\ Forall is_byte bs /\
      be_value bs = -129 + 2 ^ 16) /\
  Buffer.getSignedInt (mkBuffer [255; 127] 0) 16 =
    Ok ((if be_value [255; 127] >=? 2 ^ (16 - 1)
         then be_value [255; 127] - 2 ^ 16 else be_value [255; 127]),
        advance (mkBuffer [255; 127] 0) (16 / 8)).
Proof.
  destruct putSignedInt_bias_getSignedInt_unbias as [Hput Hget]. split.
  - apply (Hput 16 (-129)).
    + cbn [In]. right. left. reflexivity.
    + lia.
  - apply (Hget 16 (mkBuffer [255; 127] 0) [255; 127] []).
    + cbn [In]. right. left. reflexivity.
    + unfold cursor_ok. cbn. lia.
    + reflexivity.
    + repeat (apply Forall_cons; [unfold is_byte; lia|]). apply Forall_nil.
    + reflexivity.
Defined.

(** C8. On a fresh buffer [putInt32(0xDEADBEEF)] stores the four bytes
    DE AD BE EF, and [getInt32()] then returns the signed 32-bit number
    -559038737, not 3735928559: [<<] and [^] produce signed 32-bit
    results. *)
Theorem getInt32_putInt32_deadbeef :
  Buffer.putInt32 (createBuffer None) 3735928559
    = mkBuffer [222; 173; 190; 239] 0 /\
  Buffer.getInt32 (Buffer.putInt32 (createBuffer None) 3735928559)
    = Ok (-559038737, mkBuffer [222; 173; 190; 239] 4) /\
  -559038737 <> 3735928559 /\
  JS.ToUint32 (-559038737) = 3735928559.
Proof. repeat split; vm_compute; congruence. Qed.

(** C6. [integerToDer(x)] encodes every [x] of the signed 32-bit range in
    two's complement on [k] bytes, where [k] is the least of 1, 2, 3, 4 such
    that [x] fits in [8k] bits; 0, -1, 128 and -129 encode to [00], [FF],
    [00 80] and [FF 7F]; and every [x] outside the signed 32-bit range
    fails with the integer-overflow error that carries [x]. *)
Theorem integerToDer_minimal_width :
  (forall x,
      - 2 ^ 31 <= x < 2 ^ 31 ->
      exists bs,
        integerToDer x = Ok (mkBuffer bs 0) /\
        Forall is_byte bs /\
        signed_be_value bs = x /\
        1 <= jslength bs <= 4 /\
        fits_bytes x (jslength bs) /\
        (forall k, 1 <= k -> fits_bytes x k -> jslength bs <= k)) /\
  integerToDer 0 = Ok (mkBuffer [0] 0) /\
  integerToDer (-1) = Ok (mkBuffer [255] 0) /\
  integerToDer 128 = Ok (mkBuffer [0; 128] 0) /\
  integerToDer (-129) = Ok (mkBuffer [255; 127] 0) /\
  (forall x,
      ~ (- 2 ^ 31 <= x < 2 ^ 31) ->
      integerToDer x = Throw (IntegerTooLargeError x)).
Proof.
  split; [|repeat split; try reflexivity].
  - intros x Hx. change (2 ^ 31) with 2147483648 in Hx.
    assert (Hmono : forall k, 1 <= k -> 2 ^ 7 <= 2 ^ (8 * k - 1) /\
                    (2 <= k -> 2 ^ 15 <= 2 ^ (8 * k - 1)) /\
                    (3 <= k -> 2 ^ 23 <= 2 ^ (8 * k - 1)) /\
                    (4 <= k -> 2 ^ 31 <= 2 ^ (8 * k - 1))).
    { intros k Hk. repeat split; intros; apply Z.pow_le_mono_r; lia. }
    assert (Hsel : exists k,
               1 <= k <= 4 /\ fits_bytes x k /\
               (k = 1 \/ ~ fits_bytes x (k - 1)) /\
               integerToDer x = Buffer.putSignedInt (createBuffer None) x (8 * k)).
    { unfold integerToDer, fits_bytes.
      destruct (in_range_dec x (-128) 128) as [[-> R]|[-> R]];
        [exists 1; cbn; repeat split; auto; lia|].
      destruct (in_range_dec x (-32768) 32768) as [[-> R2]|[-> R2]];
        [exists 2; cbn; repeat split; auto; lia|].
      destruct (in_range_dec x (-8388608) 8388608) as [[-> R3]|[-> R3]];
        [exists 3; cbn; repeat split; auto; lia|].
      destruct (in_range_dec x (-2147483648) 2147483648) as [[-> R4]|[-> R4]];
        [exists 4; cbn; repeat split; auto; lia|lia]. }
    destruct Hsel as (k & Hk & Hfit & Hleast & ->).
    destruct (putSignedInt_value (createBuffer None) x k Hk Hfit)
      as (bs & Hput & Hlen & Hbytes & Hval).
    exists bs. split; [exact Hput|]. split; [exact Hbytes|].
    split; [eapply signed_of_mod; eauto; lia|].
    rewrite Hlen. split; [lia|]. split; [exact Hfit|].
    intros k' Hk' Hfit'. unfold fits_bytes in *.
    destruct (Hmono k' Hk') as (M1 & M2 & M3 & M4).
    destruct (Z.le_gt_cases k k') as [|Hlt]; [assumption|exfalso].
    destruct Hleast as [->|Hn]; [lia|]. apply Hn.
    assert (2 ^ (8 * k' - 1) <= 2 ^ (8 * (k - 1) - 1))
      by (apply Z.pow_le_mono_r; lia).
    lia.
  - intros x Hx. change (2 ^ 31) with 2147483648 in Hx.
    unfold integerToDer.
    destruct (in_range_dec x (-128) 128) as [[-> R]|[-> R]]; [lia|].
    destruct (in_range_dec x (-32768) 32768) as [[-> R2]|[-> R2]]; [lia|].
    destruct (in_range_dec x (-8388608) 8388608) as [[-> R3]|[-> R3]]; [lia|].
    destruct (in_range_dec x (-2147483648) 2147483648) as [[-> R4]|[-> R4]]; [lia|].
    reflexivity.
Qed.

Lemma integerToDer_minimal_width_witness :
  (exists bs,
      integerToDer 70000 = Ok (mkBuffer bs 0) /\
      Forall is_byte bs /\
      signed_be_value bs = 70000 /\
      1 <= jslength bs <= 4 /\
      fits_bytes 70000 (jslength bs) /\
      (forall k, 1 <= k -> fits_bytes 70000 k -> jslength bs <= k)) /\
  integerToDer (2 ^ 31) = Throw (IntegerTooLargeError (2 ^ 31)).
Proof.
  destruct integerToDer_minimal_width as (Hin & _ & _ & _ & _ & Hout). split.
  - apply (Hin 70000). lia.
  - apply (Hout (2 ^ 31)). lia.
Defined.


(** ** Induction on nodes *)

Lemma Asn1_induction (P : Asn1 -> Prop) :
  (forall tagClass type constructed composed value bitStringContents original,
      match value with
      | VArray l => Forall P l
      | VString _ => True
      end ->
      match original with
      | Some o => P o
      | None => True
      end ->
      P (mkAsn1 tagClass type constructed composed value bitStringContents
                original)) ->
  forall o, P o.
Proof.
  intros H. fix IH 1. intros [tc ty c cp v bsc orig]. apply H.
  - destruct v as [s|l]; [exact I|].
    induction l as [|x l IHl]; constructor; [apply IH | exact IHl].
  - destruct orig as [o|]; [apply IH | exact I].
Qed.

(** ** Taking results apart *)

Lemma bind_Ok {A B} (m : Result A) (k : A -> Result B) (r : B) :
  bind m k = Ok r -> exists a, m = Ok a /\ k a = Ok r.
Proof. destruct m; cbn; intros H; try discriminate. eauto. Qed.

Ltac invert_bind H :=
  let a := fresh "a" in
  let E := fresh "E" in
  apply bind_Ok in H; destruct H as (a & E & H).

Lemma _checkBufferLength_Ok bytes remaining n u :
  _checkBufferLength bytes remaining n = Ok u -> n <= remaining.
Proof.
  unfold _checkBufferLength. destruct (Z.gtb_spec n remaining); [discriminate|lia].
Qed.

Lemma getByte_Ok b c b' :
  Buffer.getByte b = Ok (c, b') ->
  charCodeAt (data b) (read b) = Some c /\ b' = advance b 1.
Proof.
  unfold Buffer.getByte. destruct (charCodeAt (data b) (read b)); [|discriminate].
  intros H. injection H as -> <-. split; reflexivity.
Qed.

(** ** Reads that stay inside the data *)

Lemma charCodeAt_inside s i :
  0 <= i < jslength s -> exists c, charCodeAt s i = Some c.
Proof.
  intros H. unfold charCodeAt. destruct (Z.ltb_spec i 0); [lia|].
  destruct (nth_error s (Z.to_nat i)) eqn:E; [eauto|].
  apply nth_error_None in E. unfold jslength in H. lia.
Qed.

Lemma getByte_inside b :
  cursor_ok b -> 1 <= Buffer.length b ->
  exists c, Buffer.getByte b = Ok (c, advance b 1).
Proof.
  unfold cursor_ok, Buffer.length, Buffer.getByte. intros Hc Hl.
  destruct (charCodeAt_inside (data b) (read b)) as [c ->]; [lia|]. eauto.
Qed.

Lemma cursor_ok_advance b k :
  cursor_ok b -> 0 <= k <= Buffer.length b -> cursor_ok (advance b k).
Proof. unfold cursor_ok, Buffer.length, advance. cbn [data read]. lia. Qed.

Lemma length_advance b k : Buffer.length (advance b k) = Buffer.length b - k.
Proof. unfold Buffer.length, advance. cbn [data read]. lia. Qed.

Lemma getInt16_inside b :
  cursor_ok b -> 2 <= Buffer.length b ->
  exists c, Buffer.getInt16 b = Ok (c, advance b 2).
Proof.
  unfold cursor_ok, Buffer.length, Buffer.getInt16, Buffer.codeAt. intros Hc Hl.
  destruct (charCodeAt_inside (data b) (read b)) as [c0 ->]; [lia|].
  destruct (charCodeAt_inside (data b) (read b + 1)) as [c1 ->]; [lia|].
  cbn [bind]. eauto.
Qed.

Lemma getInt_loop_inside fuel : forall b rval k,
  cursor_ok b -> 1 <= k -> k <= Buffer.length b -> k <= Z.of_nat fuel ->
  exists v, Buffer.getInt_loop fuel b rval (8 * k) = Ok (v, advance b k).
Proof.
  induction fuel as [|fuel IH]; intros b rval k Hc Hk Hl Hf; [lia|].
  cbn [Buffer.getInt_loop].
  destruct (getByte_inside b Hc ltac:(lia)) as [c ->]. cbn [bind].
  destruct (Z.gtb_spec (8 * k - 8) 0) as [G|G].
  - replace (8 * k - 8) with (8 * (k - 1)) by lia.
    destruct (IH (advance b 1) (JS.shl rval 8 + c) (k - 1)) as [v Hv].
    + apply cursor_ok_advance; [assumption|lia].
    + lia.
    + rewrite length_advance. lia.
    + lia.
    + rewrite Hv, advance_advance. replace (1 + (k - 1)) with k by lia. eauto.
  - assert (k = 1) by lia. subst k. eauto.
Qed.

Lemma band_127_range x : 0 <= JS.band x 127 <= 127.
Proof.
  unfold JS.band. rewrite (ToInt32_small 127) by lia.
  change 127 with (Z.ones 7). rewrite Z.land_ones by lia.
  pose proof (Z.mod_pos_bound (JS.ToInt32 x) (2 ^ 7) ltac:(lia)).
  change (2 ^ 7) with 128 in *. change (Z.ones 7) with 127. lia.
Qed.

Lemma shl_3_small x : 0 <= x <= 127 -> JS.shl x 3 = 8 * x.
Proof.
  intros H. rewrite shl_mul by lia.
  rewrite (ToInt32_small x) by lia. change (2 ^ 3) with 8.
  rewrite ToInt32_small by lia. lia.
Qed.

Lemma getInt_inside b k :
  cursor_ok b -> 0 <= k <= 127 -> k <= Buffer.length b ->
  match Buffer.getInt b (8 * k) with
  | Ok (v, b') => 1 <= k <= 4 /\ b' = advance b k
  | Throw _ => True
  | Undef _ => False
  end.
Proof.
  intros Hc Hk Hl. unfold Buffer.getInt, _checkBitsParam.
  destruct (Z.eqb_spec (8 * k) 8); [|destruct (Z.eqb_spec (8 * k) 16);
    [|destruct (Z.eqb_spec (8 * k) 24); [|destruct (Z.eqb_spec (8 * k) 32)]]];
    cbn [orb negb bind]; try exact I;
    (destruct (getInt_loop_inside 4 b 0 k) as [v ->]; [assumption|lia..|];
     split; [lia|reflexivity]).
Qed.

(** What [_getValueLength] may do: it throws, or it consumes between 1 and
    [remaining] bytes and returns no length or a non-negative one. *)
Lemma _getValueLength_inside b remaining :
  cursor_ok b -> 1 <= remaining <= Buffer.length b ->
  match _getValueLength b remaining with
  | Ok (len, b') =>
      exists k, 1 <= k <= remaining /\ b' = advance b k /\
                match len with
                | Some l => 0 <= l
                | None => True
                end
  | Throw _ => True
  | Undef _ => False
  end.
Proof.
  intros Hc Hr. unfold _getValueLength.
  destruct (getByte_inside b Hc ltac:(lia)) as [b2 ->]. cbn [bind].
  destruct (Z.eqb_spec b2 128); [exists 1; repeat split; lia|].
  destruct (Z.eqb_spec (JS.band b2 128) 0) as [E|E]; cbn [bind].
  - destruct (Z.ltb_spec b2 0); [exact I|]. exists 1. repeat split; lia.
  - unfold _checkBufferLength.
    destruct (Z.gtb_spec (JS.band b2 127) (remaining - 1)); cbn [bind]; [exact I|].
    pose proof (band_127_range b2) as Hb.
    rewrite shl_3_small by assumption.
    pose proof (getInt_inside (advance b 1) (JS.band b2 127)
                  (cursor_ok_advance b 1 Hc ltac:(lia)) Hb) as Hg.
    rewrite length_advance in Hg. specialize (Hg ltac:(lia)).
    destruct (Buffer.getInt (advance b 1) (8 * JS.band b2 127)) as [[v b']| |];
      cbn [bind]; try assumption.
    destruct Hg as [Hk ->].
    destruct (Z.ltb_spec v 0); [exact I|].
    exists (1 + JS.band b2 127). rewrite advance_advance. repeat split; lia.
Qed.

(** ** The invariant of the data model *)

Lemma composed_ok_copy options : forall o,
  composed_ok o = true -> composed_ok (copy o options) = true.
Proof.
  induction o as [tc ty c cp v bsc orig IHv _] using Asn1_induction.
  cbn [copy composed_ok]. intros H.
  apply andb_prop in H. destruct H as [H _].
  apply andb_prop in H. destruct H as [Hcp Hv].
  rewrite andb_true_r. apply andb_true_intro. split.
  - destruct v; exact Hcp.
  - destruct v as [s|l]; [reflexivity|].
    rewrite forallb_forall in *. intros x Hx.
    apply in_map_iff in Hx. destruct Hx as (y & <- & Hy).
    rewrite Forall_forall in IHv. apply IHv; [exact Hy|]. now apply Hv.
Qed.

Lemma composed_ok_create tagClass type constructed value options :
  match value with
  | VArray l => forallb composed_ok l = true
  | VString _ => True
  end ->
  composed_ok (create tagClass type constructed value options) = true.
Proof.
  intros Hv.
  assert (Hplain : forall bsc,
             composed_ok (mkAsn1 tagClass type constructed
                            (constructed || isArray value) value bsc None) = true).
  { intros bsc. cbn [composed_ok]. rewrite eqb_reflx, andb_true_r.
    destruct value; [reflexivity | exact Hv]. }
  unfold create. destruct options as [[|b]|]; try apply Hplain.
  specialize (Hplain (Present b)).
  pose proof (composed_ok_copy None _ Hplain) as Hcopy.
  cbn [composed_ok] in *. rewrite Hcopy. rewrite andb_true_r in *. exact Hplain.
Qed.

(** ** The parser stays inside its budget and is defined *)

Lemma mkBuffer_eta b : mkBuffer (data b) (read b) = b.
Proof. destruct b; reflexivity. Qed.

(** The loops and the speculative decoding, for any nested parser that
    satisfies [parse_post] on budgets below [n]. *)
Section NestedParser.

Variable n : Z.
Variable parse : Parser.
Hypothesis Hp : parser_ok n parse.

Lemma definite_loop_ok :
  forall fuel b remaining len acc,
    cursor_ok b -> len <= Buffer.length b -> len < n ->
    len <= Z.of_nat fuel ->
    forallb composed_ok acc = true ->
    match definite_loop fuel parse b remaining len acc with
    | Ok (l, b', _, _) =>
        data b' = data b /\ read b <= read b' /\
        read b' <= read b + Z.max len 0 /\
        forallb composed_ok l = true
    | Throw _ => True
    | Undef _ => False
    end.
Proof.
  induction fuel as [|fuel IH]; intros b rem len acc Hc Hl Hn Hf Hacc.
  - cbn [definite_loop]. destruct (Z.gtb_spec len 0); [lia|].
    repeat split; try lia; assumption.
  - cbn [definite_loop]. destruct (Z.gtb_spec len 0) as [G|G];
      [|repeat split; try lia; assumption].
    pose proof (Hp b len Hc ltac:(lia) Hn) as Hpost. unfold parse_post in Hpost.
    destruct (parse b len) as [[child b1]| |]; cbn [bind]; try assumption.
    destruct Hpost as (Hd & Hr & Hok).
    assert (Hused : Buffer.length b - Buffer.length b1 = read b1 - read b)
      by (unfold Buffer.length; rewrite Hd; lia).
    rewrite Hused.
    assert (Hc1 : cursor_ok b1).
    { unfold cursor_ok, Buffer.length in *. rewrite Hd. lia. }
    assert (Hl1 : len - (read b1 - read b) <= Buffer.length b1)
      by (unfold Buffer.length in *; rewrite Hd; lia).
    assert (Hacc1 : forallb composed_ok (acc ++ [child]) = true)
      by (rewrite forallb_app, Hacc; cbn [forallb]; now rewrite Hok).
    specialize (IH b1 (rem - (read b1 - read b)) (len - (read b1 - read b))
                  (acc ++ [child]) Hc1 Hl1 ltac:(lia) ltac:(lia) Hacc1).
    destruct (definite_loop fuel parse b1 _ _ _) as [[[[l b2] r2] l2]| |];
      try assumption.
    destruct IH as (Hd2 & Hr2 & Hr3 & Hok2).
    repeat split; try congruence; lia.
Qed.

Lemma getBytes_2 b :
  2 <= Buffer.length b -> snd (Buffer.getBytes b (Some 2)) = advance b 2.
Proof.
  intros H. unfold Buffer.getBytes. cbn [Z.eqb negb snd].
  rewrite Z.min_r by lia. reflexivity.
Qed.

Lemma indefinite_loop_ok :
  forall fuel b remaining acc,
    cursor_ok b -> 0 <= remaining <= Buffer.length b -> remaining < n ->
    remaining < Z.of_nat fuel ->
    forallb composed_ok acc = true ->
    match indefinite_loop fuel parse b remaining acc with
    | Ok (l, b', _) =>
        data b' = data b /\ read b <= read b' <= read b + remaining /\
        forallb composed_ok l = true
    | Throw _ => True
    | Undef _ => False
    end.
Proof.
  induction fuel as [|fuel IH]; intros b rem acc Hc Hl Hn Hf Hacc;
    [lia|].
  cbn [indefinite_loop]. unfold _checkBufferLength.
  destruct (Z.gtb_spec 2 rem) as [G|G]; cbn [bind]; [exact I|].
  destruct (jsstring_eqb (Buffer.bytes b (Some 2)) [0; 0]).
  - rewrite getBytes_2 by lia. unfold advance. cbn [data read].
    repeat split; try lia; assumption.
  - pose proof (Hp b rem Hc ltac:(lia) Hn) as Hpost. unfold parse_post in Hpost.
    destruct (parse b rem) as [[child b1]| |]; cbn [bind]; try assumption.
    destruct Hpost as (Hd & Hr & Hok).
    assert (Hused : Buffer.length b - Buffer.length b1 = read b1 - read b)
      by (unfold Buffer.length; rewrite Hd; lia).
    rewrite Hused.
    assert (Hc1 : cursor_ok b1).
    { unfold cursor_ok, Buffer.length in *. rewrite Hd. lia. }
    assert (Hl1 : 0 <= rem - (read b1 - read b) <= Buffer.length b1)
      by (unfold Buffer.length in *; rewrite Hd; lia).
    assert (Hacc1 : forallb composed_ok (acc ++ [child]) = true)
      by (rewrite forallb_app, Hacc; cbn [forallb]; now rewrite Hok).
    specialize (IH b1 (rem - (read b1 - read b)) (acc ++ [child]) Hc1 Hl1
                  ltac:(lia) ltac:(lia) Hacc1).
    destruct (indefinite_loop fuel parse b1 _ _) as [[[l b2] r2]| |];
      try assumption.
    destruct IH as (Hd2 & Hr2 & Hok2).
    repeat split; try congruence; lia.
Qed.

Lemma bmp_loop_ok : forall fuel b remaining len acc,
  cursor_ok b -> 0 <= remaining <= Buffer.length b ->
  len <= Z.of_nat fuel ->
  match bmp_loop fuel b remaining len acc with
  | Ok (_, b', _) =>
      data b' = data b /\ read b <= read b' <= read b + remaining
  | Throw _ => True
  | Undef _ => False
  end.
Proof.
  induction fuel as [|fuel IH]; intros b rem len acc Hc Hl Hf.
  - cbn [bmp_loop]. destruct (Z.gtb_spec len 0); [lia|]. split; [reflexivity|lia].
  - cbn [bmp_loop]. destruct (Z.gtb_spec len 0) as [G|G];
      [|split; [reflexivity|lia]].
    unfold _checkBufferLength.
    destruct (Z.gtb_spec 2 rem) as [G2|G2]; cbn [bind]; [exact I|].
    destruct (getInt16_inside b Hc ltac:(lia)) as [c ->]. cbn [bind].
    specialize (IH (advance b 2) (rem - 2) (len - 2) (acc ++ fromCharCode c)
                  (cursor_ok_advance b 2 Hc ltac:(lia))).
    rewrite length_advance in IH. specialize (IH ltac:(lia) ltac:(lia)).
    destruct (bmp_loop fuel (advance b 2) _ _ _) as [[[s b'] r']| |];
      try assumption.
    unfold advance in IH. cbn [data read] in IH. destruct IH as [Hd Hr].
    split; [assumption|lia].
Qed.

Lemma parse_children_ok fuel b remaining len :
  cursor_ok b -> 0 <= remaining <= Buffer.length b -> remaining < n ->
  remaining < Z.of_nat fuel ->
  match len with
  | Some l => 0 <= l <= remaining
  | None => True
  end ->
  match parse_children fuel parse b remaining len with
  | Ok (l, b', _) =>
      data b' = data b /\ read b <= read b' <= read b + remaining /\
      forallb composed_ok l = true
  | Throw _ => True
  | Undef _ => False
  end.
Proof.
  intros Hc Hr Hn Hf Hlen. unfold parse_children. destruct len as [l|].
  - pose proof (definite_loop_ok fuel b remaining l [] Hc
                  ltac:(lia) ltac:(lia) ltac:(lia) eq_refl) as H.
    destruct (definite_loop fuel parse b remaining l [])
      as [[[[l' b'] r'] l2]| |]; cbn [bind]; try assumption.
    destruct H as (Hd & H1 & H2 & Hok). repeat split; try assumption; lia.
  - apply (indefinite_loop_ok fuel b remaining [] Hc Hr Hn Hf eq_refl).
Qed.

Lemma getBytes_inside b len :
  cursor_ok b -> 0 <= len <= Buffer.length b ->
  Buffer.getBytes b (Some len) = (Buffer.bytes b (Some len), advance b len).
Proof.
  intros Hc Hl. unfold Buffer.getBytes, Buffer.bytes.
  destruct (Z.eqb_spec len 0) as [->|E]; cbn [negb].
  - rewrite advance_0. f_equal. unfold slice.
    replace (read b + 0) with (read b) by lia.
    destruct (read b <? 0); now rewrite Z.sub_diag.
  - rewrite Z.min_r by lia. reflexivity.
Qed.

Lemma read_raw_value_ok options type b remaining len :
  cursor_ok b -> 0 <= remaining <= Buffer.length b ->
  match len with
  | Some l => 0 <= l <= remaining
  | None => True
  end ->
  match read_raw_value options type b remaining len with
  | Ok (_, b', _) =>
      data b' = data b /\ read b <= read b' <= read b + remaining
  | Throw _ => True
  | Undef _ => False
  end.
Proof.
  intros Hc Hr Hlen. unfold read_raw_value.
  assert (Hgen : forall l, 0 <= l <= remaining ->
    match
      (if type =? Asn1Type.BMPSTRING
       then bmp_loop (Z.to_nat l) b remaining l []
       else let '(s, bytes) := Buffer.getBytes b (Some l) in
            Ok (s, bytes, remaining - l))
    with
    | Ok (_, b', _) => data b' = data b /\ read b <= read b' <= read b + remaining
    | Throw _ => True
    | Undef _ => False
    end).
  { intros l Hl. destruct (type =? Asn1Type.BMPSTRING).
    - apply bmp_loop_ok; [assumption|lia|lia].
    - rewrite getBytes_inside by (assumption || lia).
      unfold advance. cbn [data read]. split; [reflexivity|lia]. }
  destruct len as [l|]; cbn [bind]; [apply Hgen; assumption|].
  destruct (strict options); cbn [bind]; [exact I|]. apply Hgen. lia.
Qed.

(** What the speculative decoding of a BIT STRING may do: it never fails;
    it either leaves cursor and remaining count as they were, or yields a
    one-element list and a cursor exactly past the declared length. *)
Lemma decode_bit_string_ok b remaining len :
  cursor_ok b -> 1 < len -> len <= remaining -> remaining <= Buffer.length b ->
  remaining - 1 < n ->
  match decode_bit_string parse b remaining len Asn1Type.BITSTRING with
  | Ok (None, b', remaining') => b' = b /\ remaining' = remaining
  | Ok (Some v, b', _) =>
      data b' = data b /\ read b' = read b + len /\
      exists c, v = VArray [c] /\ composed_ok c = true
  | Throw _ => False
  | Undef _ => False
  end.
Proof.
  intros Hc Hlen Hlr Hr Hn. unfold decode_bit_string.
  change (Asn1Type.BITSTRING =? Asn1Type.BITSTRING) with true. cbv iota.
  unfold _checkBufferLength.
  destruct (Z.gtb_spec 1 remaining); [lia|]. cbn [bind].
  destruct (getByte_inside b Hc ltac:(lia)) as [unused ->]. cbn [bind].
  assert (Hrestore : mkBuffer (data (advance b 1)) (read b) = b)
    by exact (mkBuffer_eta b).
  destruct (unused =? 0); cbn [bind];
    [|rewrite Hrestore; split; reflexivity].
  pose proof (Hp (advance b 1) (remaining - 1)
                (cursor_ok_advance b 1 Hc ltac:(lia))) as Hpost.
  rewrite length_advance in Hpost. specialize (Hpost ltac:(lia) Hn).
  unfold parse_post in Hpost.
  destruct (parse (advance b 1) (remaining - 1)) as [[c b']| |]; cbn [bind];
    [| rewrite Hrestore; split; reflexivity | assumption].
  destruct Hpost as (Hd & Hpos & Hok). cbn [data read advance] in Hd, Hpos.
  assert (Hused : Buffer.length b - 1 - Buffer.length b' = read b' - read b - 1)
    by (unfold Buffer.length; rewrite Hd; lia).
  rewrite ?length_advance, Hused.
  destruct (Z.eqb_spec (read b' - read b - 1 + 1) len) as [E|E]; cbn [andb bind].
  - destruct ((tagClass c =? Class.UNIVERSAL) || (tagClass c =? Class.CONTEXT_SPECIFIC));
      cbn [bind].
    + repeat split; [assumption|lia|]. exists c. split; [reflexivity|assumption].
    + rewrite Hd, mkBuffer_eta. split; reflexivity.
  - rewrite Hd, mkBuffer_eta. split; reflexivity.
Qed.

End NestedParser.

Lemma clamp_length_ok options b remaining len :
  0 <= remaining ->
  match len with
  | Some l => 0 <= l
  | None => True
  end ->
  match clamp_length options b remaining len with
  | Ok (Some l) => 0 <= l <= remaining /\ len <> None
  | Ok None => len = None
  | Throw _ => True
  | Undef _ => False
  end.
Proof.
  intros Hr Hl. unfold clamp_length. destruct len as [l|]; [|reflexivity].
  destruct (Z.gtb_spec l remaining).
  - destruct (strict options); [exact I|]. split; [lia|discriminate].
  - split; [lia|discriminate].
Qed.

(** The parser, given more fuel than bytes it may consume, satisfies
    [parse_post]. *)
Lemma _fromDer_ok fuel : forall options depth,
  parser_ok (Z.of_nat fuel) (_fromDer fuel options depth).
Proof.
  induction fuel as [|fuel IH]; intros options depth b r Hc Hr Hn; [lia|].
  cbn [_fromDer]. unfold _checkBufferLength at 1.
  destruct (Z.gtb_spec 2 r) as [G|G]; cbn [bind]; [exact I|].
  destruct (getByte_inside b Hc ltac:(lia)) as [b1 ->]. cbn [bind].
  pose proof (_getValueLength_inside (advance b 1) (r - 1)
                (cursor_ok_advance b 1 Hc ltac:(lia))) as Hlen.
  rewrite length_advance in Hlen. specialize (Hlen ltac:(lia)).
  destruct (_getValueLength (advance b 1) (r - 1)) as [[len bl]| |];
    cbn [bind]; try assumption.
  destruct Hlen as (k & Hk & -> & Hlen0).
  rewrite advance_advance, !length_advance.
  replace (r - 1 - (Buffer.length b - 1 - (Buffer.length b - (1 + k))))
    with (r - 1 - k) by lia.
  set (b2 := advance b (1 + k)). set (rem := r - 1 - k).
  assert (Hc2 : cursor_ok b2) by (apply cursor_ok_advance; [assumption|lia]).
  assert (Hl2 : Buffer.length b2 = Buffer.length b - (1 + k))
    by apply length_advance.
  assert (Hd2 : data b2 = data b) by reflexivity.
  assert (Hr2 : read b2 = read b + 1 + k) by (unfold b2, advance; cbn [read]; lia).
  pose proof (clamp_length_ok options b2 rem len ltac:(unfold rem; lia) Hlen0)
    as Hclamp.
  destruct (clamp_length options b2 rem len) as [len'| |]; cbn [bind];
    try assumption.
  assert (Hlen' : match len' with Some l => 0 <= l <= rem | None => True end)
    by (destruct len'; [apply Hclamp|exact I]).
  clear Hclamp.
  destruct (JS.band b1 32 =? 32).
  - pose proof (parse_children_ok (Z.of_nat fuel)
                  (_fromDer fuel options (depth + 1))
                  (IH options (depth + 1)) fuel b2 rem len' Hc2
                  ltac:(unfold rem; lia) ltac:(unfold rem; lia)
                  ltac:(unfold rem; lia) Hlen') as Hch.
    destruct (parse_children fuel _ b2 rem len') as [[[l b3] r3]| |];
      cbn [bind]; try assumption.
    destruct Hch as (Hd3 & Hr3 & Hok). unfold parse_post.
    split; [congruence|]. split; [unfold rem in *; lia|].
    now apply composed_ok_create.
  - set (isBitString := (JS.band b1 192 =? Class.UNIVERSAL) &&
                        (JS.band b1 31 =? Asn1Type.BITSTRING)).
    set (asn1Options := if isBitString then _ else _).
    assert (Hraw : forall o,
      match
        ('(s, bytes, _) <- read_raw_value options (JS.band b1 31) b2 rem len' ;;
         Ok (create (JS.band b1 192) (JS.band b1 31) false (VString s) o, bytes))
      with
      | Ok (o, b') => parse_post b r (Ok (o, b'))
      | Throw _ => True
      | Undef _ => False
      end).
    { intros o.
      pose proof (read_raw_value_ok options (JS.band b1 31) b2 rem len' Hc2
                    ltac:(unfold rem; lia) Hlen') as Hraw.
      destruct (read_raw_value options (JS.band b1 31) b2 rem len')
        as [[[s b3] r3]| |]; cbn [bind]; try assumption.
      destruct Hraw as (Hd3 & Hr3). unfold parse_post.
      split; [congruence|]. split; [unfold rem in *; lia|].
      now apply composed_ok_create. }
    assert (Hraw' : forall o,
      parse_post b r
        ('(s, bytes, _) <- read_raw_value options (JS.band b1 31) b2 rem len' ;;
         Ok (create (JS.band b1 192) (JS.band b1 31) false (VString s) o, bytes))).
    { intros o. specialize (Hraw o).
      destruct (bind _ _) as [[o' b']| |]; [assumption|exact I|assumption]. }
    clear Hraw.
    destruct len' as [l|]; [|cbn [bind]; apply Hraw'].
    destruct (decodeBitStrings options && isBitString && (l >? 1)) eqn:Hcond;
      [|cbn [bind]; apply Hraw'].
    apply andb_prop in Hcond. destruct Hcond as [Hcond Hl1].
    apply andb_prop in Hcond. destruct Hcond as [_ Hbs].
    unfold isBitString in Hbs. apply andb_prop in Hbs. destruct Hbs as [_ Hty].
    apply Z.eqb_eq in Hty. rewrite Hty.
    apply Z.gtb_lt in Hl1.
    pose proof (decode_bit_string_ok (Z.of_nat fuel)
                  (_fromDer fuel (mkOptions true false true) (depth + 1))
                  (IH _ _) b2 rem l Hc2 ltac:(lia) ltac:(lia)
                  ltac:(unfold rem; lia) ltac:(unfold rem; lia)) as Hdec.
    destruct (decode_bit_string _ b2 rem l Asn1Type.BITSTRING)
      as [[[v b3] r3]| |]; cbn [bind]; try contradiction.
    destruct v as [v|].
    + destruct Hdec as (Hd3 & Hr3 & c & -> & Hok). unfold parse_post.
      split; [congruence|]. split; [unfold rem in *; lia|].
      apply composed_ok_create. cbn [forallb]. now rewrite Hok.
    + destruct Hdec as [-> ->]. rewrite <- Hty. apply Hraw'.
Qed.

Lemma charCodeAt_Some s i c :
  charCodeAt s i = Some c -> 0 <= i < jslength s.
Proof.
  unfold charCodeAt. destruct (Z.ltb_spec i 0) as [Hi|Hi]; [discriminate|].
  intros H.
  assert (Hn : nth_error s (Z.to_nat i) <> None) by congruence.
  apply nth_error_Some in Hn. unfold jslength. lia.
Qed.

Lemma _fromDer_Ok_cursor fuel options depth b r res :
  _fromDer fuel options depth b r = Ok res -> cursor_ok b.
Proof.
  destruct fuel as [|fuel]; [discriminate|]. cbn [_fromDer]. intros H.
  invert_bind H. invert_bind H. destruct a0 as [b1 b'].
  apply getByte_Ok in E0. destruct E0 as [E0 _].
  apply charCodeAt_Some in E0. unfold cursor_ok. lia.
Qed.

Lemma createBuffer_cursor s : cursor_ok (createBuffer (Some s)).
Proof. unfold cursor_ok. cbn. pose proof (jslength_nonneg s). lia. Qed.

(** [fromDer] on a string, or on a buffer whose cursor lies inside its
    data, returns or throws: the embedding is defined there. *)
Lemma fromDer_defined bytes options :
  match bytes with
  | inl _ => True
  | inr b => cursor_ok b
  end ->
  forall s, fromDer bytes options <> Undef s.
Proof.
  intros Hb s. unfold fromDer.
  set (b := match bytes with inl s => createBuffer (Some s) | inr b => b end).
  assert (Hc : cursor_ok b).
  { subst b. destruct bytes; [apply createBuffer_cursor|assumption]. }
  pose proof (_fromDer_ok (S (Z.to_nat (Buffer.length b)))
                (resolve_options options) 0 b (Buffer.length b) Hc) as H.
  assert (Hpos : 0 <= Buffer.length b)
    by (unfold cursor_ok, Buffer.length in *; lia).
  specialize (H ltac:(lia) ltac:(lia)). unfold parse_post in H.
  destruct (_fromDer _ _ 0 b (Buffer.length b)) as [[o b']| |]; cbn [bind].
  - destruct (_ && _); discriminate.
  - discriminate.
  - contradiction.
Qed.

Lemma fromDer_composed_ok bytes options o b' :
  fromDer bytes options = Ok (o, b') -> composed_ok o = true.
Proof.
  unfold fromDer.
  set (b := match bytes with inl s => createBuffer (Some s) | inr b => b end).
  intros H. invert_bind H. destruct a as [o1 b1].
  pose proof (_fromDer_Ok_cursor _ _ _ _ _ _ E) as Hc.
  pose proof (_fromDer_ok (S (Z.to_nat (Buffer.length b)))
                (resolve_options options) 0 b (Buffer.length b) Hc) as Hp.
  assert (Hpos : 0 <= Buffer.length b)
    by (unfold cursor_ok, Buffer.length in *; lia).
  specialize (Hp ltac:(lia) ltac:(lia)). rewrite E in Hp.
  destruct Hp as (_ & _ & Hok).
  destruct (_ && _); [discriminate|]. now injection H as <- _.
Qed.

Lemma composed_ok_root o :
  composed_ok o = true -> composed o = constructed o || isArray (value o).
Proof.
  destruct o as [tc ty c cp v bsc orig]. cbn [composed_ok composed constructed value].
  intros H. apply andb_prop in H. destruct H as [H _].
  apply andb_prop in H. destruct H as [H _]. now apply eqb_prop.
Qed.

(** ** Claims about the data model and the parser *)

(** C9. Every node produced by [create], [copy] or [fromDer] (from strings
    and from nodes so produced) satisfies
    [composed == (constructed || value is a list of child nodes)]; so does
    every node below it and its snapshot. *)
Theorem produced_nodes_keep_composed_invariant (o : Asn1) :
  Produced o ->
  composed o = (constructed o || isArray (value o)) /\ composed_ok o = true.
Proof.
  intros HP.
  assert (Hok : composed_ok o = true).
  { induction HP as [tc ty c s opts | tc ty c l opts _ IH | o opts _ IH
                    | bytes opts o b' Hfrom].
    - now apply composed_ok_create.
    - apply composed_ok_create. apply forallb_forall. exact IH.
    - now apply composed_ok_copy.
    - exact (fromDer_composed_ok _ _ _ _ Hfrom). }
  split; [now apply composed_ok_root | exact Hok].
Qed.

Lemma produced_nodes_keep_composed_invariant_witness :
  let o :=
    copy (create Class.UNIVERSAL Asn1Type.BITSTRING false
            (VArray [create Class.UNIVERSAL Asn1Type.NULL false (VString []) None])
            (Some (Present (Some [0; 5; 0])))) (Some false) in
  composed o = (constructed o || isArray (value o)) /\ composed_ok o = true.
Proof.
  intros o. apply (produced_nodes_keep_composed_invariant o).
  apply Produced_copy. apply Produced_create_array.
  intros child [<- | []]. apply Produced_create_string.
Defined.

Lemma _getValueLength_Ok_inside b remaining len b' :
  cursor_ok b -> 1 <= remaining <= Buffer.length b ->
  _getValueLength b remaining = Ok (len, b') ->
  exists k, 1 <= k <= remaining /\ b' = advance b k /\
            match len with
            | Some l => 0 <= l
            | None => True
            end.
Proof.
  intros Hc Hr E. pose proof (_getValueLength_inside b remaining Hc Hr) as H.
  now rewrite E in H.
Qed.

(** C4. With [decodeBitStrings] on, at a primitive UNIVERSAL BIT STRING of
    declared length above 1: if the speculative decoding is abandoned --
    because the unused-bits byte is not zero, or the nested strict parse
    throws, or it does not consume exactly the declared length, or the
    nested node's class is neither UNIVERSAL nor CONTEXT_SPECIFIC -- then
    the block hands back the cursor and the remaining count it started
    with, and [_fromDer] returns (does not throw) the primitive node whose
    value is the raw bytes of the declared length. *)
Theorem abandoned_bit_string_decode_restores_state
    (fuel : nat) (options : ParseOptions) (depth : Z)
    (b : ByteStringBuffer) (remaining : Z)
    (t : Z) (b0 : ByteStringBuffer) (len0 : Z) (b1 : ByteStringBuffer)
    (len unused : Z) (b2 : ByteStringBuffer) :
  cursor_ok b -> 2 <= remaining <= Buffer.length b ->
  remaining <= Z.of_nat fuel ->
  decodeBitStrings options = true ->
  Buffer.getByte b = Ok (t, b0) ->
  JS.band t 192 = Class.UNIVERSAL -> JS.band t 31 = Asn1Type.BITSTRING ->
  JS.band t 32 <> 32 ->
  _getValueLength b0 (remaining - 1) = Ok (Some len0, b1) ->
  let remaining1 := remaining - 1 - (Buffer.length b0 - Buffer.length b1) in
  clamp_length options b1 remaining1 (Some len0) = Ok (Some len) ->
  1 < len ->
  Buffer.getByte b1 = Ok (unused, b2) ->
  let nested :=
    _fromDer fuel (mkOptions true false true) (depth + 1) b2 (remaining1 - 1) in
  (unused <> 0 \/
   (exists e, nested = Throw e) \/
   (exists c b3, nested = Ok (c, b3) /\
      (Buffer.length b2 - Buffer.length b3 + 1 <> len \/
       (tagClass c <> Class.UNIVERSAL /\ tagClass c <> Class.CONTEXT_SPECIFIC)))) ->
  decode_bit_string (_fromDer fuel (mkOptions true false true) (depth + 1))
                    b1 remaining1 len Asn1Type.BITSTRING
    = Ok (None, b1, remaining1) /\
  _fromDer (S fuel) options depth b remaining
    = Ok (create Class.UNIVERSAL Asn1Type.BITSTRING false
            (VString (Buffer.bytes b1 (Some len)))
            (Some (Present (Some (Buffer.bytes b1 (Some len))))),
          advance b1 len).
Proof.
  intros Hc Hr Hfuel Hdec Ht Hcls Hty Hprim Hlen remaining1 Hclamp Hlen1 Hun
         nested Hcause.
  subst nested.
  apply getByte_Ok in Ht. destruct Ht as [Ht ->].
  assert (Hc0 : cursor_ok (advance b 1))
    by (apply cursor_ok_advance; [assumption|lia]).
  destruct (_getValueLength_Ok_inside (advance b 1) (remaining - 1) _ _ Hc0
              ltac:(rewrite length_advance; lia) Hlen) as (k & Hk & Hb1 & Hl0).
  assert (Hrem1 : remaining1 = remaining - 1 - k).
  { unfold remaining1. rewrite Hb1, !length_advance. lia. }
  assert (Hc1 : cursor_ok b1).
  { rewrite Hb1. apply cursor_ok_advance; [assumption|].
    rewrite length_advance. lia. }
  assert (Hl1 : Buffer.length b1 = Buffer.length b - 1 - k)
    by (rewrite Hb1, !length_advance; lia).
  pose proof (clamp_length_ok options b1 remaining1 (Some len0) ltac:(lia) Hl0)
    as Hcl. rewrite Hclamp in Hcl. destruct Hcl as [Hlr _].
  assert (Hattempt :
    decode_bit_string (_fromDer fuel (mkOptions true false true) (depth + 1))
                      b1 remaining1 len Asn1Type.BITSTRING
      = Ok (None, b1, remaining1)).
  { pose proof (decode_bit_string_ok (Z.of_nat fuel)
                  (_fromDer fuel (mkOptions true false true) (depth + 1))
                  (_fromDer_ok fuel _ _) b1 remaining1 len Hc1 Hlen1
                  ltac:(lia) ltac:(lia) ltac:(lia)) as Hok.
    revert Hok. unfold decode_bit_string.
    change (Asn1Type.BITSTRING =? Asn1Type.BITSTRING) with true. cbv iota.
    unfold _checkBufferLength.
    destruct (Z.gtb_spec 1 remaining1); [lia|]. cbn [bind].
    rewrite Hun. cbn [bind].
    apply getByte_Ok in Hun. destruct Hun as [_ Hb2].
    destruct (Z.eqb_spec unused 0) as [Hu|Hu]; cbn [bind].
    - destruct Hcause as [Hne | [[e He] | (c & b3 & He & Hwhy)]];
        [contradiction | rewrite He | rewrite He].
      + cbn [bind]. intros [-> _]. reflexivity.
      + destruct ((Buffer.length b2 - Buffer.length b3 + 1 =? len) &&
                  ((tagClass c =? Class.UNIVERSAL) ||
                   (tagClass c =? Class.CONTEXT_SPECIFIC))) eqn:Hcond.
        * exfalso. apply andb_prop in Hcond. destruct Hcond as [H1 H2].
          apply Z.eqb_eq in H1. apply orb_prop in H2.
          destruct Hwhy as [Hw | [Hw1 Hw2]]; [contradiction|].
          destruct H2 as [H2|H2]; apply Z.eqb_eq in H2; contradiction.
        * cbn [bind]. intros [-> _]. reflexivity.
    - intros [-> _]. reflexivity. }
  split; [exact Hattempt|].
  cbn [_fromDer]. unfold _checkBufferLength at 1.
  destruct (Z.gtb_spec 2 remaining); [lia|]. cbn [bind].
  unfold Buffer.getByte at 1. rewrite Ht. cbn [bind].
  fold (advance b 1). rewrite Hlen. cbn [bind]. fold remaining1.
  rewrite Hclamp. cbn [bind].
  destruct (Z.eqb_spec (JS.band t 32) 32); [contradiction|].
  rewrite Hcls, Hty, Hdec.
  change (Class.UNIVERSAL =? Class.UNIVERSAL) with true.
  change (Asn1Type.BITSTRING =? Asn1Type.BITSTRING) with true.
  cbn [andb]. destruct (Z.gtb_spec len 1); [|lia].
  rewrite Hattempt. cbn [bind]. unfold read_raw_value. cbn [bind].
  change (Asn1Type.BITSTRING =? Asn1Type.BMPSTRING) with false. cbv iota.
  rewrite getBytes_inside by (assumption || lia). reflexivity.
Qed.

Lemma abandoned_bit_string_decode_restores_state_witness :
  let b := createBuffer (Some [3; 3; 0; 69; 0]) in
  let b1 := advance b 2 in
  decode_bit_string (_fromDer 5 (mkOptions true false true) (0 + 1))
                    b1 3 3 Asn1Type.BITSTRING
    = Ok (None, b1, 3) /\
  _fromDer 6 (mkOptions true true true) 0 b 5
    = Ok (create Class.UNIVERSAL Asn1Type.BITSTRING false
            (VString [0; 69; 0]) (Some (Present (Some [0; 69; 0]))),
          advance b1 3).
Proof.
  intros b b1.
  apply (abandoned_bit_string_decode_restores_state
           5 (mkOptions true true true) 0 b 5
           3 (advance b 1) 3 b1 3 0 (advance b1 1)).
  - unfold cursor_ok. cbn. lia.
  - cbn. lia.
  - lia.
  - reflexivity.
  - reflexivity.
  - reflexivity.
  - reflexivity.
  - discriminate.
  - reflexivity.
  - reflexivity.
  - lia.
  - reflexivity.
  - right. right.
    exists (create Class.APPLICATION Asn1Type.NULL false (VString []) None),
           (advance b 5).
    split; [reflexivity|]. right. split; discriminate.
Defined.


(** ** Claims about the validator *)

Lemma validate_children_app validate v obj pre post : forall j rval capture errors,
  validate_children validate v obj (pre ++ post) j rval capture errors =
  ('(rval, j, capture, errors) <-
     validate_children validate v obj pre j rval capture errors ;;
   validate_children validate v obj post j rval capture errors).
Proof.
  induction pre as [|vi pre IH]; intros j rval capture errors; [reflexivity|].
  cbn [app validate_children]. destruct rval.
  - destruct obj as [o|c]; [|reflexivity].
    destruct (element (value o) j) as [child|]; cbn [bind]; [|apply IH].
    destruct (validate vi child capture errors) as [[[r c] e]| |];
      cbn [bind]; try reflexivity.
    destruct r; cbn [bind]; [apply IH|].
    destruct (SchemaFields.optional vi); cbn [bind]; apply IH.
  - cbn [bind]. destruct post; reflexivity.
Qed.

(** C5, as stated, fails.  Against a SEQUENCE of two NULLs, a schema with
    two required INTEGER children produces the diagnostics of the first
    child only; the walk the specification describes would go on and add
    those of the second child. *)
Lemma validate_continue_after_required_mismatch_counterexample :
  let int_ name :=
    mkSchema (Some name) (Some Class.UNIVERSAL) (Some Asn1Type.INTEGER)
             (Some false) None false None None None None in
  let v :=
    mkSchema (Some "S"%string) (Some Class.UNIVERSAL) (Some Asn1Type.SEQUENCE)
             (Some true) (Some [int_ "a"%string; int_ "b"%string]) false
             None None None None in
  let null := create Class.UNIVERSAL Asn1Type.NULL false (VString []) None in
  let obj := create Class.UNIVERSAL Asn1Type.SEQUENCE true (VArray [null; null]) None in
  let m_a := ("[a] Expected type " ++ dq ++ "2" ++ dq ++ ", got " ++ dq ++ "5" ++ dq)%string in
  let m_b := ("[b] Expected type " ++ dq ++ "2" ++ dq ++ ", got " ++ dq ++ "5" ++ dq)%string in
  let m_S := length_message v obj in
  validate v obj None (Some []) = Ok (false, None, Some [m_a; m_S]) /\
  walk_as_specified validate v obj [int_ "a"%string; int_ "b"%string] 0 true
                    None (Some [])
    = Ok (false, 0%nat, None, Some [m_a; m_S; m_b; m_S]) /\
  [m_a; m_S] <> [m_a; m_S; m_b; m_S].
Proof. repeat split; try reflexivity. discriminate. Qed.

(** C5, amended.  When the walk over the sub-validators reaches a required
    sub-validator that does not match at the current position [j] (the
    value of the node has nothing at [j], or what it has there -- a child
    of an array, a letter of a string -- fails to validate), [validate]
    returns false, appends the diagnostics of that attempt followed by the
    "expected value length" message, and stops: the remaining
    sub-validators are not visited and add no diagnostics. *)
Theorem validate_stops_at_required_mismatch
    (v : Schema) (obj : Asn1) (pre : list Schema) (vi : Schema)
    (rest : list Schema) (capture : option CaptureMap)
    (errors : option (list string)) (j : nat)
    (capture1 capture2 : option CaptureMap)
    (errors1 errors2 : option (list string)) :
  tag_matches v obj = true ->
  constructed_matches v obj = true ->
  SchemaFields.value v = Some (pre ++ vi :: rest) ->
  SchemaFields.optional vi = false ->
  validate_children validate v obj pre 0 true capture errors
    = Ok (true, j, capture1, errors1) ->
  match element (value obj) j with
  | Some child => validate vi child capture1 errors1 = Ok (false, capture2, errors2)
  | None => capture2 = capture1 /\ errors2 = errors1
  end ->
  validate v obj capture errors
    = Ok (false, capture2, push_error errors2 (length_message v obj)).
Proof.
  intros Htag Hcons Hval Hreq Hpre Hfail.
  destruct v as [name vtc vty vc vvalue opt c1 c2 c3 c4].
  cbn [SchemaFields.value] in Hval. subst vvalue.
  cbn [validate]. rewrite Htag, Hcons.
  change (fun vi child capture errors => validate vi child capture errors)
    with validate.
  rewrite validate_children_app, Hpre. cbn [bind validate_children].
  rewrite Hreq. cbn [orb].
  destruct (element (value obj) j) as [child|].
  - rewrite Hfail. cbn [bind negb]. destruct rest; reflexivity.
  - destruct Hfail as (-> & ->). cbn [bind negb]. destruct rest; reflexivity.
Qed.

Lemma validate_stops_at_required_mismatch_witness :
  (let int_ name :=
     mkSchema (Some name) (Some Class.UNIVERSAL) (Some Asn1Type.INTEGER)
              (Some false) None false None None None None in
   let v :=
     mkSchema (Some "S"%string) (Some Class.UNIVERSAL) (Some Asn1Type.SEQUENCE)
              (Some true)
              (Some [int_ "a"%string; int_ "b"%string; int_ "c"%string]) false
              None None None None in
   let five := create Class.UNIVERSAL Asn1Type.INTEGER false (VString [5]) None in
   let null := create Class.UNIVERSAL Asn1Type.NULL false (VString []) None in
   let obj :=
     create Class.UNIVERSAL Asn1Type.SEQUENCE true (VArray [five; null; null]) None in
   validate v obj None (Some [])
     = Ok (false, None,
           push_error
             (Some [("[b] Expected type " ++ dq ++ "2" ++ dq ++ ", got " ++ dq ++ "5" ++ dq)%string])
             (length_message v obj))) /\
  (let int_ name :=
     mkSchema (Some name) (Some Class.UNIVERSAL) (Some Asn1Type.INTEGER)
              None None false None None None None in
   let v :=
     mkSchema (Some "O"%string) None None None
              (Some [int_ "w"%string; int_ "x"%string]) false
              None None None None in
   let obj :=
     create Class.UNIVERSAL Asn1Type.OCTETSTRING false (VString [97; 98]) None in
   validate v obj None (Some [])
     = Ok (false, None,
           push_error
             (Some [("[w] Expected tag class " ++ dq ++ "0" ++ dq ++ ", got " ++ dq ++ "undefined" ++ dq)%string;
                    ("[w] Expected type " ++ dq ++ "2" ++ dq ++ ", got " ++ dq ++ "undefined" ++ dq)%string])
             (length_message v obj))).
Proof.
  split.
  - intros int_ v five null obj.
    apply (validate_stops_at_required_mismatch
             v obj [int_ "a"%string] (int_ "b"%string) [int_ "c"%string]
             None (Some []) 1 None None (Some [])); reflexivity.
  - intros int_ v obj.
    apply (validate_stops_at_required_mismatch
             v obj [] (int_ "w"%string) [int_ "x"%string]
             None (Some []) 0 None None (Some [])); reflexivity.
Defined.

(** ** Tag bytes *)

Lemma tag_byte_table :
  forallb (fun c =>
    forallb (fun cls =>
      forallb (fun num => tag_byte_check c cls (Z.of_nat num)) (seq 0 32))
      [Class.UNIVERSAL; Class.APPLICATION; Class.CONTEXT_SPECIFIC; Class.PRIVATE])
    [true; false] = true.
Proof. vm_compute. reflexivity. Qed.

Lemma class_ok_In cls :
  class_ok cls = true ->
  In cls [Class.UNIVERSAL; Class.APPLICATION; Class.CONTEXT_SPECIFIC; Class.PRIVATE].
Proof.
  unfold class_ok. intros H. cbn [In].
  repeat (apply orb_prop in H; destruct H as [H|H]);
    apply Z.eqb_eq in H; auto.
Qed.

Lemma tag_byte_facts (c : bool) cls num :
  class_ok cls = true -> 0 <= num <= 31 ->
  let b1 := if c then JS.bor (JS.bor cls num) 32 else JS.bor cls num in
  b1 = cls + (if c then 32 else 0) + num /\ is_byte b1 /\
  JS.band b1 192 = cls /\ JS.band b1 31 = num /\
  (JS.band b1 32 =? 32) = c.
Proof.
  intros Hcls Hnum b1.
  pose proof tag_byte_table as T. rewrite forallb_forall in T.
  specialize (T c ltac:(destruct c; cbn; auto)). rewrite forallb_forall in T.
  specialize (T cls (class_ok_In cls Hcls)). rewrite forallb_forall in T.
  specialize (T (Z.to_nat num) ltac:(apply in_seq; lia)).
  rewrite Z2Nat.id in T by lia. unfold tag_byte_check in T. cbv zeta in T.
  change (if c then JS.bor (JS.bor cls num) 32 else JS.bor cls num)
    with b1 in T.
  repeat (apply andb_prop in T; let H := fresh "T" in destruct T as [T H]).
  repeat match goal with
         | H : (_ =? _) = true |- _ => apply Z.eqb_eq in H
         | H : (_ <=? _) = true |- _ => apply Z.leb_le in H
         | H : (_ <? _) = true |- _ => apply Z.ltb_lt in H
         | H : Bool.eqb _ _ = true |- _ => apply eqb_prop in H
         end.
  unfold is_byte. repeat split; try assumption; lia.
Qed.

(** ** Length octets *)

Lemma digits_be_spec : forall fuel x acc,
  0 <= x < 256 ^ (Z.of_nat fuel + 1) ->
  exists ds,
    digits_be 256 fuel x acc = ds ++ acc /\ Forall is_byte ds /\
    be_value ds = x /\ 1 <= jslength ds <= Z.of_nat fuel + 1.
Proof.
  assert (Hone : forall x acc, 0 <= x < 256 -> forall n, 0 <= n ->
            x mod 256 :: acc = [x] ++ acc /\ Forall is_byte [x] /\
            be_value [x] = x /\ 1 <= jslength [x] <= n + 1).
  { intros x acc Hx n Hn. rewrite Z.mod_small by lia.
    split; [reflexivity|]. split; [|split].
    - repeat constructor; unfold is_byte; lia.
    - cbn. lia.
    - unfold jslength. cbn [List.length]. lia. }
  induction fuel as [|fuel IH]; intros x acc Hx.
  - cbn [digits_be]. change (256 ^ (Z.of_nat 0 + 1)) with 256 in Hx.
    exists [x]. apply Hone; lia.
  - cbn [digits_be].
    assert (Hpow : 256 ^ (Z.of_nat (S fuel) + 1) = 256 * 256 ^ (Z.of_nat fuel + 1)).
    { rewrite <- Z.pow_succ_r by lia. f_equal. lia. }
    destruct (Z.eqb_spec (x / 256) 0) as [E|E].
    + assert (x < 256) by (Z.div_mod_to_equations; lia).
      exists [x]. apply Hone; lia.
    + destruct (IH (x / 256) (x mod 256 :: acc)) as (ds & Hds & HF & Hv & Hl).
      { rewrite Hpow in Hx. split; [Z.div_mod_to_equations; lia|].
        apply Z.div_lt_upper_bound; lia. }
      exists (ds ++ [x mod 256]). rewrite Hds, <- app_assoc.
      split; [reflexivity|]. split; [|split].
      * apply Forall_app. split; [assumption|].
        repeat constructor; unfold is_byte; apply Z.mod_pos_bound; lia.
      * rewrite be_value_snoc, Hv. Z.div_mod_to_equations; lia.
      * rewrite jslength_app. unfold jslength in *. cbn [List.length] in *. lia.
Qed.

Lemma digits_be_fuel : forall f1 f2 x acc,
  0 <= x < 256 ^ (Z.of_nat f1 + 1) -> (f1 <= f2)%nat ->
  digits_be 256 f2 x acc = digits_be 256 f1 x acc.
Proof.
  induction f1 as [|f1 IH]; intros f2 x acc Hx Hle.
  - change (256 ^ (Z.of_nat 0 + 1)) with 256 in Hx.
    destruct f2; [reflexivity|]. cbn [digits_be].
    rewrite Z.div_small by lia. reflexivity.
  - destruct f2 as [|f2]; [lia|]. cbn [digits_be].
    destruct (Z.eqb_spec (x / 256) 0); [reflexivity|].
    apply IH; [|lia].
    assert (Hpow : 256 ^ (Z.of_nat (S f1) + 1) = 256 * 256 ^ (Z.of_nat f1 + 1)).
    { rewrite <- Z.pow_succ_r by lia. f_equal. lia. }
    rewrite Hpow in Hx. split; [Z.div_mod_to_equations; lia|].
    apply Z.div_lt_upper_bound; lia.
Qed.

Lemma shru_8 x : 0 <= x < 2 ^ 32 -> JS.shru x 8 = x / 256.
Proof.
  intros H. unfold JS.shru, JS.ToUint32.
  rewrite (Z.mod_small x) by lia.
  change (8 mod 2 ^ 32 mod 32) with 8.
  rewrite Z.shiftr_div_pow2 by lia. reflexivity.
Qed.

Lemma lenBytes_loop_digits : forall fuel x acc,
  0 <= x < 256 ^ (Z.of_nat fuel + 1) -> x < 2 ^ 31 ->
  rev (lenBytes_loop (S fuel) x acc) = digits_be 256 fuel x (rev acc).
Proof.
  induction fuel as [|fuel IH]; intros x acc Hx Hx31.
  - change (256 ^ (Z.of_nat 0 + 1)) with 256 in Hx.
    cbn [lenBytes_loop digits_be].
    rewrite fromCharCode_band, ToInt32_small by lia.
    rewrite shru_8 by lia. rewrite Z.div_small by lia. cbn [Z.gtb Z.compare].
    rewrite rev_app_distr. reflexivity.
  - assert (Hpow : 256 ^ (Z.of_nat (S fuel) + 1) = 256 * 256 ^ (Z.of_nat fuel + 1)).
    { rewrite <- Z.pow_succ_r by lia. f_equal. lia. }
    rewrite Hpow in Hx.
    assert (Hq : 0 <= x / 256 < 256 ^ (Z.of_nat fuel + 1)).
    { split; [Z.div_mod_to_equations; lia|]. apply Z.div_lt_upper_bound; lia. }
    remember (S fuel) as sf. cbn [lenBytes_loop]. subst sf. cbn [digits_be].
    rewrite fromCharCode_band, ToInt32_small by lia.
    rewrite shru_8 by lia.
    destruct (Z.eqb_spec (x / 256) 0) as [E|E].
    + rewrite E. cbn [Z.gtb Z.compare]. rewrite rev_app_distr. reflexivity.
    + destruct (Z.gtb_spec (x / 256) 0); [|lia].
      rewrite IH by (assumption || (Z.div_mod_to_equations; lia)).
      rewrite rev_app_distr. reflexivity.
Qed.

Lemma jslength_rev (s : jsstring) : jslength (rev s) = jslength s.
Proof. unfold jslength. now rewrite length_rev. Qed.

(** The long form that [toDer] and X.690 agree on, for a length that takes
    the long form and fits in 31 bits. *)
Lemma long_length_digits len :
  128 <= len < 2 ^ 31 ->
  exists ds,
    digits_be 256 8 len [] = ds /\
    rev (lenBytes_loop 4 len []) = ds /\
    Forall is_byte ds /\ be_value ds = len /\ 1 <= jslength ds <= 4.
Proof.
  intros Hlen.
  assert (H4 : 0 <= len < 256 ^ (Z.of_nat 3 + 1))
    by (change (256 ^ (Z.of_nat 3 + 1)) with 4294967296;
        change (2 ^ 31) with 2147483648 in Hlen; lia).
  destruct (digits_be_spec 3 len [] H4) as (ds & Hds & HF & Hv & Hl).
  rewrite app_nil_r in Hds. exists ds.
  split; [|split; [|split; [|split]]]; try assumption.
  - rewrite (digits_be_fuel 3 8 len [] H4) by lia. exact Hds.
  - rewrite (lenBytes_loop_digits 3 len [] H4) by lia. exact Hds.
Qed.

Lemma band_127_small x : 0 <= x <= 127 -> JS.band x 127 = x.
Proof.
  intros H. unfold JS.band. rewrite !ToInt32_small by lia.
  change 127 with (Z.ones 7). rewrite Z.land_ones by lia.
  apply Z.mod_small. change (2 ^ 7) with 128. lia.
Qed.

Lemma band_128_table :
  forallb (fun n => JS.band (Z.of_nat n) 128 =?
                    (if Z.of_nat n <? 128 then 0 else 128)) (seq 0 256) = true.
Proof. vm_compute. reflexivity. Qed.

Lemma band_128_byte x :
  is_byte x -> JS.band x 128 = if x <? 128 then 0 else 128.
Proof.
  unfold is_byte. intros H. pose proof band_128_table as T.
  rewrite forallb_forall in T.
  specialize (T (Z.to_nat x) ltac:(apply in_seq; lia)).
  rewrite Z2Nat.id in T by lia. now apply Z.eqb_eq in T.
Qed.

Lemma fold_putByte ds : forall b,
  Forall is_byte ds ->
  fold_left Buffer.putByte ds b = Buffer.putBytes b ds.
Proof.
  induction ds as [|d ds IH]; intros b HF.
  - unfold Buffer.putBytes. rewrite app_nil_r. symmetry. apply mkBuffer_eta.
  - inversion HF as [|? ? Hd HF']; subst. cbn [fold_left].
    rewrite IH by assumption.
    unfold Buffer.putByte, Buffer.putBytes, fromCharCode. cbn [data read].
    rewrite ToUint16_byte by assumption. now rewrite <- app_assoc.
Qed.

Lemma length_octets_long len :
  128 <= len < 2 ^ 31 ->
  exists ds,
    length_octets len = (128 + jslength ds) :: ds /\
    rev (lenBytes_loop 4 len []) = ds /\
    Forall is_byte ds /\ be_value ds = len /\ 1 <= jslength ds <= 4.
Proof.
  intros H. destruct (long_length_digits len H) as (ds & H1 & H2 & H3 & H4 & H5).
  exists ds. unfold length_octets. destruct (Z.leb_spec len 127); [lia|].
  rewrite H1. repeat split; assumption || lia.
Qed.

Lemma bor_128_small k : 1 <= k <= 4 -> JS.bor k 128 = 128 + k.
Proof.
  intros H. assert (k = 1 \/ k = 2 \/ k = 3 \/ k = 4) as [->|[->|[->| ->]]] by lia;
    reflexivity.
Qed.

(** The tail of [toDer]: tag byte, X.690 length octets, contents. *)
Lemma putByte_byte b c :
  is_byte c -> Buffer.putByte b c = mkBuffer (data b ++ [c]) (read b).
Proof.
  intros H. unfold Buffer.putByte, Buffer.putBytes, fromCharCode.
  now rewrite ToUint16_byte.
Qed.

Lemma toDer_assemble_octets b1 content :
  is_byte b1 -> jslength content < 2 ^ 31 ->
  toDer_assemble b1 (mkBuffer content 0) =
  mkBuffer (b1 :: length_octets (jslength content) ++ content) 0.
Proof.
  intros Hb Hlen. pose proof (jslength_nonneg content) as Hpos.
  unfold toDer_assemble, createBuffer, Buffer.putBuffer, Buffer.getBytes,
    Buffer.length. cbn [data read fst Z.eqb].
  rewrite Z.sub_0_r. rewrite (putByte_byte _ b1 Hb). cbn [data read app].
  destruct (Z.leb_spec (jslength content) 127) as [L|L].
  - unfold length_octets. destruct (Z.leb_spec (jslength content) 127); [|lia].
    rewrite band_127_small by lia.
    rewrite putByte_byte by (unfold is_byte; lia).
    unfold Buffer.putBytes. cbn [data read app]. reflexivity.
  - destruct (length_octets_long (jslength content) ltac:(lia))
      as (ds & -> & Hrev & HF & _ & Hk).
    rewrite Hrev.
    assert (Hl : jslength (lenBytes_loop 4 (jslength content) []) = jslength ds)
      by (rewrite <- Hrev; symmetry; apply jslength_rev).
    rewrite Hl, bor_128_small by assumption.
    rewrite fold_putByte by assumption.
    rewrite putByte_byte by (unfold is_byte; lia).
    unfold Buffer.putBytes. cbn [data read app].
    rewrite <- ?app_assoc. reflexivity.
Qed.

Lemma length_octets_length len :
  0 <= len < 2 ^ 31 -> 1 <= jslength (length_octets len) <= 5.
Proof.
  intros H. destruct (Z.leb_spec len 127) as [L|L].
  - unfold length_octets. destruct (Z.leb_spec len 127); [|lia]. cbn. lia.
  - destruct (length_octets_long len ltac:(lia)) as (ds & -> & _ & _ & _ & Hk).
    rewrite jslength_cons. lia.
Qed.

(** [_getValueLength] reads back the X.690 length octets of a length below
    [2^31]. *)
Lemma _getValueLength_octets b remaining len suf :
  cursor_ok b -> unread b = length_octets len ++ suf ->
  0 <= len < 2 ^ 31 -> jslength (length_octets len) <= remaining ->
  _getValueLength b remaining =
  Ok (Some len, advance b (jslength (length_octets len))).
Proof.
  intros Hc Hu Hlen Hrem. unfold _getValueLength.
  destruct (Z.leb_spec len 127) as [L|L].
  - unfold length_octets in *. destruct (Z.leb_spec len 127); [|lia].
    cbn [app] in Hu. rewrite (getByte_unread b len suf Hc Hu). cbn [bind].
    destruct (Z.eqb_spec len 128); [lia|].
    rewrite band_128_byte by (unfold is_byte; lia).
    destruct (Z.ltb_spec len 128); [|lia]. cbn [Z.eqb bind].
    destruct (Z.ltb_spec len 0); [lia|]. reflexivity.
  - destruct (length_octets_long len ltac:(lia)) as (ds & E & _ & HF & Hv & Hk).
    rewrite E in *. cbn [app] in Hu. rewrite jslength_cons in *.
    rewrite (getByte_unread b _ _ Hc Hu). cbn [bind].
    destruct (advance_cons b _ _ Hc Hu) as [Hc1 Hu1].
    destruct (Z.eqb_spec (128 + jslength ds) 128); [lia|].
    rewrite band_128_byte by (unfold is_byte; lia).
    destruct (Z.ltb_spec (128 + jslength ds) 128); [lia|]. cbn [Z.eqb bind].
    assert (Hb : JS.band (128 + jslength ds) 127 = jslength ds).
    { assert (jslength ds = 1 \/ jslength ds = 2 \/ jslength ds = 3 \/
              jslength ds = 4) as [->|[->|[->| ->]]] by lia; reflexivity. }
    rewrite Hb. unfold _checkBufferLength.
    destruct (Z.gtb_spec (jslength ds) (remaining - 1)); [lia|]. cbn [bind].
    rewrite shl_3_small by lia.
    rewrite (getInt_value (advance b 1) ds suf (jslength ds) Hc1 Hu1 HF eq_refl Hk).
    cbn [bind]. rewrite Hv, ToInt32_small by lia.
    destruct (Z.ltb_spec len 0); [lia|]. now rewrite advance_advance.
Qed.

(** ** [toDer] writes the X.690 octets of a well-formed tree *)

Lemma byteb_is_byte c : byteb c = true -> is_byte c.
Proof.
  unfold byteb, is_byte. intros H. apply andb_prop in H. destruct H as [H1 H2].
  apply Z.leb_le in H1. apply Z.ltb_lt in H2. lia.
Qed.

Lemma putInt16_code_unit b c :
  code_unitb c = true ->
  Buffer.putInt16 b c = mkBuffer (data b ++ [c / 256; c mod 256]) (read b).
Proof.
  unfold code_unitb. intros H. apply andb_prop in H. destruct H as [H1 H2].
  apply Z.leb_le in H1. apply Z.ltb_lt in H2.
  unfold Buffer.putInt16, Buffer.putBytes.
  rewrite !fromCharCode_band, sar_div by lia.
  rewrite (ToInt32_small c) by lia. change (2 ^ 8) with 256.
  rewrite ToInt32_small by (Z.div_mod_to_equations; lia).
  rewrite (Z.mod_small (c / 256)) by (Z.div_mod_to_equations; lia).
  reflexivity.
Qed.

Lemma fold_putInt16 s : forall b,
  forallb code_unitb s = true ->
  fold_left Buffer.putInt16 s b = mkBuffer (data b ++ utf16be s) (read b).
Proof.
  induction s as [|c s IH]; intros b H.
  - cbn. rewrite app_nil_r. symmetry. apply mkBuffer_eta.
  - cbn [forallb] in H. apply andb_prop in H. destruct H as [Hc Hs].
    cbn [fold_left]. rewrite IH, putInt16_code_unit by assumption.
    cbn [data read utf16be flat_map]. now rewrite <- app_assoc.
Qed.

Lemma integer_minimal_no_strip c0 c1 rest :
  is_byte c1 -> integer_minimal (c0 :: c1 :: rest) = true ->
  ((c0 =? 0) && (JS.band c1 128 =? 0)) ||
  ((c0 =? 255) && (JS.band c1 128 =? 128)) = false.
Proof.
  intros Hb H. cbn [integer_minimal] in H. apply negb_true_iff in H.
  rewrite band_128_byte by assumption.
  destruct (Z.ltb_spec c1 128), (Z.leb_spec 128 c1); try lia; exact H.
Qed.

Lemma toDer_primitive_content type s :
  (if type =? Asn1Type.BMPSTRING
   then forallb code_unitb s else forallb byteb s) = true ->
  (if type =? Asn1Type.INTEGER then integer_minimal s else true) = true ->
  toDer_primitive type s (createBuffer None) =
  mkBuffer (if type =? Asn1Type.BMPSTRING then utf16be s else s) 0.
Proof.
  intros Hs Hmin. unfold toDer_primitive, createBuffer.
  destruct (type =? Asn1Type.BMPSTRING).
  - now rewrite fold_putInt16.
  - unfold Buffer.putBytes. cbn [data read app].
    destruct s as [|c0 [|c1 rest]]; try reflexivity.
    destruct (type =? Asn1Type.INTEGER); [|reflexivity].
    rewrite (integer_minimal_no_strip c0 c1 rest); [reflexivity| |assumption].
    cbn [forallb] in Hs. apply andb_prop in Hs. destruct Hs as [_ Hs].
    apply andb_prop in Hs. destruct Hs as [Hs _]. now apply byteb_is_byte.
Qed.

Lemma putChildren_octets (f : Asn1 -> Asn1) l : forall acc,
  (forall c, In c l -> toDer (f c) = Ok (mkBuffer (der_of c) 0)) ->
  putChildren toDer (map f l) (mkBuffer acc 0) =
  Ok (mkBuffer (acc ++ flat_map der_of l) 0).
Proof.
  induction l as [|c l IH]; intros acc H.
  - cbn. now rewrite app_nil_r.
  - cbn [map putChildren flat_map]. rewrite (H c (or_introl eq_refl)).
    cbn [bind]. unfold Buffer.putBuffer, Buffer.getBytes, Buffer.putBytes.
    cbn [data read fst Z.eqb]. rewrite IH by (intros; apply H; now right).
    now rewrite <- app_assoc.
Qed.

Lemma flat_map_der_length c l :
  In c l -> jslength (der_of c) <= jslength (flat_map der_of l).
Proof.
  induction l as [|x l IH]; intros H; [contradiction|].
  cbn [flat_map]. rewrite jslength_app.
  pose proof (jslength_nonneg (der_of x)).
  pose proof (jslength_nonneg (flat_map der_of l)).
  destruct H as [->|H]; [lia|]. specialize (IH H). lia.
Qed.

Lemma identifier_octets_low cls num c :
  num <= 30 ->
  identifier_octets cls num c = [cls + (if c then 32 else 0) + num].
Proof.
  intros H. unfold identifier_octets. destruct (Z.leb_spec num 30); [|lia].
  reflexivity.
Qed.

Lemma jsstring_eqb_refl s : jsstring_eqb s s = true.
Proof.
  induction s as [|c s IH]; [reflexivity|]. cbn [jsstring_eqb].
  now rewrite Z.eqb_refl, IH.
Qed.

(** The fields of a well-formed tree in low-tag-number form. *)
Lemma der_tree_fields tc ty c cp v bsc orig :
  der_tree (mkAsn1 tc ty c cp v bsc orig) = true ->
  low_tags (mkAsn1 tc ty c cp v bsc orig) = true ->
  tag2_minimal (mkAsn1 tc ty c cp v bsc orig) = true ->
  class_ok tc = true /\ 0 <= ty <= 30 /\ cp = c /\ bsc = Absent /\ orig = None /\
  match v with
  | VArray l =>
      c = true /\
      forall x, In x l ->
        der_tree x = true /\ low_tags x = true /\ tag2_minimal x = true
  | VString s =>
      c = false /\
      (if ty =? Asn1Type.BMPSTRING
       then forallb code_unitb s else forallb byteb s) = true /\
      (if ty =? Asn1Type.INTEGER then integer_minimal s else true) = true
  end.
Proof.
  cbn [der_tree low_tags tag2_minimal]. intros Hd Hl Ht.
  apply andb_prop in Hl. destruct Hl as [Hty Hl]. apply Z.leb_le in Hty.
  repeat (apply andb_prop in Hd; let H := fresh "Hd" in destruct Hd as [Hd H]).
  apply Z.leb_le in Hd4. apply eqb_prop in Hd3.
  destruct bsc; [|discriminate]. destruct orig; [discriminate|].
  split; [assumption|]. split; [lia|]. split; [assumption|].
  split; [reflexivity|]. split; [reflexivity|].
  destruct v as [s|l].
  - repeat (apply andb_prop in Hd0; let H := fresh "Hs" in destruct Hd0 as [Hd0 H]).
    apply negb_true_iff in Hd0. repeat split; assumption.
  - apply andb_prop in Hd0. destruct Hd0 as [Hc Hall]. split; [assumption|].
    rewrite forallb_forall in *. intros x Hx. auto.
Qed.

Lemma der_of_low tc ty c cp v bsc orig :
  ty <= 30 ->
  der_of (mkAsn1 tc ty c cp v bsc orig) =
  let content :=
    match v with
    | VArray l => flat_map der_of l
    | VString s => if ty =? Asn1Type.BMPSTRING then utf16be s else s
    end in
  (tc + (if c then 32 else 0) + ty) :: length_octets (jslength content) ++ content.
Proof. intros H. cbn [der_of]. now rewrite identifier_octets_low. Qed.

(** [toDer] of a well-formed tree in low-tag-number form whose primitives
    with tag number 2 are minimal, and of the node the parser builds for it,
    is the X.690 encoding of the tree. *)
Lemma toDer_der_of : forall o,
  der_tree o = true -> low_tags o = true -> tag2_minimal o = true ->
  jslength (der_of o) < 2 ^ 31 ->
  toDer o = Ok (mkBuffer (der_of o) 0) /\
  toDer (reparsed o) = Ok (mkBuffer (der_of o) 0).
Proof.
  induction o as [tc ty c cp v bsc orig IHv _] using Asn1_induction.
  intros Hd Hl Ht Hsize.
  destruct (der_tree_fields _ _ _ _ _ _ _ Hd Hl Ht)
    as (Hcls & Hty & -> & -> & -> & Hv).
  rewrite der_of_low in * by lia. cbv zeta in *.
  set (content := match v with
                  | VArray l => flat_map der_of l
                  | VString s => if ty =? Asn1Type.BMPSTRING then utf16be s else s
                  end) in *.
  assert (Hcontent : jslength content < 2 ^ 31).
  { rewrite jslength_cons, jslength_app in Hsize.
    pose proof (jslength_nonneg (length_octets (jslength content))). lia. }
  pose proof (tag_byte_facts c tc ty Hcls ltac:(lia)) as Htag. cbv zeta in Htag.
  destruct Htag as (Hb1 & Hbyte & _).
  destruct v as [s|l].
  - destruct Hv as (-> & Hs & Hmin).
    assert (Hplain : forall bsc,
      field_in bsc = false ->
      toDer (mkAsn1 tc ty false false (VString s) bsc None) =
      Ok (mkBuffer ((tc + 0 + ty) :: length_octets (jslength content) ++ content) 0)).
    { intros bsc Hbsc. cbn [toDer]. rewrite Hbsc. cbv iota. cbn [bind].
      rewrite toDer_primitive_content by assumption. fold content.
      rewrite toDer_assemble_octets by assumption. now rewrite Hb1. }
    split; [now apply Hplain|].
    cbn [reparsed]. unfold create. cbn [orb isArray].
    destruct ((tc =? Class.UNIVERSAL) && (ty =? Asn1Type.BITSTRING)) eqn:Hbs;
      [|now apply Hplain].
    apply andb_prop in Hbs. destruct Hbs as [_ Hbs]. apply Z.eqb_eq in Hbs.
    cbn [toDer field_in field_get copy equals_node].
    rewrite !Z.eqb_refl, jsstring_eqb_refl. cbn [Bool.eqb andb bind].
    unfold Buffer.putBytes, createBuffer. cbn [data read app].
    assert (Hc : content = s) by (unfold content; rewrite Hbs; reflexivity).
    rewrite <- Hc. rewrite toDer_assemble_octets by assumption. now rewrite Hb1.
  - destruct Hv as (-> & Hall).
    assert (Hkids : forall x, In x l ->
              toDer x = Ok (mkBuffer (der_of x) 0) /\
              toDer (reparsed x) = Ok (mkBuffer (der_of x) 0)).
    { intros x Hx. rewrite Forall_forall in IHv.
      destruct (Hall x Hx) as (H1 & H2 & H3). apply IHv; try assumption.
      pose proof (flat_map_der_length x l Hx). fold content in H. lia. }
    assert (Hgen : forall f,
      (forall x, In x l -> toDer (f x) = Ok (mkBuffer (der_of x) 0)) ->
      toDer (mkAsn1 tc ty true true (VArray (map f l)) Absent None) =
      Ok (mkBuffer ((tc + 32 + ty) :: length_octets (jslength content) ++ content) 0)).
    { intros f Hf. cbn [toDer field_in]. cbv iota.
      unfold createBuffer. rewrite (putChildren_octets f l [] Hf).
      cbn [bind app]. fold content.
      rewrite toDer_assemble_octets by assumption. now rewrite Hb1. }
    split.
    + rewrite <- (map_id l) at 1. apply Hgen. intros x Hx. now apply Hkids.
    + cbn [reparsed]. unfold create. cbn [orb isArray].
      apply Hgen. intros x Hx. now apply Hkids.
Qed.

(** ** [_fromDer] reads the X.690 octets of a well-formed tree *)

Lemma lxor_low_byte c0 c1 :
  0 <= c0 -> 0 <= c1 < 256 -> Z.lxor (c0 * 256) c1 = c0 * 256 + c1.
Proof.
  intros H0 H1. symmetry. apply Z.add_nocarry_lxor.
  apply Z.bits_inj'. intros n Hn. rewrite Z.land_spec, Z.bits_0.
  change 256 with (2 ^ 8). rewrite <- Z.shiftl_mul_pow2 by lia.
  destruct (Z.lt_ge_cases n 8).
  - rewrite Z.shiftl_spec_low by lia. reflexivity.
  - rewrite <- (Z.mod_small c1 (2 ^ 8)) by (change (2 ^ 8) with 256; lia).
    rewrite Z.mod_pow2_bits_high by lia. apply andb_false_r.
Qed.

Lemma getInt16_code_unit b c suf :
  code_unitb c = true -> cursor_ok b ->
  unread b = c / 256 :: c mod 256 :: suf ->
  Buffer.getInt16 b = Ok (c, advance b 2).
Proof.
  unfold code_unitb. intros H Hc Hu. apply andb_prop in H. destruct H as [H1 H2].
  apply Z.leb_le in H1. apply Z.ltb_lt in H2.
  unfold Buffer.getInt16, Buffer.codeAt.
  rewrite (charCodeAt_unread b _ _ Hc Hu). cbn [bind].
  destruct (advance_cons b _ _ Hc Hu) as [Hc1 Hu1].
  pose proof (charCodeAt_unread (advance b 1) _ _ Hc1 Hu1) as E.
  cbn [advance data read] in E. rewrite E. cbn [bind].
  f_equal. f_equal. unfold JS.bxor. rewrite shl_mul by lia.
  change (2 ^ 8) with 256.
  rewrite (ToInt32_small (c / 256)) by (Z.div_mod_to_equations; lia).
  rewrite (ToInt32_small (c / 256 * 256)) by (Z.div_mod_to_equations; lia).
  rewrite (ToInt32_small (c / 256 * 256)) by (Z.div_mod_to_equations; lia).
  rewrite (ToInt32_small (c mod 256)) by (Z.div_mod_to_equations; lia).
  rewrite lxor_low_byte by (Z.div_mod_to_equations; lia).
  Z.div_mod_to_equations; lia.
Qed.

Lemma bmp_loop_utf16 s : forall fuel b remaining acc suf,
  forallb code_unitb s = true -> cursor_ok b ->
  unread b = utf16be s ++ suf ->
  2 * jslength s <= remaining -> (List.length s <= fuel)%nat ->
  bmp_loop fuel b remaining (2 * jslength s) acc =
  Ok (acc ++ s, advance b (2 * jslength s), remaining - 2 * jslength s).
Proof.
  induction s as [|c s IH]; intros fuel b rem acc suf Hs Hc Hu Hrem Hf.
  - change (2 * jslength []) with 0.
    destruct fuel; cbn [bmp_loop Z.gtb Z.compare];
      now rewrite app_nil_r, advance_0, Z.sub_0_r.
  - cbn [forallb] in Hs. apply andb_prop in Hs. destruct Hs as [Hcu Hs].
    rewrite jslength_cons in *. pose proof (jslength_nonneg s).
    destruct fuel as [|fuel]; [cbn [List.length] in Hf; lia|].
    cbn [bmp_loop]. destruct (Z.gtb_spec (2 * (1 + jslength s)) 0); [|lia].
    unfold _checkBufferLength. destruct (Z.gtb_spec 2 rem); [lia|]. cbn [bind].
    cbn [utf16be flat_map app] in Hu.
    rewrite (getInt16_code_unit b c _ Hcu Hc Hu). cbn [bind].
    destruct (unread_advance b [c / 256; c mod 256] _ Hc Hu) as [Hc2 Hu2].
    change (jslength [c / 256; c mod 256]) with 2 in Hc2, Hu2.
    replace (2 * (1 + jslength s) - 2) with (2 * jslength s) by lia.
    fold (utf16be s) in Hu2.
    rewrite (IH fuel (advance b 2) (rem - 2) (acc ++ fromCharCode c) suf Hs Hc2 Hu2)
      by (cbn [List.length] in Hf; lia).
    unfold fromCharCode, JS.ToUint16.
    unfold code_unitb in Hcu. apply andb_prop in Hcu. destruct Hcu as [Hlo Hhi].
    apply Z.leb_le in Hlo. apply Z.ltb_lt in Hhi.
    rewrite Z.mod_small by (change (2 ^ 16) with 65536; lia).
    rewrite <- app_assoc, advance_advance. cbn [app].
    replace (2 + 2 * jslength s) with (2 * (1 + jslength s)) by lia.
    replace (rem - 2 - 2 * jslength s) with (rem - 2 * (1 + jslength s)) by lia.
    reflexivity.
Qed.

Lemma utf16be_length s : jslength (utf16be s) = 2 * jslength s.
Proof.
  induction s as [|c s IH]; [reflexivity|].
  cbn [utf16be flat_map]. fold (utf16be s).
  rewrite jslength_app, IH, (jslength_cons c s).
  change (jslength [c / 256; c mod 256]) with 2. lia.
Qed.

Lemma length_octets_nonempty len : 1 <= jslength (length_octets len).
Proof.
  unfold length_octets. destruct (len <=? 127).
  - cbn. lia.
  - rewrite jslength_cons. pose proof (jslength_nonneg (digits_be 256 8 len [])). lia.
Qed.

Lemma der_of_at_least_2 o : low_tags o = true -> 2 <= jslength (der_of o).
Proof.
  destruct o as [tc ty c cp v bsc orig]. cbn [low_tags]. intros H.
  apply andb_prop in H. destruct H as [H _]. apply Z.leb_le in H.
  rewrite der_of_low by assumption. cbv zeta.
  rewrite jslength_cons, jslength_app.
  match goal with
  | |- context [length_octets ?n] => pose proof (length_octets_nonempty n)
  end.
  match goal with
  | |- context [jslength (length_octets _) + jslength ?x] =>
      pose proof (jslength_nonneg x)
  end. lia.
Qed.

(** The loop over the children, given that [parse] reads each child. *)
Lemma definite_loop_der (parse : Parser) l : forall fuel b remaining acc suf,
  (forall x, In x l ->
     2 <= jslength (der_of x) /\
     forall b' suf' r,
       cursor_ok b' -> unread b' = der_of x ++ suf' ->
       jslength (der_of x) <= r ->
       parse b' r = Ok (reparsed x, advance b' (jslength (der_of x)))) ->
  cursor_ok b -> unread b = flat_map der_of l ++ suf ->
  (List.length l <= fuel)%nat ->
  exists remaining' len',
    definite_loop fuel parse b remaining (jslength (flat_map der_of l)) acc =
    Ok (acc ++ map reparsed l, advance b (jslength (flat_map der_of l)),
        remaining', len').
Proof.
  induction l as [|x l IH]; intros fuel b rem acc suf Hp Hc Hu Hf.
  - change (jslength (flat_map der_of [])) with 0.
    exists rem, 0. destruct fuel; cbn [definite_loop Z.gtb Z.compare];
      now rewrite app_nil_r, advance_0.
  - destruct (Hp x (or_introl eq_refl)) as [Hx2 Hx].
    cbn [flat_map] in *. rewrite jslength_app in *.
    pose proof (jslength_nonneg (flat_map der_of l)) as Hrest.
    destruct fuel as [|fuel]; [cbn [List.length] in Hf; lia|].
    cbn [definite_loop].
    destruct (Z.gtb_spec (jslength (der_of x) + jslength (flat_map der_of l)) 0);
      [|lia].
    rewrite <- app_assoc in Hu.
    rewrite (Hx b _ _ Hc Hu) by lia. cbn [bind].
    destruct (unread_advance b (der_of x) _ Hc Hu) as [Hc1 Hu1].
    rewrite length_advance.
    replace (Buffer.length b - (Buffer.length b - jslength (der_of x)))
      with (jslength (der_of x)) by lia.
    replace (jslength (der_of x) + jslength (flat_map der_of l) - jslength (der_of x))
      with (jslength (flat_map der_of l)) by lia.
    destruct (IH fuel (advance b (jslength (der_of x))) (rem - jslength (der_of x))
                (acc ++ [reparsed x]) suf) as (rem' & len' & E).
    + intros y Hy. apply Hp. now right.
    + assumption.
    + assumption.
    + cbn [List.length] in Hf. lia.
    + exists rem', len'. rewrite E, advance_advance, <- app_assoc. reflexivity.
Qed.

Lemma children_count_le_size l :
  (forall x, In x l -> 2 <= jslength (der_of x)) ->
  Z.of_nat (List.length l) <= jslength (flat_map der_of l).
Proof.
  induction l as [|x l IH]; intros H; [cbn; lia|].
  cbn [flat_map List.length]. rewrite jslength_app.
  specialize (H x (or_introl eq_refl)) as Hx.
  specialize (IH ltac:(intros; apply H; now right)). lia.
Qed.




(** ** Claims about encoding and parsing *)






(** The values that a well-formed tree holds under tag number 30 are
    written as every byte string of even length, and only those. *)
Lemma utf16be_onto : forall n (bs : jsstring),
  List.length bs = (2 * n)%nat -> Forall is_byte bs ->
  exists s, forallb code_unitb s = true /\ utf16be s = bs.
Proof.
  induction n as [|n IH]; intros bs Hlen Hb.
  - destruct bs; [|discriminate]. exists []. split; reflexivity.
  - destruct bs as [|a [|b bs]]; try discriminate.
    + cbn in Hlen. lia.
    + inversion Hb as [|? ? Ha Hb']. inversion Hb' as [|? ? Hb0 Hbs]. subst.
      destruct (IH bs) as (s & Hs & Hu); [cbn in Hlen; lia|exact Hbs|].
      unfold is_byte in *. exists (a * 256 + b :: s). split.
      * cbn [forallb]. rewrite Hs, andb_true_r. unfold code_unitb.
        apply andb_true_intro. split; [apply Z.leb_le|apply Z.ltb_lt]; lia.
      * unfold utf16be in *. cbn [flat_map app]. rewrite Hu.
        f_equal; [|f_equal].
        -- rewrite Z.div_add_l by lia. rewrite Z.div_small by lia. lia.
        -- rewrite Z.add_comm, Z.mod_add by lia. apply Z.mod_small. lia.
Qed.

Lemma utf16be_even (s : jsstring) : Nat.even (List.length (utf16be s)) = true.
Proof.
  induction s as [|c s IH]; [reflexivity|].
  unfold utf16be in *. cbn [flat_map app List.length]. exact IH.
Qed.



Lemma create_fields tc ty c v options :
  tagClass (create tc ty c v options) = tc /\
  type (create tc ty c v options) = ty /\
  constructed (create tc ty c v options) = c /\
  value (create tc ty c v options) = v.
Proof. unfold create. destruct options as [[|x]|]; repeat split. Qed.

(** The node [_fromDer] returns carries the class, the five-bit tag number
    and the constructed bit of the first byte it read. *)
Lemma _fromDer_tag fuel options depth b remaining o b' t :
  charCodeAt (data b) (read b) = Some t ->
  _fromDer fuel options depth b remaining = Ok (o, b') ->
  tagClass o = JS.band t 192 /\ type o = JS.band t 31 /\
  constructed o = (JS.band t 32 =? 32).
Proof.
  intros Ht H. destruct fuel as [|fuel]; [discriminate|]. cbn [_fromDer] in H.
  invert_bind H. invert_bind H. destruct a0 as [b1 bytes1].
  apply getByte_Ok in E0. destruct E0 as [E0 ->].
  rewrite Ht in E0. injection E0 as <-.
  invert_bind H. destruct a0 as [len bytes2]. invert_bind H.
  destruct (JS.band t 32 =? 32).
  - invert_bind H. destruct a1 as [[l bytes3] r3].
    injection H as <- _.
    destruct (create_fields (JS.band t 192) (JS.band t 31) true (VArray l) None)
      as (H1 & H2 & H3 & _). auto.
  - invert_bind H. destruct a1 as [[v bytes3] r3]. destruct v as [v|].
    + injection H as <- _.
      match goal with
      | |- context [create ?a ?b ?c ?d ?e] =>
          destruct (create_fields a b c d e) as (H1 & H2 & H3 & _)
      end. auto.
    + invert_bind H. destruct a1 as [[s bytes4] r4]. injection H as <- _.
      match goal with
      | |- context [create ?a ?b ?c ?d ?e] =>
          destruct (create_fields a b c d e) as (H1 & H2 & H3 & _)
      end. auto.
Qed.

(** C3, as stated, fails: the two bytes [1F 00] -- tag number 31, length 0
    -- are parsed into a node; no error is raised. *)
Lemma fromDer_tag_31_counterexample :
  JS.band 31 31 = 31 /\
  fromDer (inl [31; 0]) OptionsOmitted =
  Ok (create Class.UNIVERSAL 31 false (VString []) None, mkBuffer [31; 0] 2).
Proof. split; reflexivity. Qed.

(** C3, amended.  The parser has no check on the tag number and raises no
    error for 31: a first byte whose low five bits are 31 is read as an
    ordinary one-byte tag.  Whenever [_fromDer] returns, the node has the
    class, the tag number (31 included) and the constructed bit of the first
    byte; and for every class and every value of at most 127 code units,
    the input "tag byte with number 31, length byte, value" is parsed, under
    any options, into the primitive node of tag number 31 with that
    value. *)
Theorem tag_number_31_read_as_one_byte_tag :
  (forall fuel options depth b remaining o b' t,
      charCodeAt (data b) (read b) = Some t ->
      _fromDer fuel options depth b remaining = Ok (o, b') ->
      tagClass o = JS.band t 192 /\ type o = JS.band t 31 /\
      constructed o = (JS.band t 32 =? 32)) /\
  (forall cls content options,
      class_ok cls = true -> jslength content <= 127 ->
      JS.band (cls + 31) 31 = 31 /\
      fromDer (inl (cls + 31 :: jslength content :: content)) options =
      Ok (create cls 31 false (VString content) None,
          mkBuffer (cls + 31 :: jslength content :: content)
                   (2 + jslength content))).
Proof.
  split; [exact _fromDer_tag|].
  intros cls content options Hcls Hlen.
  pose proof (jslength_nonneg content) as Hn.
  pose proof (tag_byte_facts false cls 31 Hcls ltac:(lia)) as Htag.
  cbv zeta iota in Htag. destruct Htag as (Hb1 & Hbyte & Hrc & Hrt & Hrk).
  rewrite Hb1, Z.add_0_r in *. split; [exact Hrt|].
  unfold fromDer. set (input := cls + 31 :: jslength content :: content).
  destruct (unread_fresh input) as [Hc Hu]. rewrite app_nil_r in Hu.
  change (createBuffer (Some input)) with (mkBuffer input 0).
  set (b := mkBuffer input 0) in *.
  assert (Hl : Buffer.length b = 2 + jslength content).
  { unfold Buffer.length, b, input. cbn [data read].
    rewrite !jslength_cons. lia. }
  rewrite Hl.
  cbn [_fromDer]. unfold _checkBufferLength at 1.
  destruct (Z.gtb_spec 2 (2 + jslength content)); [lia|]. cbn [bind].
  unfold input in Hu. rewrite (getByte_unread b _ _ Hc Hu). cbn [bind].
  destruct (advance_cons b _ _ Hc Hu) as [Hc1 Hu1].
  unfold _getValueLength. rewrite (getByte_unread _ _ _ Hc1 Hu1). cbn [bind].
  destruct (advance_cons _ _ _ Hc1 Hu1) as [Hc2 Hu2].
  rewrite advance_advance in *. change (1 + 1) with 2 in *.
  destruct (Z.eqb_spec (jslength content) 128); [lia|].
  rewrite band_128_byte by (unfold is_byte; lia).
  destruct (Z.ltb_spec (jslength content) 128); [|lia]. cbn [Z.eqb bind].
  destruct (Z.ltb_spec (jslength content) 0); [lia|]. cbn [bind].
  rewrite !length_advance, Hl.
  replace (2 + jslength content - 1 - (2 + jslength content - 1 - (2 + jslength content - 2)))
    with (jslength content) by lia.
  unfold clamp_length.
  destruct (Z.gtb_spec (jslength content) (jslength content)); [lia|].
  cbn [bind]. rewrite Hrc, Hrt, Hrk.
  change (31 =? Asn1Type.BITSTRING) with false. rewrite !andb_false_r.
  cbn [andb bind]. unfold read_raw_value. cbn [bind].
  change (31 =? Asn1Type.BMPSTRING) with false. cbv iota.
  rewrite <- (app_nil_r content) in Hu2.
  rewrite (getBytes_unread _ content [] Hc2 Hu2). cbn [bind].
  rewrite advance_advance, length_advance, Hl.
  replace (2 + jslength content - (2 + jslength content)) with 0 by lia.
  cbn [Z.eqb negb]. rewrite andb_false_r. reflexivity.
Qed.

Lemma tag_number_31_read_as_one_byte_tag_witness :
  (tagClass (create Class.PRIVATE 31 false (VString [7; 8]) None) = JS.band 223 192 /\
   type (create Class.PRIVATE 31 false (VString [7; 8]) None) = JS.band 223 31 /\
   constructed (create Class.PRIVATE 31 false (VString [7; 8]) None)
     = (JS.band 223 32 =? 32)) /\
  (JS.band (Class.PRIVATE + 31) 31 = 31 /\
   fromDer (inl (Class.PRIVATE + 31 :: jslength [7; 8] :: [7; 8])) OptionsOmitted =
   Ok (create Class.PRIVATE 31 false (VString [7; 8]) None,
       mkBuffer (Class.PRIVATE + 31 :: jslength [7; 8] :: [7; 8])
                (2 + jslength [7; 8]))).
Proof.
  destruct tag_number_31_read_as_one_byte_tag as [Hany Hprim]. split.
  - apply (Hany 2%nat (mkOptions true true true) 0
             (mkBuffer [223; 2; 7; 8] 0) 4 _ (mkBuffer [223; 2; 7; 8] 4) 223);
      reflexivity.
  - apply (Hprim Class.PRIVATE [7; 8] OptionsOmitted); [reflexivity|].
    unfold jslength. cbn. lia.
Defined.

(* ================================================================== *)
(** * Further properties of the buffer and the string helpers *)

(** ** Fixed-width integers, both byte orders *)

Lemma codeAt_unread b j c :
  cursor_ok b -> nth_error (unread b) j = Some c ->
  Buffer.codeAt b (read b + Z.of_nat j) = Ok c.
Proof.
  intros [H0 H1] Hn. unfold Buffer.codeAt, charCodeAt.
  destruct (Z.ltb_spec (read b + Z.of_nat j) 0); [lia|].
  unfold unread in Hn. rewrite nth_error_skipn in Hn.
  replace (Z.to_nat (read b + Z.of_nat j)) with (Z.to_nat (read b) + j)%nat by lia.
  now rewrite Hn.
Qed.

Lemma codeAt_unread_0 b c suf :
  cursor_ok b -> unread b = c :: suf -> Buffer.codeAt b (read b) = Ok c.
Proof.
  intros Hc Hu. replace (read b) with (read b + Z.of_nat 0) by lia.
  apply codeAt_unread; [exact Hc|]. now rewrite Hu.
Qed.

Lemma codeAt_unread_1 b c0 c suf :
  cursor_ok b -> unread b = c0 :: c :: suf -> Buffer.codeAt b (read b + 1) = Ok c.
Proof.
  intros Hc Hu. change 1 with (Z.of_nat 1).
  apply codeAt_unread; [exact Hc|]. now rewrite Hu.
Qed.

Lemma codeAt_unread_2 b c0 c1 c suf :
  cursor_ok b -> unread b = c0 :: c1 :: c :: suf ->
  Buffer.codeAt b (read b + 2) = Ok c.
Proof.
  intros Hc Hu. change 2 with (Z.of_nat 2).
  apply codeAt_unread; [exact Hc|]. now rewrite Hu.
Qed.

Lemma codeAt_unread_3 b c0 c1 c2 c suf :
  cursor_ok b -> unread b = c0 :: c1 :: c2 :: c :: suf ->
  Buffer.codeAt b (read b + 3) = Ok c.
Proof.
  intros Hc Hu. change 3 with (Z.of_nat 3).
  apply codeAt_unread; [exact Hc|]. now rewrite Hu.
Qed.

Lemma land_disjoint hi lo k :
  0 <= k -> hi mod 2 ^ k = 0 -> 0 <= lo < 2 ^ k -> Z.land hi lo = 0.
Proof.
  intros Hk Hm Hlo.
  apply Z.bits_inj'. intros n Hn. rewrite Z.land_spec, Z.bits_0.
  destruct (Z.ltb_spec n k).
  - rewrite <- (Z.mod_pow2_bits_low hi k n) by lia. rewrite Hm, Z.bits_0.
    reflexivity.
  - rewrite <- (Z.mod_small lo (2 ^ k)) by lia.
    rewrite Z.mod_pow2_bits_high by lia. apply andb_false_r.
Qed.

(** [hi ^ lo] adds when [hi] is a multiple of [2^k] and [lo] is below it. *)
Lemma bxor_add hi lo k :
  0 <= k -> hi mod 2 ^ k = 0 -> 0 <= lo < 2 ^ k ->
  - 2 ^ 31 <= hi < 2 ^ 31 -> - 2 ^ 31 <= lo < 2 ^ 31 ->
  JS.bxor hi lo = hi + lo /\ JS.bxor lo hi = hi + lo.
Proof.
  intros Hk Hm Hlo Hhi Hlo'. unfold JS.bxor.
  rewrite !ToInt32_small by lia.
  pose proof (land_disjoint hi lo k Hk Hm Hlo) as Hland.
  rewrite (Z.lxor_comm lo hi).
  rewrite <- (Z.add_nocarry_lxor hi lo Hland). split; reflexivity.
Qed.

Lemma shl_byte c k :
  is_byte c -> 0 <= k < 32 ->
  JS.shl c k = JS.ToInt32 (c * 2 ^ k) /\ JS.shl c k mod 2 ^ k = 0 /\
  - 2 ^ 31 <= JS.shl c k < 2 ^ 31.
Proof.
  intros Hc Hk. rewrite shl_mul by lia.
  unfold is_byte in Hc. rewrite (ToInt32_small c) by lia.
  split; [reflexivity|]. split; [|apply ToInt32_range].
  unfold JS.ToInt32.
  replace (2 ^ 31) with (2 ^ k * 2 ^ (31 - k))
    by (rewrite <- Z.pow_add_r by lia; f_equal; lia).
  replace (2 ^ 32) with (2 ^ k * 2 ^ (32 - k))
    by (rewrite <- Z.pow_add_r by lia; f_equal; lia).
  replace (c * 2 ^ k + 2 ^ k * 2 ^ (31 - k))
    with (2 ^ k * (c + 2 ^ (31 - k))) by ring.
  assert (0 < 2 ^ k) by (apply Z.pow_pos_nonneg; lia).
  assert (0 < 2 ^ (32 - k)) by (apply Z.pow_pos_nonneg; lia).
  rewrite Z.mul_mod_distr_l by lia.
  rewrite <- Z.mul_sub_distr_l. rewrite Z.mul_comm. apply Z.mod_mul. lia.
Qed.

Ltac pow_consts :=
  change (2 ^ 8) with 256 in *; change (2 ^ 16) with 65536 in *;
  change (2 ^ 24) with 16777216 in *; change (2 ^ 31) with 2147483648 in *;
  change (2 ^ 32) with 4294967296 in *.

Ltac xor_to_sum :=
  repeat match goal with
         | |- context [JS.bxor ?x ?y] =>
             first
               [ rewrite (proj1 (bxor_add x y 8 ltac:(lia)
                   ltac:(pow_consts; Z.div_mod_to_equations; lia)
                   ltac:(pow_consts; lia)
                   ltac:(pow_consts; Z.div_mod_to_equations; lia)
                   ltac:(pow_consts; Z.div_mod_to_equations; lia)))
               | rewrite (proj1 (bxor_add x y 16 ltac:(lia)
                   ltac:(pow_consts; Z.div_mod_to_equations; lia)
                   ltac:(pow_consts; lia)
                   ltac:(pow_consts; Z.div_mod_to_equations; lia)
                   ltac:(pow_consts; Z.div_mod_to_equations; lia)))
               | rewrite (proj1 (bxor_add x y 24 ltac:(lia)
                   ltac:(pow_consts; Z.div_mod_to_equations; lia)
                   ltac:(pow_consts; lia)
                   ltac:(pow_consts; Z.div_mod_to_equations; lia)
                   ltac:(pow_consts; Z.div_mod_to_equations; lia)))
               | rewrite (proj2 (bxor_add y x 8 ltac:(lia)
                   ltac:(pow_consts; Z.div_mod_to_equations; lia)
                   ltac:(pow_consts; lia)
                   ltac:(pow_consts; Z.div_mod_to_equations; lia)
                   ltac:(pow_consts; Z.div_mod_to_equations; lia)))
               | rewrite (proj2 (bxor_add y x 16 ltac:(lia)
                   ltac:(pow_consts; Z.div_mod_to_equations; lia)
                   ltac:(pow_consts; lia)
                   ltac:(pow_consts; Z.div_mod_to_equations; lia)
                   ltac:(pow_consts; Z.div_mod_to_equations; lia)))
               | rewrite (proj2 (bxor_add y x 24 ltac:(lia)
                   ltac:(pow_consts; Z.div_mod_to_equations; lia)
                   ltac:(pow_consts; lia)
                   ltac:(pow_consts; Z.div_mod_to_equations; lia)
                   ltac:(pow_consts; Z.div_mod_to_equations; lia))) ]
         end.

Lemma getInt32_bytes b c0 c1 c2 c3 suf :
  cursor_ok b -> unread b = c0 :: c1 :: c2 :: c3 :: suf ->
  is_byte c0 -> is_byte c1 -> is_byte c2 -> is_byte c3 ->
  Buffer.getInt32 b =
  Ok (JS.ToInt32 (be_value [c0; c1; c2; c3]), advance b 4) /\
  ByteBuffer.getInt32Le b =
  Ok (JS.ToInt32 (be_value [c3; c2; c1; c0]), advance b 4).
Proof.
  intros Hc Hu H0 H1 H2 H3.
  unfold Buffer.getInt32, ByteBuffer.getInt32Le.
  rewrite (codeAt_unread_0 _ _ _ Hc Hu), (codeAt_unread_1 _ _ _ _ Hc Hu),
    (codeAt_unread_2 _ _ _ _ _ Hc Hu), (codeAt_unread_3 _ _ _ _ _ _ Hc Hu).
  cbn [bind]. fold (advance b 4).
  destruct (shl_byte c0 24 H0 ltac:(lia)) as (E0 & M0 & R0).
  destruct (shl_byte c3 24 H3 ltac:(lia)) as (E3 & M3 & R3).
  destruct (shl_byte c1 16 H1 ltac:(lia)) as (E1 & _ & _).
  destruct (shl_byte c2 16 H2 ltac:(lia)) as (E2 & _ & _).
  destruct (shl_byte c2 8 H2 ltac:(lia)) as (F2 & _ & _).
  destruct (shl_byte c1 8 H1 ltac:(lia)) as (F1 & _ & _).
  unfold is_byte in *.
  rewrite ToInt32_small in E1, E2, F1, F2 by (pow_consts; lia).
  rewrite E1, E2, F1, F2.
  set (h0 := JS.shl c0 24) in *. set (h3 := JS.shl c3 24) in *.
  assert (V0 : JS.ToInt32 (be_value [c0; c1; c2; c3]) =
               h0 + c1 * 2 ^ 16 + c2 * 2 ^ 8 + c3).
  { cbv [be_value fold_left]. rewrite E0. unfold JS.ToInt32. pow_consts.
    Z.div_mod_to_equations. lia. }
  assert (V3 : JS.ToInt32 (be_value [c3; c2; c1; c0]) =
               h3 + c2 * 2 ^ 16 + c1 * 2 ^ 8 + c0).
  { cbv [be_value fold_left]. rewrite E3. unfold JS.ToInt32. pow_consts.
    Z.div_mod_to_equations. lia. }
  rewrite V0, V3. clearbody h0 h3. clear E0 E3 V0 V3.
  split; f_equal; f_equal.
  - xor_to_sum. reflexivity.
  - xor_to_sum. pow_consts. lia.
Qed.

Lemma getInt16_bytes b c0 c1 suf :
  cursor_ok b -> unread b = c0 :: c1 :: suf ->
  is_byte c0 -> is_byte c1 ->
  Buffer.getInt16 b = Ok (be_value [c0; c1], advance b 2) /\
  ByteBuffer.getInt16Le b = Ok (be_value [c1; c0], advance b 2).
Proof.
  intros Hc Hu H0 H1.
  unfold Buffer.getInt16, ByteBuffer.getInt16Le.
  rewrite (codeAt_unread_0 _ _ _ Hc Hu), (codeAt_unread_1 _ _ _ _ Hc Hu).
  cbn [bind]. fold (advance b 2).
  destruct (shl_byte c0 8 H0 ltac:(lia)) as (E0 & _ & _).
  destruct (shl_byte c1 8 H1 ltac:(lia)) as (E1 & _ & _).
  unfold is_byte in *.
  rewrite ToInt32_small in E0, E1 by (pow_consts; lia).
  rewrite E0, E1. cbv [be_value fold_left].
  split; f_equal; f_equal; xor_to_sum; pow_consts; lia.
Qed.

Lemma getInt24_bytes b c0 c1 c2 suf :
  cursor_ok b -> unread b = c0 :: c1 :: c2 :: suf ->
  is_byte c0 -> is_byte c1 -> is_byte c2 ->
  Buffer.getInt24 b = Ok (be_value [c0; c1; c2], advance b 3) /\
  ByteBuffer.getInt24Le b = Ok (be_value [c2; c1; c0], advance b 3).
Proof.
  intros Hc Hu H0 H1 H2.
  unfold Buffer.getInt24, ByteBuffer.getInt24Le.
  rewrite (codeAt_unread_0 _ _ _ Hc Hu), (codeAt_unread_1 _ _ _ _ Hc Hu),
    (codeAt_unread_2 _ _ _ _ _ Hc Hu).
  cbn [bind]. fold (advance b 3).
  destruct (shl_byte c0 16 H0 ltac:(lia)) as (E0 & _ & _).
  destruct (shl_byte c2 16 H2 ltac:(lia)) as (E2 & _ & _).
  destruct (shl_byte c1 8 H1 ltac:(lia)) as (E1 & _ & _).
  unfold is_byte in *.
  rewrite ToInt32_small in E0, E1, E2 by (pow_consts; lia).
  rewrite E0, E1, E2. cbv [be_value fold_left].
  split; f_equal; f_equal; xor_to_sum; pow_consts; lia.
Qed.

(** The byte that the put methods write for bits [k .. k+7] of [i]. *)
Lemma fromCharCode_sar_band i k :
  0 <= k < 32 ->
  fromCharCode (JS.band (JS.sar i k) 255) = [(JS.ToInt32 i / 2 ^ k) mod 256].
Proof.
  intros Hk. rewrite fromCharCode_band, sar_div by lia.
  pose proof (ToInt32_range i) as Hr.
  assert (Hp : 0 < 2 ^ k) by (apply Z.pow_pos_nonneg; lia).
  rewrite ToInt32_small; [reflexivity|].
  split.
  - apply Z.div_le_lower_bound; nia.
  - apply Z.div_lt_upper_bound; nia.
Qed.

Lemma unread_putBytes b s :
  cursor_ok b ->
  cursor_ok (Buffer.putBytes b s) /\
  unread (Buffer.putBytes b s) = unread b ++ s.
Proof.
  intros [H0 H1]. unfold cursor_ok, unread, Buffer.putBytes. cbn [data read].
  rewrite jslength_app. pose proof (jslength_nonneg s). split; [lia|].
  rewrite skipn_app.
  replace (Z.to_nat (read b) - List.length (data b))%nat with 0%nat
    by (unfold jslength in H1; lia).
  reflexivity.
Qed.

Lemma unread_drained b : cursor_ok b -> Buffer.length b = 0 -> unread b = [].
Proof.
  intros Hc Hl. rewrite <- (unread_length b Hc) in Hl.
  destruct (unread b) as [|c rest]; [reflexivity|].
  rewrite jslength_cons in Hl. pose proof (jslength_nonneg rest). lia.
Qed.

Lemma mod_byte x : is_byte (x mod 256).
Proof. unfold is_byte. apply Z.mod_pos_bound. lia. Qed.

(** X1. Written into a drained buffer by [putInt16], [putInt24] or
    [putInt32] and read back by the matching [getInt16], [getInt24] or
    [getInt32], any integer [i] comes back reduced to the width: as
    [i mod 2^16], as [i mod 2^24], and, for 32 bits, as the signed
    [ToInt32 i]; the read consumes exactly the bytes written. *)
Theorem putInt_getInt_big_endian_roundtrip (b : ByteStringBuffer) (i : Z) :
  cursor_ok b -> Buffer.length b = 0 ->
  Buffer.getInt16 (Buffer.putInt16 b i) =
    Ok (i mod 2 ^ 16, advance (Buffer.putInt16 b i) 2) /\
  Buffer.getInt24 (Buffer.putInt24 b i) =
    Ok (i mod 2 ^ 24, advance (Buffer.putInt24 b i) 3) /\
  Buffer.getInt32 (Buffer.putInt32 b i) =
    Ok (JS.ToInt32 i, advance (Buffer.putInt32 b i) 4).
Proof.
  intros Hc Hl. pose proof (unread_drained b Hc Hl) as Hu.
  pose proof (ToInt32_range i) as Hr.
  unfold Buffer.putInt16, Buffer.putInt24, Buffer.putInt32.
  rewrite !fromCharCode_sar_band by lia. rewrite !fromCharCode_band.
  cbn [app].
  split; [|split].
  - match goal with |- context [Buffer.putBytes b ?s] =>
      destruct (unread_putBytes b s Hc) as [Hc' Hu'] end.
    rewrite Hu in Hu'. cbn [app] in Hu'.
    rewrite (proj1 (getInt16_bytes _ _ _ [] Hc' Hu' (mod_byte _) (mod_byte _))).
    f_equal. f_equal. cbv [be_value fold_left].
    unfold JS.ToInt32 in *. pow_consts. Z.div_mod_to_equations. lia.
  - match goal with |- context [Buffer.putBytes b ?s] =>
      destruct (unread_putBytes b s Hc) as [Hc' Hu'] end.
    rewrite Hu in Hu'. cbn [app] in Hu'.
    rewrite (proj1 (getInt24_bytes _ _ _ _ [] Hc' Hu'
                      (mod_byte _) (mod_byte _) (mod_byte _))).
    f_equal. f_equal. cbv [be_value fold_left].
    unfold JS.ToInt32 in *. pow_consts. Z.div_mod_to_equations. lia.
  - match goal with |- context [Buffer.putBytes b ?s] =>
      destruct (unread_putBytes b s Hc) as [Hc' Hu'] end.
    rewrite Hu in Hu'. cbn [app] in Hu'.
    rewrite (proj1 (getInt32_bytes _ _ _ _ _ [] Hc' Hu'
                      (mod_byte _) (mod_byte _) (mod_byte _) (mod_byte _))).
    f_equal. f_equal. cbv [be_value fold_left].
    set (t := JS.ToInt32 i) in *.
    unfold JS.ToInt32. pow_consts. Z.div_mod_to_equations. lia.
Qed.

Lemma putInt_getInt_big_endian_roundtrip_witness :
  Buffer.getInt16 (Buffer.putInt16 (createBuffer None) 70000) =
    Ok (70000 mod 2 ^ 16, advance (Buffer.putInt16 (createBuffer None) 70000) 2) /\
  Buffer.getInt24 (Buffer.putInt24 (createBuffer None) 70000) =
    Ok (70000 mod 2 ^ 24, advance (Buffer.putInt24 (createBuffer None) 70000) 3) /\
  Buffer.getInt32 (Buffer.putInt32 (createBuffer None) 70000) =
    Ok (JS.ToInt32 70000, advance (Buffer.putInt32 (createBuffer None) 70000) 4).
Proof.
  apply (putInt_getInt_big_endian_roundtrip (createBuffer None) 70000).
  - unfold cursor_ok. cbn. lia.
  - reflexivity.
Defined.

(** X2. The little-endian methods round-trip in the same way: after
    [putInt16Le], [putInt24Le] or [putInt32Le] into a drained buffer,
    [getInt16Le], [getInt24Le] and [getInt32Le] return [i mod 2^16],
    [i mod 2^24] and [ToInt32 i], and the first byte written is the least
    significant one. *)
Theorem putInt_getInt_little_endian_roundtrip (b : ByteStringBuffer) (i : Z) :
  cursor_ok b -> Buffer.length b = 0 ->
  (ByteBuffer.getInt16Le (ByteBuffer.putInt16Le b i) =
     Ok (i mod 2 ^ 16, advance (ByteBuffer.putInt16Le b i) 2) /\
   ByteBuffer.getInt24Le (ByteBuffer.putInt24Le b i) =
     Ok (i mod 2 ^ 24, advance (ByteBuffer.putInt24Le b i) 3) /\
   ByteBuffer.getInt32Le (ByteBuffer.putInt32Le b i) =
     Ok (JS.ToInt32 i, advance (ByteBuffer.putInt32Le b i) 4)) /\
  Buffer.getByte (ByteBuffer.putInt16Le b i) =
    Ok (i mod 256, advance (ByteBuffer.putInt16Le b i) 1) /\
  Buffer.getByte (ByteBuffer.putInt24Le b i) =
    Ok (i mod 256, advance (ByteBuffer.putInt24Le b i) 1) /\
  Buffer.getByte (ByteBuffer.putInt32Le b i) =
    Ok (i mod 256, advance (ByteBuffer.putInt32Le b i) 1).
Proof.
  intros Hc Hl. pose proof (unread_drained b Hc Hl) as Hu.
  pose proof (ToInt32_range i) as Hr.
  assert (Hlow : JS.ToInt32 i mod 256 = i mod 256).
  { unfold JS.ToInt32. pow_consts. Z.div_mod_to_equations. lia. }
  unfold ByteBuffer.putInt16Le, ByteBuffer.putInt24Le, ByteBuffer.putInt32Le.
  rewrite !fromCharCode_sar_band by lia. rewrite !fromCharCode_band.
  cbn [app].
  split; [split; [|split] | split; [|split]].
  - match goal with |- context [Buffer.putBytes b ?s] =>
      destruct (unread_putBytes b s Hc) as [Hc' Hu'] end.
    rewrite Hu in Hu'. cbn [app] in Hu'.
    rewrite (proj2 (getInt16_bytes _ _ _ [] Hc' Hu' (mod_byte _) (mod_byte _))).
    f_equal. f_equal. cbv [be_value fold_left].
    unfold JS.ToInt32 in *. pow_consts. Z.div_mod_to_equations. lia.
  - match goal with |- context [Buffer.putBytes b ?s] =>
      destruct (unread_putBytes b s Hc) as [Hc' Hu'] end.
    rewrite Hu in Hu'. cbn [app] in Hu'.
    rewrite (proj2 (getInt24_bytes _ _ _ _ [] Hc' Hu'
                      (mod_byte _) (mod_byte _) (mod_byte _))).
    f_equal. f_equal. cbv [be_value fold_left].
    unfold JS.ToInt32 in *. pow_consts. Z.div_mod_to_equations. lia.
  - match goal with |- context [Buffer.putBytes b ?s] =>
      destruct (unread_putBytes b s Hc) as [Hc' Hu'] end.
    rewrite Hu in Hu'. cbn [app] in Hu'.
    rewrite (proj2 (getInt32_bytes _ _ _ _ _ [] Hc' Hu'
                      (mod_byte _) (mod_byte _) (mod_byte _) (mod_byte _))).
    f_equal. f_equal. cbv [be_value fold_left].
    set (t := JS.ToInt32 i) in *. clear Hlow.
    unfold JS.ToInt32. pow_consts. Z.div_mod_to_equations. lia.
  - match goal with |- context [Buffer.putBytes b ?s] =>
      destruct (unread_putBytes b s Hc) as [Hc' Hu'] end.
    rewrite Hu in Hu'. cbn [app] in Hu'.
    rewrite (getByte_unread _ _ _ Hc' Hu'). now rewrite Hlow.
  - match goal with |- context [Buffer.putBytes b ?s] =>
      destruct (unread_putBytes b s Hc) as [Hc' Hu'] end.
    rewrite Hu in Hu'. cbn [app] in Hu'.
    rewrite (getByte_unread _ _ _ Hc' Hu'). now rewrite Hlow.
  - match goal with |- context [Buffer.putBytes b ?s] =>
      destruct (unread_putBytes b s Hc) as [Hc' Hu'] end.
    rewrite Hu in Hu'. cbn [app] in Hu'.
    rewrite (getByte_unread _ _ _ Hc' Hu'). now rewrite Hlow.
Qed.

Lemma putInt_getInt_little_endian_roundtrip_witness :
  (ByteBuffer.getInt16Le (ByteBuffer.putInt16Le (createBuffer None) (-2)) =
     Ok ((-2) mod 2 ^ 16, advance (ByteBuffer.putInt16Le (createBuffer None) (-2)) 2) /\
   ByteBuffer.getInt24Le (ByteBuffer.putInt24Le (createBuffer None) (-2)) =
     Ok ((-2) mod 2 ^ 24, advance (ByteBuffer.putInt24Le (createBuffer None) (-2)) 3) /\
   ByteBuffer.getInt32Le (ByteBuffer.putInt32Le (createBuffer None) (-2)) =
     Ok (JS.ToInt32 (-2), advance (ByteBuffer.putInt32Le (createBuffer None) (-2)) 4)) /\
  Buffer.getByte (ByteBuffer.putInt16Le (createBuffer None) (-2)) =
    Ok ((-2) mod 256, advance (ByteBuffer.putInt16Le (createBuffer None) (-2)) 1) /\
  Buffer.getByte (ByteBuffer.putInt24Le (createBuffer None) (-2)) =
    Ok ((-2) mod 256, advance (ByteBuffer.putInt24Le (createBuffer None) (-2)) 1) /\
  Buffer.getByte (ByteBuffer.putInt32Le (createBuffer None) (-2)) =
    Ok ((-2) mod 256, advance (ByteBuffer.putInt32Le (createBuffer None) (-2)) 1).
Proof.
  apply (putInt_getInt_little_endian_roundtrip (createBuffer None) (-2)).
  - unfold cursor_ok. cbn. lia.
  - reflexivity.
Defined.

Lemma band_sar_0 i : JS.band (JS.sar i 0) 255 = JS.band i 255.
Proof.
  rewrite sar_div by lia. rewrite !band_255. change (2 ^ 0) with 1.
  rewrite Z.div_1_r.
  now rewrite (ToInt32_small (JS.ToInt32 i)) by apply ToInt32_range.
Qed.

(** X3. The generic [putInt(i, n)] and [getInt(n)] are interchangeable with
    the fixed-width methods for [n] = 16, 24, 32: [putInt] appends the same
    bytes for every integer, and on a buffer whose unread part holds at
    least four bytes [getInt] returns the same number and the same cursor. *)
Theorem putInt_getInt_agree_with_fixed_width (b : ByteStringBuffer) (i : Z) :
  cursor_ok b -> Forall is_byte (unread b) -> 4 <= Buffer.length b ->
  (Buffer.putInt b i 16 = Ok (Buffer.putInt16 b i) /\
   Buffer.putInt b i 24 = Ok (Buffer.putInt24 b i) /\
   Buffer.putInt b i 32 = Ok (Buffer.putInt32 b i)) /\
  (Buffer.getInt b 16 = Buffer.getInt16 b /\
   Buffer.getInt b 24 = Buffer.getInt24 b /\
   Buffer.getInt b 32 = Buffer.getInt32 b).
Proof.
  intros Hc Hb Hl. split.
  - unfold Buffer.putInt, Buffer.putInt16, Buffer.putInt24, Buffer.putInt32.
    cbn [_checkBitsParam Z.eqb Pos.eqb orb negb bind Buffer.putInt_loop
         Z.sub Z.add Z.opp Z.pos_sub Z.succ_double Z.pred_double Z.double
         Pos.pred_double Z.gtb Z.compare Pos.compare Pos.compare_cont app].
    rewrite !band_sar_0. rewrite <- !app_assoc. cbn [app].
    repeat split; reflexivity.
  - rewrite <- (unread_length b Hc) in Hl.
    destruct (unread b) as [|c0 [|c1 [|c2 [|c3 suf]]]] eqn:Hu;
      try (unfold jslength in Hl; cbn [List.length] in Hl; lia).
    inversion Hb as [|? ? H0 Hb1]; subst.
    inversion Hb1 as [|? ? H1 Hb2]; subst.
    inversion Hb2 as [|? ? H2 Hb3]; subst.
    inversion Hb3 as [|? ? H3 Hb4]; subst.
    change 16 with (8 * 2). change 24 with (8 * 3). change 32 with (8 * 4).
    rewrite (getInt_value b [c0; c1] (c2 :: c3 :: suf) 2 Hc Hu
               ltac:(repeat (apply Forall_cons; [assumption|]); apply Forall_nil) eq_refl ltac:(lia)).
    rewrite (getInt_value b [c0; c1; c2] (c3 :: suf) 3 Hc Hu
               ltac:(repeat (apply Forall_cons; [assumption|]); apply Forall_nil) eq_refl ltac:(lia)).
    rewrite (getInt_value b [c0; c1; c2; c3] suf 4 Hc Hu
               ltac:(repeat (apply Forall_cons; [assumption|]); apply Forall_nil) eq_refl ltac:(lia)).
    rewrite (proj1 (getInt16_bytes _ _ _ _ Hc Hu H0 H1)).
    rewrite (proj1 (getInt24_bytes _ _ _ _ _ Hc Hu H0 H1 H2)).
    rewrite (proj1 (getInt32_bytes _ _ _ _ _ _ Hc Hu H0 H1 H2 H3)).
    unfold is_byte in *.
    repeat split; f_equal; f_equal; apply ToInt32_small;
      cbv [be_value fold_left]; pow_consts; lia.
Qed.

Lemma putInt_getInt_agree_with_fixed_width_witness :
  (Buffer.putInt (mkBuffer [1; 2; 3; 4; 5] 0) 258 16 =
     Ok (Buffer.putInt16 (mkBuffer [1; 2; 3; 4; 5] 0) 258) /\
   Buffer.putInt (mkBuffer [1; 2; 3; 4; 5] 0) 258 24 =
     Ok (Buffer.putInt24 (mkBuffer [1; 2; 3; 4; 5] 0) 258) /\
   Buffer.putInt (mkBuffer [1; 2; 3; 4; 5] 0) 258 32 =
     Ok (Buffer.putInt32 (mkBuffer [1; 2; 3; 4; 5] 0) 258)) /\
  (Buffer.getInt (mkBuffer [1; 2; 3; 4; 5] 0) 16 =
     Buffer.getInt16 (mkBuffer [1; 2; 3; 4; 5] 0) /\
   Buffer.getInt (mkBuffer [1; 2; 3; 4; 5] 0) 24 =
     Buffer.getInt24 (mkBuffer [1; 2; 3; 4; 5] 0) /\
   Buffer.getInt (mkBuffer [1; 2; 3; 4; 5] 0) 32 =
     Buffer.getInt32 (mkBuffer [1; 2; 3; 4; 5] 0)).
Proof.
  apply (putInt_getInt_agree_with_fixed_width (mkBuffer [1; 2; 3; 4; 5] 0) 258).
  - unfold cursor_ok. cbn. lia.
  - unfold unread. cbn. repeat (apply Forall_cons; [unfold is_byte; lia|]).
    apply Forall_nil.
  - vm_compute. discriminate.
Defined.

(** X4. [int32ToBytes(i)] is the four-byte big-endian form of [i] reduced
    modulo [2^32]: four bytes whose unsigned value is [i mod 2^32]; they are
    the bytes [putInt32] appends. *)
Theorem int32ToBytes_big_endian (i : Z) :
  jslength (int32ToBytes i) = 4 /\ Forall is_byte (int32ToBytes i) /\
  be_value (int32ToBytes i) = i mod 2 ^ 32 /\
  forall b, Buffer.putInt32 b i = Buffer.putBytes b (int32ToBytes i).
Proof.
  unfold int32ToBytes. rewrite !fromCharCode_sar_band by lia.
  rewrite fromCharCode_band. cbn [app].
  split; [reflexivity|].
  split; [repeat (apply Forall_cons; [apply mod_byte|]); apply Forall_nil|].
  split.
  - cbv [be_value fold_left]. pose proof (ToInt32_range i) as Hr.
    unfold JS.ToInt32 in *. pow_consts. Z.div_mod_to_equations. lia.
  - intros b. unfold Buffer.putInt32.
    rewrite !fromCharCode_sar_band by lia. now rewrite fromCharCode_band.
Qed.

(** ** Filling and XOR-ing strings *)

Lemma concat_repeat_double (c : jsstring) m :
  List.concat (repeat (c ++ c) m) = List.concat (repeat c (2 * m)).
Proof.
  induction m as [|m IH]; [reflexivity|].
  replace (2 * S m)%nat with (S (S (2 * m))) by lia.
  cbn [repeat List.concat]. rewrite IH. now rewrite app_assoc.
Qed.

Lemma band_1 n : JS.band n 1 = n mod 2.
Proof.
  unfold JS.band. rewrite (ToInt32_small 1) by lia.
  change 1 with (Z.ones 1). rewrite Z.land_ones by lia.
  change (2 ^ 1) with 2. unfold JS.ToInt32. pow_consts.
  Z.div_mod_to_equations. lia.
Qed.

Lemma shru_1 n : JS.shru n 1 = (n mod 2 ^ 32) / 2.
Proof.
  unfold JS.shru, JS.ToUint32. rewrite (Z.mod_small 1 (2 ^ 32)) by lia.
  rewrite (Z.mod_small 1 32) by lia. rewrite Z.shiftr_div_pow2 by lia.
  reflexivity.
Qed.

Lemma fill_loop_step fuel c n s :
  0 < n ->
  fill_loop (S fuel) c n s =
  fill_loop fuel (if (n mod 2 ^ 32) / 2 >? 0 then c ++ c else c)
    ((n mod 2 ^ 32) / 2) (if n mod 2 =? 0 then s else s ++ c).
Proof.
  intros Hn. cbn [fill_loop]. destruct (Z.gtb_spec n 0); [|lia].
  rewrite band_1, shru_1. destruct (n mod 2 =? 0); reflexivity.
Qed.

Lemma fill_loop_stop fuel c n s : n <= 0 -> fill_loop fuel c n s = s.
Proof.
  intros Hn. destruct fuel as [|fuel]; [reflexivity|].
  cbn [fill_loop]. destruct (Z.gtb_spec n 0); [lia|reflexivity].
Qed.

Lemma fill_loop_spec : forall fuel c n s,
  0 <= n < 2 ^ Z.of_nat fuel -> (fuel <= 32)%nat ->
  fill_loop fuel c n s = s ++ List.concat (repeat c (Z.to_nat n)).
Proof.
  induction fuel as [|fuel IH]; intros c n s Hn Hf.
  - change (2 ^ Z.of_nat 0) with 1 in Hn. replace n with 0 by lia.
    cbn. now rewrite app_nil_r.
  - destruct (Z.eq_dec n 0) as [->|Hn0].
    { cbn. now rewrite app_nil_r. }
    rewrite fill_loop_step by lia.
    assert (Hpow : 2 ^ Z.of_nat (S fuel) = 2 * 2 ^ Z.of_nat fuel).
    { rewrite Nat2Z.inj_succ, Z.pow_succ_r by lia. reflexivity. }
    assert (Hle : 2 ^ Z.of_nat (S fuel) <= 2 ^ 32)
      by (apply Z.pow_le_mono_r; lia).
    rewrite (Z.mod_small n (2 ^ 32)) by lia.
    assert (Hhalf : 0 <= n / 2 < 2 ^ Z.of_nat fuel).
    { split; [apply Z.div_pos; lia | apply Z.div_lt_upper_bound; lia]. }
    rewrite IH by (exact Hhalf || lia).
    assert (Hdm : n = 2 * (n / 2) + n mod 2) by (apply Z.div_mod; lia).
    pose proof (Z.mod_pos_bound n 2 ltac:(lia)) as Hm.
    assert (Hq : 0 <= n / 2) by (apply Z.div_pos; lia).
    destruct (Z.gtb_spec (n / 2) 0) as [Hpos|Hzero].
    + rewrite concat_repeat_double.
      destruct (Z.eqb_spec (n mod 2) 0) as [E|E].
      * replace (Z.to_nat n) with (2 * Z.to_nat (n / 2))%nat by lia.
        reflexivity.
      * replace (Z.to_nat n) with (S (2 * Z.to_nat (n / 2))) by lia.
        cbn [repeat List.concat]. now rewrite app_assoc.
    + assert (E0 : n / 2 = 0) by lia. rewrite E0.
      assert (n = 1) by lia. subst n.
      change (Z.to_nat 1) with 1%nat. change (Z.to_nat 0) with 0%nat.
      change (1 mod 2 =? 0) with false. cbn [repeat List.concat].
      now rewrite !app_nil_r.
Qed.

Lemma fill_loop_33 c n s :
  fill_loop 33 c n s =
  s ++ List.concat (repeat c (Z.to_nat (if n >? 0 then n mod 2 ^ 32 else 0))).
Proof.
  destruct (Z.gtb_spec n 0) as [Hn|Hn].
  - change 33%nat with (S 32). rewrite fill_loop_step by lia.
    pose proof (Z.mod_pos_bound n (2 ^ 32) ltac:(lia)) as Hm.
    set (m := n mod 2 ^ 32) in *.
    assert (Hn2 : n mod 2 = m mod 2).
    { subst m. pow_consts. Z.div_mod_to_equations. lia. }
    rewrite Hn2. clearbody m. clear Hn2.
    assert (Hq : 0 <= m / 2 < 2 ^ Z.of_nat 32).
    { change (2 ^ Z.of_nat 32) with (2 ^ 32). pow_consts.
      Z.div_mod_to_equations. lia. }
    rewrite (fill_loop_spec 32 _ (m / 2) _ Hq (le_n 32)). clear Hq.
    assert (Hdm : m = 2 * (m / 2) + m mod 2) by (apply Z.div_mod; lia).
    pose proof (Z.mod_pos_bound m 2 ltac:(lia)) as Hm2.
    destruct (Z.gtb_spec (m / 2) 0) as [Hpos|Hzero].
    + rewrite concat_repeat_double.
      destruct (Z.eqb_spec (m mod 2) 0) as [E|E].
      * replace (Z.to_nat m) with (2 * Z.to_nat (m / 2))%nat by lia.
        reflexivity.
      * replace (Z.to_nat m) with (S (2 * Z.to_nat (m / 2))) by lia.
        cbn [repeat List.concat]. now rewrite app_assoc.
    + assert (E0 : m / 2 = 0) by lia. rewrite E0.
      destruct (Z.eqb_spec (m mod 2) 0) as [E|E].
      * replace m with 0 by lia. change (Z.to_nat 0) with 0%nat.
        cbn [repeat List.concat]. reflexivity.
      * replace m with 1 by lia.
        change (Z.to_nat 1) with 1%nat. change (Z.to_nat 0) with 0%nat.
        cbn [repeat List.concat]. now rewrite !app_nil_r.
  - rewrite fill_loop_stop by lia. cbn [Z.to_nat repeat List.concat].
    now rewrite app_nil_r.
Qed.

Lemma concat_repeat_single (x : Z) m : List.concat (repeat [x] m) = repeat x m.
Proof. induction m as [|m IH]; [reflexivity|]. cbn. now rewrite <- IH. Qed.

(** X5. [fillString(c, n)] is [c] repeated [n] times and
    [fillWithByte(byte, n)] appends [n] copies of the character
    [String.fromCharCode(byte)], whatever the cursor; a count that is not
    positive adds nothing, and a positive count is taken modulo [2^32]
    (the loop shifts it with [>>>]). *)
Theorem fill_repeats_the_pattern (c : jsstring) (b : ByteStringBuffer)
    (byte n : Z) :
  let count := Z.to_nat (if n >? 0 then n mod 2 ^ 32 else 0) in
  fillString c n = List.concat (repeat c count) /\
  ByteBuffer.fillWithByte b byte n =
    mkBuffer (data b ++ repeat (JS.ToUint16 byte) count) (read b).
Proof.
  cbv zeta. unfold fillString, ByteBuffer.fillWithByte.
  rewrite !fill_loop_33. unfold fromCharCode.
  now rewrite concat_repeat_single.
Qed.

(** The character [xorBytes] computes at index [k]. *)
Lemma xorBytes_loop_spec s1 s2 : forall fuel n j s3 t c,
  (Z.to_nat n <= fuel)%nat ->
  xorBytes_loop fuel s1 s2 n (Z.of_nat j) s3 t c =
  s3 ++ t ++
  map (fun k => JS.ToUint16 (JS.bxor (nan0 (charCodeAt s1 (Z.of_nat k)))
                                     (nan0 (charCodeAt s2 (Z.of_nat k)))))
      (seq j (Z.to_nat n)).
Proof.
  induction fuel as [|fuel IH]; intros n j s3 t c Hf.
  - replace (Z.to_nat n) with 0%nat by lia. cbn. now rewrite app_nil_r.
  - cbn [xorBytes_loop]. destruct (Z.gtb_spec n 0) as [Hn|Hn].
    + replace (Z.of_nat j + 1) with (Z.of_nat (S j)) by lia.
      replace (Z.to_nat n) with (S (Z.to_nat (n - 1))) by lia.
      cbn [seq map].
      destruct (c >=? 10); rewrite IH by lia; unfold fromCharCode;
        rewrite <- ?app_assoc; cbn [app]; reflexivity.
    + replace (Z.to_nat n) with 0%nat by lia. cbn. now rewrite app_nil_r.
Qed.

Lemma lxor_byte a b : is_byte a -> is_byte b -> is_byte (Z.lxor a b).
Proof.
  unfold is_byte. intros Ha Hb.
  assert (H0 : 0 <= Z.lxor a b) by (apply Z.lxor_nonneg; lia).
  split; [exact H0|].
  destruct (Z.eq_dec (Z.lxor a b) 0) as [->|Hnz]; [lia|].
  change 256 with (2 ^ 8). apply Z.log2_lt_pow2; [lia|].
  pose proof (Z.log2_lxor a b ltac:(lia) ltac:(lia)) as Hl.
  assert (Ha8 : Z.log2 a < 8).
  { destruct (Z.eq_dec a 0) as [->|]; [cbn; lia|].
    apply Z.log2_lt_pow2; [lia|]. change (2 ^ 8) with 256. lia. }
  assert (Hb8 : Z.log2 b < 8).
  { destruct (Z.eq_dec b 0) as [->|]; [cbn; lia|].
    apply Z.log2_lt_pow2; [lia|]. change (2 ^ 8) with 256. lia. }
  lia.
Qed.

Lemma charCodeAt_cons a (s : jsstring) k :
  charCodeAt (a :: s) (Z.of_nat (S k)) = charCodeAt s (Z.of_nat k).
Proof.
  unfold charCodeAt.
  destruct (Z.ltb_spec (Z.of_nat (S k)) 0); [lia|].
  destruct (Z.ltb_spec (Z.of_nat k) 0); [lia|].
  rewrite !Nat2Z.id. reflexivity.
Qed.

Lemma xor_chars_bytes : forall m s1 s2,
  Forall is_byte s1 -> Forall is_byte s2 ->
  (m <= List.length s1)%nat -> (m <= List.length s2)%nat ->
  map (fun k => JS.ToUint16 (JS.bxor (nan0 (charCodeAt s1 (Z.of_nat k)))
                                     (nan0 (charCodeAt s2 (Z.of_nat k)))))
      (seq 0 m) =
  firstn m (map (fun p => Z.lxor (fst p) (snd p)) (combine s1 s2)).
Proof.
  induction m as [|m IH]; intros s1 s2 H1 H2 L1 L2; [reflexivity|].
  destruct s1 as [|a s1]; [cbn in L1; lia|].
  destruct s2 as [|b s2]; [cbn in L2; lia|].
  inversion H1 as [|? ? Ha H1']; subst. inversion H2 as [|? ? Hb H2']; subst.
  cbn [seq map combine firstn fst snd]. f_equal.
  - change (Z.of_nat 0) with 0. cbn [charCodeAt Z.ltb Z.compare Z.to_nat
                                     nth_error nan0].
    unfold JS.bxor. unfold is_byte in Ha, Hb.
    rewrite !ToInt32_small by lia.
    apply ToUint16_byte. apply lxor_byte; assumption.
  - rewrite <- seq_shift, map_map.
    rewrite <- (IH s1 s2 H1' H2') by (cbn in L1, L2; lia).
    apply map_ext. intros k. now rewrite !charCodeAt_cons.
Qed.

Lemma Forall_firstn_bytes m (s : jsstring) :
  Forall is_byte s -> Forall is_byte (firstn m s).
Proof.
  revert s. induction m as [|m IH]; intros s H; [constructor|].
  destruct s as [|a s]; [constructor|].
  inversion H; subst. cbn [firstn]. constructor; [assumption|now apply IH].
Qed.

Lemma xor_combine_bytes : forall s1 s2,
  Forall is_byte s1 -> Forall is_byte s2 ->
  Forall is_byte (map (fun p => Z.lxor (fst p) (snd p)) (combine s1 s2)).
Proof.
  induction s1 as [|a s1 IH]; intros s2 H1 H2; [constructor|].
  destruct s2 as [|b s2]; [constructor|].
  inversion H1; subst. inversion H2; subst.
  cbn [combine map fst snd]. constructor; [now apply lxor_byte|now apply IH].
Qed.

Lemma xor_twice : forall m s1 s2,
  (m <= List.length s1)%nat -> (m <= List.length s2)%nat ->
  firstn m (map (fun p => Z.lxor (fst p) (snd p))
              (combine (firstn m (map (fun p => Z.lxor (fst p) (snd p))
                                    (combine s1 s2))) s2)) =
  firstn m s1.
Proof.
  induction m as [|m IH]; intros s1 s2 L1 L2; [reflexivity|].
  destruct s1 as [|a s1]; [cbn in L1; lia|].
  destruct s2 as [|b s2]; [cbn in L2; lia|].
  cbn [combine map firstn fst snd]. f_equal.
  - rewrite Z.lxor_assoc, Z.lxor_nilpotent. apply Z.lxor_0_r.
  - apply IH; cbn in L1, L2; lia.
Qed.

(** X6. On byte strings that both hold at least [n] bytes, [xorBytes]
    returns the XOR of the first [n] bytes position by position, as one
    string of [n] bytes; applying it again with the same second string
    gives back the first [n] bytes of the first one. *)
Theorem xorBytes_bytewise_and_involutive (s1 s2 : jsstring) (n : Z) :
  Forall is_byte s1 -> Forall is_byte s2 ->
  0 <= n <= jslength s1 -> n <= jslength s2 ->
  xorBytes s1 s2 n =
    firstn (Z.to_nat n)
      (map (fun p => Z.lxor (fst p) (snd p)) (combine s1 s2)) /\
  jslength (xorBytes s1 s2 n) = n /\
  xorBytes (xorBytes s1 s2 n) s2 n = firstn (Z.to_nat n) s1.
Proof.
  intros H1 H2 L1 L2. unfold jslength in L1, L2.
  assert (E : forall a b, Forall is_byte a -> Forall is_byte b ->
            (Z.to_nat n <= List.length a)%nat ->
            (Z.to_nat n <= List.length b)%nat ->
            xorBytes a b n =
            firstn (Z.to_nat n)
              (map (fun p => Z.lxor (fst p) (snd p)) (combine a b))).
  { intros a b Ha Hb La Lb. unfold xorBytes.
    change 0 with (Z.of_nat 0) at 1.
    rewrite xorBytes_loop_spec by lia. cbn [app].
    now apply xor_chars_bytes. }
  assert (Hlen : List.length
            (firstn (Z.to_nat n)
               (map (fun p => Z.lxor (fst p) (snd p)) (combine s1 s2))) =
          Z.to_nat n).
  { rewrite length_firstn, length_map, length_combine. lia. }
  rewrite (E s1 s2 H1 H2) by lia.
  split; [reflexivity|]. split; [unfold jslength; lia|].
  rewrite E.
  - apply xor_twice; lia.
  - apply Forall_firstn_bytes. now apply xor_combine_bytes.
  - exact H2.
  - lia.
  - lia.
Qed.

Lemma xorBytes_bytewise_and_involutive_witness :
  xorBytes [1; 2; 3] [255; 0; 7; 9] 3 =
    firstn (Z.to_nat 3)
      (map (fun p => Z.lxor (fst p) (snd p)) (combine [1; 2; 3] [255; 0; 7; 9])) /\
  jslength (xorBytes [1; 2; 3] [255; 0; 7; 9] 3) = 3 /\
  xorBytes (xorBytes [1; 2; 3] [255; 0; 7; 9] 3) [255; 0; 7; 9] 3 =
    firstn (Z.to_nat 3) [1; 2; 3].
Proof.
  apply (xorBytes_bytewise_and_involutive [1; 2; 3] [255; 0; 7; 9] 3).
  - repeat (apply Forall_cons; [unfold is_byte; lia|]). apply Forall_nil.
  - repeat (apply Forall_cons; [unfold is_byte; lia|]). apply Forall_nil.
  - unfold jslength. cbn [List.length]. lia.
  - unfold jslength. cbn [List.length]. lia.
Defined.

(** ** Hexadecimal *)

(** What [toHex] writes for one character. *)
Lemma toHex_loop_spec b : forall fuel pre suf rval,
  data b = pre ++ suf -> (List.length suf <= fuel)%nat ->
  ByteBuffer.toHex_loop fuel b (jslength pre) rval =
  rval ++ flat_map (fun c => (if c <? 16 then codes "0" else []) ++ toString16 c) suf.
Proof.
  induction fuel as [|fuel IH]; intros pre suf rval Hd Hf.
  - destruct suf; [|cbn in Hf; lia]. cbn. now rewrite app_nil_r.
  - cbn [ByteBuffer.toHex_loop]. rewrite Hd, jslength_app.
    destruct suf as [|c suf].
    + destruct (Z.ltb_spec (jslength pre) (jslength pre + jslength [])) as [H|H].
      * unfold jslength in H. cbn [List.length] in H. lia.
      * cbn. now rewrite app_nil_r.
    + pose proof (jslength_nonneg pre) as Hp. pose proof (jslength_nonneg suf) as Hs.
      rewrite jslength_cons.
      destruct (Z.ltb_spec (jslength pre) (jslength pre + (1 + jslength suf)));
        [|lia].
      assert (Hc : charCodeAt (pre ++ c :: suf) (jslength pre) = Some c).
      { unfold charCodeAt. destruct (Z.ltb_spec (jslength pre) 0); [lia|].
        unfold jslength. rewrite Nat2Z.id.
        rewrite nth_error_app2 by lia. now rewrite Nat.sub_diag. }
      rewrite Hc.
      replace (jslength pre + 1) with (jslength (pre ++ [c]))
        by (rewrite jslength_app; reflexivity).
      rewrite (IH (pre ++ [c]) suf)
        by (rewrite ?Hd, <- ?app_assoc; cbn in Hf |- *; (reflexivity || lia)).
      cbn [flat_map]. destruct (c <? 16); rewrite <- ?app_assoc; reflexivity.
Qed.

Lemma toHex_unread b :
  cursor_ok b ->
  ByteBuffer.toHex b =
  flat_map (fun c => (if c <? 16 then codes "0" else []) ++ toString16 c)
           (unread b).
Proof.
  intros Hc. destruct (unread_split b Hc) as [Hd Hl].
  unfold ByteBuffer.toHex. rewrite <- Hl at 2.
  rewrite (toHex_loop_spec b _ _ (unread b) [] Hd); [reflexivity|].
  pose proof (unread_length b Hc) as Hu. unfold Buffer.length in Hu.
  unfold jslength in Hu |- *. lia.
Qed.

(** The two digits of every byte, and what [parseInt] reads from them. *)
Lemma hex_byte_table :
  forallb (fun n =>
    let c := Z.of_nat n in
    match (if c <? 16 then codes "0" else []) ++ toString16 c with
    | [a; b] =>
        match parseInt16 [a; b] with
        | Some v => v =? c
        | None => false
        end
    | _ => false
    end) (seq 0 256) = true.
Proof. vm_compute. reflexivity. Qed.

Lemma hex_byte c :
  is_byte c ->
  exists a b,
    (if c <? 16 then codes "0" else []) ++ toString16 c = [a; b] /\
    parseInt16 [a; b] = Some c.
Proof.
  intros Hc. unfold is_byte in Hc.
  pose proof (proj1 (forallb_forall _ _) hex_byte_table (Z.to_nat c)) as T.
  cbv beta zeta in T. rewrite Z2Nat.id in T by lia.
  specialize (T ltac:(apply in_seq; lia)).
  destruct ((if c <? 16 then codes "0" else []) ++ toString16 c)
    as [|a [|b [|x l]]]; try discriminate.
  exists a, b. split; [reflexivity|].
  destruct (parseInt16 [a; b]) as [v|]; [|discriminate].
  apply Z.eqb_eq in T. now subst.
Qed.

Lemma hexToBytes_loop_hex : forall s,
  Forall is_byte s ->
  hexToBytes_loop
    (flat_map (fun c => (if c <? 16 then codes "0" else []) ++ toString16 c) s)
  = s /\
  jslength
    (flat_map (fun c => (if c <? 16 then codes "0" else []) ++ toString16 c) s)
  = 2 * jslength s.
Proof.
  induction s as [|c s IH]; intros H; [split; reflexivity|].
  inversion H as [|? ? Hc Hs]; subst.
  destruct (IH Hs) as [IH1 IH2].
  destruct (hex_byte c Hc) as (a & b & E & P).
  cbn [flat_map]. rewrite E. cbn [app]. split.
  - cbn [hexToBytes_loop]. rewrite P, IH1. cbn [nan0].
    unfold fromCharCode. now rewrite ToUint16_byte.
  - rewrite !jslength_cons, IH2. lia.
Qed.

(** X7. [toHex] writes two hexadecimal digits for each unread byte, and
    [hexToBytes] reads them back: on a buffer of bytes
    [hexToBytes(b.toHex())] is the unread part of [b], and
    [hexToBytes(bytesToHex(s)) = s] for that byte string [s]. *)
Theorem hexToBytes_toHex_roundtrip (b : ByteStringBuffer) :
  cursor_ok b -> Forall is_byte (unread b) ->
  jslength (ByteBuffer.toHex b) = 2 * Buffer.length b /\
  hexToBytes (ByteBuffer.toHex b) = unread b /\
  hexToBytes (bytesToHex (unread b)) = unread b.
Proof.
  intros Hc Hb. rewrite (toHex_unread b Hc).
  destruct (hexToBytes_loop_hex (unread b) Hb) as [E L].
  assert (R : hexToBytes
                (flat_map (fun c => (if c <? 16 then codes "0" else []) ++
                                    toString16 c) (unread b)) = unread b).
  { unfold hexToBytes. rewrite L, band_1.
    replace ((2 * jslength (unread b)) mod 2) with 0
      by (symmetry; rewrite Z.mul_comm; apply Z.mod_mul; lia).
    cbn [Z.eqb]. exact E. }
  split; [now rewrite L, (unread_length b Hc)|]. split; [exact R|].
  unfold bytesToHex.
  rewrite (toHex_unread _ (createBuffer_cursor (unread b))).
  exact R.
Qed.

Lemma hexToBytes_toHex_roundtrip_witness :
  jslength (ByteBuffer.toHex (mkBuffer [0; 15; 16; 255] 0)) =
    2 * Buffer.length (mkBuffer [0; 15; 16; 255] 0) /\
  hexToBytes (ByteBuffer.toHex (mkBuffer [0; 15; 16; 255] 0)) =
    unread (mkBuffer [0; 15; 16; 255] 0) /\
  hexToBytes (bytesToHex (unread (mkBuffer [0; 15; 16; 255] 0))) =
    unread (mkBuffer [0; 15; 16; 255] 0).
Proof.
  apply (hexToBytes_toHex_roundtrip (mkBuffer [0; 15; 16; 255] 0)).
  - unfold cursor_ok. cbn. lia.
  - unfold unread. cbn.
    repeat (apply Forall_cons; [unfold is_byte; lia|]). apply Forall_nil.
Defined.

Lemma parseInt16_leading_zero_table :
  forallb (fun n =>
    nan0 (parseInt16 [48; Z.of_nat n]) =? nan0 (parseInt16 [Z.of_nat n]))
    (seq 0 256) = true.
Proof. vm_compute. reflexivity. Qed.

Lemma parseInt16_leading_zero c :
  nan0 (parseInt16 [48; c]) = nan0 (parseInt16 [c]).
Proof.
  destruct (Z_lt_ge_dec c 0) as [Hneg|Hpos];
    [|destruct (Z_lt_ge_dec c 256) as [Hlow|Hhigh]].
  - assert (D : digit_value c = None).
    { unfold digit_value.
      destruct (Z.leb_spec 48 c); [lia|]. destruct (Z.leb_spec 97 c); [lia|].
      destruct (Z.leb_spec 65 c); [lia|]. reflexivity. }
    unfold parseInt16. cbn [trim_start].
    change (is_white_space 48) with false. cbv iota.
    change (48 =? 45) with false. change (48 =? 43) with false. cbv iota.
    change (48 =? 48) with true. cbn [andb].
    destruct (Z.eqb_spec c 120); [lia|]. destruct (Z.eqb_spec c 88); [lia|].
    cbn [orb]. cbn [parse_digits]. change (digit_value 48) with (Some 0).
    change (0 <? 16) with true. cbv iota. rewrite D.
    destruct (is_white_space c).
    + reflexivity.
    + destruct (Z.eqb_spec c 45); [lia|]. destruct (Z.eqb_spec c 43); [lia|].
      cbn [parse_digits]. rewrite D. reflexivity.
  - pose proof (proj1 (forallb_forall _ _) parseInt16_leading_zero_table
                  (Z.to_nat c)) as T.
    cbv beta in T. rewrite Z2Nat.id in T by lia.
    apply Z.eqb_eq. apply T. apply in_seq. lia.
  - assert (D : digit_value c = None).
    { unfold digit_value.
      destruct (Z.leb_spec c 57); [lia|]. destruct (Z.leb_spec c 122); [lia|].
      destruct (Z.leb_spec c 90); [lia|]. rewrite !andb_false_r. reflexivity. }
    unfold parseInt16. cbn [trim_start].
    change (is_white_space 48) with false. cbv iota.
    change (48 =? 45) with false. change (48 =? 43) with false. cbv iota.
    change (48 =? 48) with true. cbn [andb].
    destruct (Z.eqb_spec c 120); [lia|]. destruct (Z.eqb_spec c 88); [lia|].
    cbn [orb]. cbn [parse_digits]. change (digit_value 48) with (Some 0).
    change (0 <? 16) with true. cbv iota. rewrite D.
    destruct (is_white_space c).
    + reflexivity.
    + destruct (Z.eqb_spec c 45); [lia|]. destruct (Z.eqb_spec c 43); [lia|].
      cbn [parse_digits]. rewrite D. reflexivity.
Qed.

Lemma mod2_odd : forall n : nat,
  ((Z.of_nat n mod 2 =? 1) = Nat.odd n) /\
  ((Z.of_nat (S n) mod 2 =? 1) = Nat.odd (S n)).
Proof.
  induction n as [|n [IH1 IH2]]; [split; reflexivity|].
  split; [exact IH2|].
  replace (Z.of_nat (S (S n))) with (Z.of_nat n + 1 * 2) by lia.
  rewrite Z.mod_add by lia. rewrite IH1. reflexivity.
Qed.

Lemma band_length_odd (s : jsstring) :
  (JS.band (jslength s) 1 =? 1) = Nat.odd (List.length s).
Proof. rewrite band_1. unfold jslength. apply mod2_odd. Qed.

(** X8. A hexadecimal string of odd length is read as if a zero digit were
    put in front of it: its first character alone makes the first byte. *)
Theorem hexToBytes_odd_length_pads_in_front (hex : jsstring) :
  Nat.odd (List.length hex) = true ->
  hexToBytes hex = hexToBytes (48 :: hex).
Proof.
  intros Hodd. unfold hexToBytes. rewrite !band_length_odd, Hodd.
  cbn [List.length]. rewrite Nat.odd_succ, <- Nat.negb_odd, Hodd. cbn [negb].
  destruct hex as [|h0 rest]; [discriminate|].
  cbn [hexToBytes_loop]. now rewrite parseInt16_leading_zero.
Qed.

Lemma hexToBytes_odd_length_pads_in_front_witness :
  hexToBytes (codes "abc") = hexToBytes (48 :: codes "abc").
Proof.
  apply (hexToBytes_odd_length_pads_in_front (codes "abc")). reflexivity.
Defined.

(** ** Base64 *)

Lemma list_ind3 (A : Type) (P : list A -> Prop) :
  P [] -> (forall a, P [a]) -> (forall a b, P [a; b]) ->
  (forall a b c l, P l -> P (a :: b :: c :: l)) ->
  forall l, P l.
Proof.
  intros H0 H1 H2 H3.
  assert (H : forall l, P l /\ (forall a, P (a :: l)) /\
                        (forall a b, P (a :: b :: l))).
  { induction l as [|x l (IHa & IHb & IHc)].
    - repeat split; auto.
    - split; [apply IHb|]. split; [intros a; apply IHc|].
      intros a b. apply H3. exact IHa. }
  intros l. apply H.
Qed.

Lemma alphabet_table :
  forallb (fun a => alphabet_check (Z.of_nat a)) (seq 0 64) = true.
Proof. vm_compute. reflexivity. Qed.

Lemma alphabet_sextet e :
  0 <= e < 64 ->
  exists x, charAt _base64 e = [x] /\ is_base64_char x = true /\
            x <> 61 /\ base64_index (Some x) = Some e.
Proof.
  intros He.
  pose proof (proj1 (forallb_forall _ _) alphabet_table (Z.to_nat e)) as T.
  cbv beta in T. rewrite Z2Nat.id in T by lia.
  specialize (T ltac:(apply in_seq; lia)). unfold alphabet_check in T.
  destruct (charAt _base64 e) as [|x [|y l]]; try discriminate.
  exists x. apply andb_prop in T. destruct T as [T1 T3].
  apply andb_prop in T1. destruct T1 as [T1 T2].
  destruct (base64_index (Some x)) as [e'|]; [|discriminate].
  apply Z.eqb_eq in T3. subst e'.
  destruct (Z.eqb_spec x 61); [discriminate|].
  repeat split; assumption.
Qed.

Lemma sar_small x k :
  0 <= x < 2 ^ 31 -> 0 <= k < 32 -> JS.sar x k = x / 2 ^ k.
Proof. intros Hx Hk. rewrite sar_div by lia. now rewrite ToInt32_small by lia. Qed.

Lemma band_mask x j :
  0 <= x < 2 ^ 31 -> 0 <= j < 31 -> JS.band x (Z.ones j) = x mod 2 ^ j.
Proof.
  intros Hx Hj. unfold JS.band.
  assert (Hp : 0 < 2 ^ j < 2 ^ 31)
    by (split; [apply Z.pow_pos_nonneg; lia | apply Z.pow_lt_mono_r; lia]).
  rewrite (ToInt32_small (Z.ones j)) by (rewrite Z.ones_equiv; lia).
  rewrite ToInt32_small by lia. apply Z.land_ones. lia.
Qed.

Lemma bor_shl_add x k y :
  0 <= k < 31 -> 0 <= x -> x * 2 ^ k < 2 ^ 31 -> 0 <= y < 2 ^ k ->
  JS.bor (JS.shl x k) y = x * 2 ^ k + y.
Proof.
  intros Hk Hx Hxk Hy.
  assert (Hp : 0 < 2 ^ k < 2 ^ 31)
    by (split; [apply Z.pow_pos_nonneg; lia | apply Z.pow_lt_mono_r; lia]).
  assert (Hx31 : x < 2 ^ 31) by nia.
  rewrite shl_mul by lia. rewrite (ToInt32_small x) by lia.
  rewrite (ToInt32_small (x * 2 ^ k)) by nia.
  unfold JS.bor. rewrite !ToInt32_small by nia.
  pose proof (Z.add_lor_land (x * 2 ^ k) y) as E.
  rewrite (land_disjoint (x * 2 ^ k) y k) in E
    by (lia || apply Z.mod_mul; lia).
  lia.
Qed.

Ltac small_consts :=
  change (2 ^ 2) with 4 in *; change (2 ^ 4) with 16 in *;
  change (2 ^ 6) with 64 in *; change (2 ^ 31) with 2147483648 in *.

Lemma encode_sextets c1 c2 c3 :
  is_byte c1 -> is_byte c2 -> is_byte c3 ->
  JS.sar c1 2 = c1 / 4 /\
  JS.bor (JS.shl (JS.band c1 3) 4) (JS.sar c2 4) = (c1 mod 4) * 16 + c2 / 16 /\
  JS.bor (JS.shl (JS.band c2 15) 2) (JS.sar c3 6) = (c2 mod 16) * 4 + c3 / 64 /\
  JS.band c3 63 = c3 mod 64.
Proof.
  unfold is_byte. intros H1 H2 H3.
  change 3 with (Z.ones 2). change 15 with (Z.ones 4). change 63 with (Z.ones 6).
  rewrite !band_mask by (small_consts; lia).
  rewrite !sar_small by (small_consts; lia).
  rewrite !bor_shl_add
    by (small_consts; (lia || (Z.div_mod_to_equations; lia))).
  small_consts. repeat split; reflexivity.
Qed.

Lemma decode_sextets e1 e2 e3 e4 :
  0 <= e1 < 64 -> 0 <= e2 < 64 -> 0 <= e3 < 64 -> 0 <= e4 < 64 ->
  fromCharCode (JS.bor (JS.shl e1 2) (JS.sar e2 4)) = [e1 * 4 + e2 / 16] /\
  fromCharCode (JS.bor (JS.shl (JS.band e2 15) 4) (JS.sar e3 2)) =
    [(e2 mod 16) * 16 + e3 / 4] /\
  fromCharCode (JS.bor (JS.shl (JS.band e3 3) 6) e4) = [(e3 mod 4) * 64 + e4].
Proof.
  intros H1 H2 H3 H4.
  change 3 with (Z.ones 2). change 15 with (Z.ones 4).
  rewrite !band_mask by (small_consts; lia).
  rewrite !sar_small by (small_consts; lia).
  rewrite !bor_shl_add
    by (small_consts; (lia || (Z.div_mod_to_equations; lia))).
  small_consts. unfold fromCharCode.
  rewrite !ToUint16_byte by (unfold is_byte; Z.div_mod_to_equations; lia).
  repeat split; reflexivity.
Qed.

Lemma sextet_ranges c1 c2 c3 :
  is_byte c1 -> is_byte c2 -> is_byte c3 ->
  0 <= c1 / 4 < 64 /\ 0 <= (c1 mod 4) * 16 + c2 / 16 < 64 /\
  0 <= (c2 mod 16) * 4 + c3 / 64 < 64 /\ 0 <= c3 mod 64 < 64.
Proof. unfold is_byte. intros. Z.div_mod_to_equations. lia. Qed.

Lemma byte_0 : is_byte 0.
Proof. unfold is_byte. lia. Qed.

Lemma base64_index_pad : base64_index (Some 61) = Some 64.
Proof. reflexivity. Qed.

(** A group of three bytes, of two and of one. *)
Lemma group_3 c1 c2 c3 :
  is_byte c1 -> is_byte c2 -> is_byte c3 ->
  exists x1 x2 x3 x4,
    encode64_group c1 (Some c2) (Some c3) = [x1; x2; x3; x4] /\
    forallb is_base64_char [x1; x2; x3; x4] = true /\
    decode64_group (base64_index (Some x1)) (base64_index (Some x2))
                   (base64_index (Some x3)) (base64_index (Some x4)) =
    [c1; c2; c3].
Proof.
  intros H1 H2 H3.
  destruct (encode_sextets c1 c2 c3 H1 H2 H3) as (E1 & E2 & E3 & E4).
  destruct (sextet_ranges c1 c2 c3 H1 H2 H3) as (R1 & R2 & R3 & R4).
  destruct (alphabet_sextet _ R1) as (x1 & A1 & B1 & N1 & I1).
  destruct (alphabet_sextet _ R2) as (x2 & A2 & B2 & N2 & I2).
  destruct (alphabet_sextet _ R3) as (x3 & A3 & B3 & N3 & I3).
  destruct (alphabet_sextet _ R4) as (x4 & A4 & B4 & N4 & I4).
  exists x1, x2, x3, x4. unfold encode64_group. cbn [nan0].
  rewrite E1, E2, E3, E4, A1, A2, A3, A4. split; [reflexivity|].
  split; [cbn [forallb]; now rewrite B1, B2, B3, B4|].
  rewrite I1, I2, I3, I4. unfold decode64_group. cbn [nan0 is_64].
  destruct (decode_sextets _ _ _ _ R1 R2 R3 R4) as (D1 & D2 & D3).
  rewrite D1, D2, D3.
  destruct (Z.eqb_spec ((c2 mod 16) * 4 + c3 / 64) 64); [lia|].
  destruct (Z.eqb_spec (c3 mod 64) 64); [lia|]. cbn [negb app].
  unfold is_byte in *. repeat f_equal; Z.div_mod_to_equations; lia.
Qed.

Lemma group_2 c1 c2 :
  is_byte c1 -> is_byte c2 ->
  exists x1 x2 x3,
    encode64_group c1 (Some c2) None = [x1; x2; x3; 61] /\
    forallb is_base64_char [x1; x2; x3; 61] = true /\
    decode64_group (base64_index (Some x1)) (base64_index (Some x2))
                   (base64_index (Some x3)) (base64_index (Some 61)) =
    [c1; c2].
Proof.
  intros H1 H2.
  destruct (encode_sextets c1 c2 0 H1 H2 byte_0) as (E1 & E2 & E3 & _).
  destruct (sextet_ranges c1 c2 0 H1 H2 byte_0) as (R1 & R2 & R3 & R4).
  destruct (alphabet_sextet _ R1) as (x1 & A1 & B1 & N1 & I1).
  destruct (alphabet_sextet _ R2) as (x2 & A2 & B2 & N2 & I2).
  destruct (alphabet_sextet _ R3) as (x3 & A3 & B3 & N3 & I3).
  exists x1, x2, x3. unfold encode64_group. cbn [nan0].
  rewrite E1, E2, E3, A1, A2, A3. split; [reflexivity|].
  split; [cbn [forallb]; now rewrite B1, B2, B3|].
  rewrite I1, I2, I3, base64_index_pad. unfold decode64_group.
  cbn [nan0 is_64].
  destruct (decode_sextets _ _ _ _ R1 R2 R3 R4) as (D1 & D2 & _).
  rewrite D1, D2.
  destruct (Z.eqb_spec ((c2 mod 16) * 4 + 0 / 64) 64); [lia|].
  change (64 =? 64) with true. cbn [negb app].
  unfold is_byte in *. repeat f_equal; Z.div_mod_to_equations; lia.
Qed.

Lemma group_1 c1 :
  is_byte c1 ->
  exists x1 x2,
    encode64_group c1 None None = [x1; x2; 61; 61] /\
    forallb is_base64_char [x1; x2; 61; 61] = true /\
    decode64_group (base64_index (Some x1)) (base64_index (Some x2))
                   (base64_index (Some 61)) (base64_index (Some 61)) =
    [c1].
Proof.
  intros H1.
  destruct (encode_sextets c1 0 0 H1 byte_0 byte_0) as (E1 & E2 & _ & _).
  destruct (sextet_ranges c1 0 0 H1 byte_0 byte_0) as (R1 & R2 & R3 & R4).
  destruct (alphabet_sextet _ R1) as (x1 & A1 & B1 & N1 & I1).
  destruct (alphabet_sextet _ R2) as (x2 & A2 & B2 & N2 & I2).
  exists x1, x2. unfold encode64_group. cbn [nan0].
  rewrite E1, E2, A1, A2. split; [reflexivity|].
  split; [cbn [forallb]; now rewrite B1, B2|].
  rewrite I1, I2, base64_index_pad. unfold decode64_group.
  cbn [nan0 is_64].
  destruct (decode_sextets _ _ _ _ R1 R2 R3 R4) as (D1 & _ & _).
  rewrite D1. change (64 =? 64) with true. cbn [negb app].
  unfold is_byte in *. repeat f_equal; Z.div_mod_to_equations; lia.
Qed.

Lemma filter_all (f : Z -> bool) (l : list Z) :
  forallb f l = true -> filter f l = l.
Proof.
  induction l as [|x l IH]; [reflexivity|]. cbn [forallb filter].
  intros H. apply andb_prop in H. destruct H as [Hx Hl].
  rewrite Hx. now rewrite IH.
Qed.

(** Wrapping a line moves characters from [line] to [output] and adds a
    CR LF, which [decode64] drops. *)
Lemma encode64_wrap_filter maxline line output :
  (forall m, maxline = Some m -> 0 <= m) ->
  filter is_base64_char (snd (encode64_wrap maxline line output)) ++
  filter is_base64_char (fst (encode64_wrap maxline line output)) =
  filter is_base64_char output ++ filter is_base64_char line.
Proof.
  intros Hm. unfold encode64_wrap. destruct maxline as [m|]; [|reflexivity].
  specialize (Hm m eq_refl).
  destruct (Z.eqb_spec m 0) as [E|E]; cbn [negb andb]; [reflexivity|].
  destruct (Z.gtb_spec (jslength line) m) as [G|G]; [|reflexivity].
  cbn [fst snd]. unfold substr.
  destruct (Z.ltb_spec m 0); [lia|]. cbn [Z.ltb Z.compare].
  rewrite (Z.min_l m) by lia. rewrite (Z.min_l 0) by lia.
  rewrite (Z.max_l m 0) by lia. rewrite Z.sub_0_r. rewrite (Z.min_l m) by lia.
  cbn [Z.to_nat skipn].
  replace (firstn (Z.to_nat (jslength line - m)) (skipn (Z.to_nat m) line))
    with (skipn (Z.to_nat m) line)
    by (symmetry; apply firstn_all2; rewrite length_skipn;
        unfold jslength; lia).
  rewrite !filter_app. cbn [filter]. change (is_base64_char 13) with false.
  change (is_base64_char 10) with false. cbv iota.
  rewrite app_nil_r, <- app_assoc. f_equal.
  rewrite <- filter_app. now rewrite firstn_skipn.
Qed.

Lemma encode64_loop_plain : forall input line output,
  encode64_loop input None line output =
  output ++ line ++ encode64_loop input None [] [].
Proof.
  induction input as [|a|a b|a b c l IH] using list_ind3; intros line output;
    cbn [encode64_loop encode64_wrap app].
  - now rewrite app_nil_r.
  - reflexivity.
  - reflexivity.
  - rewrite (IH (line ++ _) output), (IH (encode64_group _ _ _) []).
    cbn [app]. now rewrite <- app_assoc.
Qed.

Lemma encode64_loop_filter maxline :
  (forall m, maxline = Some m -> 0 <= m) ->
  forall input, Forall is_byte input ->
  forall line output,
    filter is_base64_char (encode64_loop input maxline line output) =
    filter is_base64_char output ++ filter is_base64_char line ++
    encode64_loop input None [] [].
Proof.
  intros Hm input. induction input as [|a|a b|a b c l IH] using list_ind3;
    intros Hb line output.
  - cbn [encode64_loop]. now rewrite filter_app, app_nil_r.
  - inversion Hb as [|? ? Ha _]; subst.
    destruct (group_1 a Ha) as (x1 & x2 & E & F & _).
    cbn [encode64_loop encode64_wrap app].
    pose proof (encode64_wrap_filter maxline (line ++ encode64_group a None None)
                  output Hm) as W.
    destruct (encode64_wrap maxline (line ++ encode64_group a None None) output)
      as [line' output'].
    cbn [fst snd] in W. rewrite filter_app, W, filter_app.
    rewrite (filter_all _ _ (eq_trans (f_equal _ E) F)).
    reflexivity.
  - inversion Hb as [|? ? Ha Hb']; subst. inversion Hb' as [|? ? Hb0 _]; subst.
    destruct (group_2 a b Ha Hb0) as (x1 & x2 & x3 & E & F & _).
    cbn [encode64_loop encode64_wrap app].
    pose proof (encode64_wrap_filter maxline
                  (line ++ encode64_group a (Some b) None) output Hm) as W.
    destruct (encode64_wrap maxline (line ++ encode64_group a (Some b) None)
                output) as [line' output'].
    cbn [fst snd] in W. rewrite filter_app, W, filter_app.
    rewrite (filter_all _ _ (eq_trans (f_equal _ E) F)).
    reflexivity.
  - inversion Hb as [|? ? Ha Hb']; subst. inversion Hb' as [|? ? Hb0 Hb'']; subst.
    inversion Hb'' as [|? ? Hc0 Hl]; subst.
    destruct (group_3 a b c Ha Hb0 Hc0) as (x1 & x2 & x3 & x4 & E & F & _).
    cbn [encode64_loop encode64_wrap app].
    pose proof (encode64_wrap_filter maxline
                  (line ++ encode64_group a (Some b) (Some c)) output Hm) as W.
    destruct (encode64_wrap maxline
                (line ++ encode64_group a (Some b) (Some c)) output)
      as [line' output'].
    cbn [fst snd] in W.
    rewrite (IH Hl line' output').
    rewrite (encode64_loop_plain l (encode64_group a (Some b) (Some c)) []).
    rewrite app_assoc, W, filter_app.
    rewrite (filter_all _ _ (eq_trans (f_equal _ E) F)).
    cbn [app]. now rewrite <- !app_assoc.
Qed.

Lemma decode64_plain : forall input,
  Forall is_byte input ->
  decode64_loop (encode64_loop input None [] []) = input /\
  jslength (encode64_loop input None [] []) = 4 * ((jslength input + 2) / 3).
Proof.
  induction input as [|a|a b|a b c l IH] using list_ind3; intros Hb.
  - split; reflexivity.
  - inversion Hb as [|? ? Ha _]; subst.
    destruct (group_1 a Ha) as (x1 & x2 & E & _ & D).
    cbn [encode64_loop encode64_wrap app]. rewrite E. cbn [app decode64_loop].
    rewrite app_nil_r. split; [exact D|reflexivity].
  - inversion Hb as [|? ? Ha Hb']; subst. inversion Hb' as [|? ? Hb0 _]; subst.
    destruct (group_2 a b Ha Hb0) as (x1 & x2 & x3 & E & _ & D).
    cbn [encode64_loop encode64_wrap app]. rewrite E. cbn [app decode64_loop].
    rewrite app_nil_r. split; [exact D|reflexivity].
  - inversion Hb as [|? ? Ha Hb']; subst. inversion Hb' as [|? ? Hb0 Hb'']; subst.
    inversion Hb'' as [|? ? Hc0 Hl]; subst.
    destruct (group_3 a b c Ha Hb0 Hc0) as (x1 & x2 & x3 & x4 & E & F & D).
    destruct (IH Hl) as [IH1 IH2].
    cbn [encode64_loop encode64_wrap app].
    rewrite (encode64_loop_plain l (encode64_group a (Some b) (Some c)) []).
    rewrite E. cbn [app]. split.
    + cbn [decode64_loop]. now rewrite D, IH1.
    + rewrite !jslength_cons, IH2.
      pose proof (jslength_nonneg l). Z.div_mod_to_equations. lia.
Qed.

(** X9. [decode64] undoes [encode64] on every byte string, with or without
    line breaks: for a byte string [s] and a line length that is omitted or
    not negative, [decode64(encode64(s, maxline)) = s].  Without [maxline]
    the encoding has four characters, all of the base64 alphabet, for every
    three bytes begun. *)
Theorem decode64_encode64_roundtrip (s : jsstring) (maxline : option Z) :
  Forall is_byte s ->
  (forall m, maxline = Some m -> 0 <= m) ->
  decode64 (encode64 s maxline) = s /\
  jslength (encode64 s None) = 4 * ((jslength s + 2) / 3) /\
  forallb is_base64_char (encode64 s None) = true.
Proof.
  intros Hb Hm. destruct (decode64_plain s Hb) as [D L].
  assert (Hnone : forall m : Z, @None Z = Some m -> 0 <= m) by discriminate.
  split; [|split].
  - unfold decode64, encode64.
    rewrite (encode64_loop_filter maxline Hm s Hb [] []). exact D.
  - exact L.
  - unfold encode64.
    pose proof (encode64_loop_filter None Hnone s Hb [] []) as P.
    cbn [filter app] in P. rewrite <- P at 1.
    apply forallb_forall. intros x Hx. apply filter_In in Hx. apply Hx.
Qed.

Lemma decode64_encode64_roundtrip_witness :
  decode64 (encode64 (codes "any carnal pleas") (Some 8)) =
    codes "any carnal pleas" /\
  jslength (encode64 (codes "any carnal pleas") None) =
    4 * ((jslength (codes "any carnal pleas") + 2) / 3) /\
  forallb is_base64_char (encode64 (codes "any carnal pleas") None) = true.
Proof.
  apply (decode64_encode64_roundtrip (codes "any carnal pleas") (Some 8)).
  - apply Forall_forall. intros x Hx. unfold is_byte.
    cbn in Hx. repeat (destruct Hx as [<-|Hx]; [lia|]). destruct Hx.
  - intros m E. injection E as <-. lia.
Defined.

(** ** Moving through a buffer *)

Lemma slice_firstn_unread b count :
  cursor_ok b -> 0 <= count ->
  slice (data b) (read b) (read b + Z.min (Buffer.length b) count) =
  firstn (Z.to_nat count) (unread b).
Proof.
  intros Hc Hn. pose proof (unread_length b Hc) as Hl.
  destruct Hc as [H0 H1]. unfold slice, Buffer.length in *.
  destruct (Z.ltb_spec (read b) 0); [lia|].
  destruct (Z.ltb_spec (read b + Z.min (jslength (data b) - read b) count) 0);
    [lia|].
  rewrite (Z.min_l (read b) (jslength (data b))) by lia.
  rewrite (Z.min_l (read b + _) (jslength (data b))) by lia.
  fold (unread b).
  replace (read b + Z.min (jslength (data b) - read b) count - read b)
    with (Z.min (jslength (data b) - read b) count) by lia.
  destruct (Z.le_ge_cases (jslength (data b) - read b) count) as [G|G].
  - rewrite Z.min_l by lia. rewrite <- Hl.
    unfold jslength. rewrite Nat2Z.id. rewrite firstn_all.
    symmetry. apply firstn_all2. unfold jslength in *. lia.
  - now rewrite Z.min_r by lia.
Qed.

(** X10. [getBytes(count)] never reads past the end: for a count that is
    not negative it returns the first [count] unread bytes, or all of them
    when fewer are left, and moves the cursor by what it returned;
    [getBytes()] returns all unread bytes and empties the buffer; and what
    was appended with [putBytes] comes out after what was already there. *)
Theorem getBytes_returns_what_is_left (b : ByteStringBuffer) (count : Z)
    (s : jsstring) :
  cursor_ok b -> 0 <= count ->
  Buffer.getBytes b (Some count) =
    (firstn (Z.to_nat count) (unread b),
     advance b (Z.min (Buffer.length b) count)) /\
  cursor_ok (snd (Buffer.getBytes b (Some count))) /\
  Buffer.getBytes b None = (unread b, mkBuffer [] 0) /\
  fst (Buffer.getBytes (Buffer.putBytes b s) None) = unread b ++ s.
Proof.
  intros Hc Hn.
  assert (Hnone : forall b', cursor_ok b' ->
            Buffer.getBytes b' None = (unread b', mkBuffer [] 0)).
  { intros b' Hc'. unfold Buffer.getBytes, Buffer.clear.
    destruct (Z.eqb_spec (read b') 0) as [E|E].
    - unfold unread. rewrite E. reflexivity.
    - f_equal. unfold slice_from, slice. destruct Hc' as [H0 H1].
      destruct (Z.ltb_spec (read b') 0); [lia|].
      pose proof (jslength_nonneg (data b')).
      destruct (Z.ltb_spec (jslength (data b')) 0); [lia|].
      rewrite !Z.min_l by lia. fold (unread b').
      apply firstn_all2. unfold unread. rewrite length_skipn.
      unfold jslength. lia. }
  assert (Hsome : Buffer.getBytes b (Some count) =
            (firstn (Z.to_nat count) (unread b),
             advance b (Z.min (Buffer.length b) count))).
  { unfold Buffer.getBytes. destruct (Z.eqb_spec count 0) as [E|E]; cbn [negb].
    - subst count. cbn [Z.to_nat firstn].
      pose proof (unread_length b Hc). pose proof (jslength_nonneg (unread b)).
      rewrite Z.min_r by lia. now rewrite advance_0.
    - now rewrite (slice_firstn_unread b count Hc Hn). }
  split; [exact Hsome|]. split.
  - rewrite Hsome. cbn [snd]. apply cursor_ok_advance; [exact Hc|].
    pose proof (unread_length b Hc). pose proof (jslength_nonneg (unread b)).
    lia.
  - split; [now apply Hnone|].
    destruct (unread_putBytes b s Hc) as [Hc' Hu'].
    rewrite (Hnone _ Hc'). exact Hu'.
Qed.

Lemma getBytes_returns_what_is_left_witness :
  Buffer.getBytes (mkBuffer [1; 2; 3] 1) (Some 5) =
    (firstn (Z.to_nat 5) (unread (mkBuffer [1; 2; 3] 1)),
     advance (mkBuffer [1; 2; 3] 1)
       (Z.min (Buffer.length (mkBuffer [1; 2; 3] 1)) 5)) /\
  cursor_ok (snd (Buffer.getBytes (mkBuffer [1; 2; 3] 1) (Some 5))) /\
  Buffer.getBytes (mkBuffer [1; 2; 3] 1) None =
    (unread (mkBuffer [1; 2; 3] 1), mkBuffer [] 0) /\
  fst (Buffer.getBytes (Buffer.putBytes (mkBuffer [1; 2; 3] 1) [4]) None) =
    unread (mkBuffer [1; 2; 3] 1) ++ [4].
Proof.
  apply (getBytes_returns_what_is_left (mkBuffer [1; 2; 3] 1) 5 [4]).
  - unfold cursor_ok. cbn. lia.
  - lia.
Defined.

(** X11. [compact] and [truncate] drop the consumed bytes and put the
    cursor at 0: [compact] keeps all unread bytes, [truncate(count)] keeps
    the unread bytes but the last [count] (none when [count] is at least
    the number left, all when it is negative). *)
Theorem compact_and_truncate_rebase (b : ByteStringBuffer) (count : Z) :
  cursor_ok b ->
  unread (ByteBuffer.compact b) = unread b /\
  read (ByteBuffer.compact b) = 0 /\
  ByteBuffer.truncate b count =
    mkBuffer (firstn (Z.to_nat (Buffer.length b - count)) (unread b)) 0.
Proof.
  intros Hc. pose proof (unread_length b Hc) as Hl.
  destruct Hc as [H0 H1]. pose proof (jslength_nonneg (data b)) as Hd.
  assert (Hs : slice_from (data b) (read b) = unread b).
  { unfold slice_from, slice.
    destruct (Z.ltb_spec (read b) 0); [lia|].
    destruct (Z.ltb_spec (jslength (data b)) 0); [lia|].
    rewrite !Z.min_l by lia. fold (unread b).
    apply firstn_all2. unfold Buffer.length, jslength in *. lia. }
  unfold ByteBuffer.compact, ByteBuffer.truncate.
  destruct (Z.gtb_spec (read b) 0) as [G|G].
  - cbn [data read]. rewrite Hs. unfold unread at 1. cbn [data read Z.to_nat skipn].
    split; [reflexivity|]. split; [reflexivity|].
    f_equal. unfold substr.
    destruct (Z.ltb_spec (read b) 0); [lia|].
    rewrite (Z.min_l (read b)) by lia. fold (unread b).
    unfold Buffer.length in *.
    destruct (Z.le_ge_cases (jslength (data b) - read b - count) 0) as [L|L].
    + rewrite (Z.max_l 0) by lia. rewrite Z.max_r by lia.
      rewrite Z.min_l by lia.
      replace (Z.to_nat (jslength (data b) - read b - count)) with 0%nat by lia.
      reflexivity.
    + rewrite (Z.max_r 0) by lia. rewrite Z.max_l by lia.
      destruct (Z.le_ge_cases count 0) as [C|C].
      * rewrite Z.min_r by lia.
        rewrite !firstn_all2; [reflexivity| |]; unfold jslength in *; lia.
      * now rewrite Z.min_l by lia.
  - assert (R : read b = 0) by lia.
    split; [reflexivity|]. split; [exact R|].
    f_equal. unfold substr.
    destruct (Z.ltb_spec (read b) 0); [lia|].
    rewrite (Z.min_l (read b)) by lia. fold (unread b).
    unfold Buffer.length in *.
    destruct (Z.le_ge_cases (jslength (data b) - read b - count) 0) as [L|L].
    + rewrite (Z.max_l 0) by lia. rewrite Z.max_r by lia.
      rewrite Z.min_l by lia.
      replace (Z.to_nat (jslength (data b) - read b - count)) with 0%nat by lia.
      reflexivity.
    + rewrite (Z.max_r 0) by lia. rewrite Z.max_l by lia.
      destruct (Z.le_ge_cases count 0) as [C|C].
      * rewrite Z.min_r by lia.
        rewrite !firstn_all2; [reflexivity| |]; unfold jslength in *; lia.
      * now rewrite Z.min_l by lia.
Qed.

Lemma compact_and_truncate_rebase_witness :
  unread (ByteBuffer.compact (mkBuffer [1; 2; 3; 4] 1)) =
    unread (mkBuffer [1; 2; 3; 4] 1) /\
  read (ByteBuffer.compact (mkBuffer [1; 2; 3; 4] 1)) = 0 /\
  ByteBuffer.truncate (mkBuffer [1; 2; 3; 4] 1) 2 =
    mkBuffer (firstn (Z.to_nat (Buffer.length (mkBuffer [1; 2; 3; 4] 1) - 2))
                (unread (mkBuffer [1; 2; 3; 4] 1))) 0.
Proof.
  apply (compact_and_truncate_rebase (mkBuffer [1; 2; 3; 4] 1) 2).
  unfold cursor_ok. cbn. lia.
Defined.

Lemma substr_prefix (s : jsstring) k :
  0 <= k -> substr s 0 (Some k) = firstn (Z.to_nat k) s.
Proof.
  intros Hk. unfold substr. cbn [Z.ltb Z.compare].
  pose proof (jslength_nonneg s) as Hs.
  rewrite (Z.min_l 0 (jslength s)) by lia.
  rewrite Z.max_l by lia. rewrite Z.sub_0_r. cbn [Z.to_nat skipn].
  destruct (Z.le_ge_cases k (jslength s)) as [L|L].
  - now rewrite Z.min_l by lia.
  - rewrite Z.min_r by lia. unfold jslength. rewrite Nat2Z.id, firstn_all.
    symmetry. apply firstn_all2. unfold jslength in L. lia.
Qed.

Lemma substr_suffix (s : jsstring) k :
  0 <= k -> substr s k None = skipn (Z.to_nat k) s.
Proof.
  intros Hk. unfold substr. destruct (Z.ltb_spec k 0); [lia|].
  pose proof (jslength_nonneg s) as Hs.
  destruct (Z.le_ge_cases k (jslength s)) as [L|L].
  - rewrite Z.min_l by lia. apply firstn_all2. rewrite length_skipn.
    unfold jslength. lia.
  - rewrite Z.min_r by lia. rewrite Z.sub_diag. cbn [Z.to_nat firstn].
    symmetry. apply skipn_all2. unfold jslength in L. lia.
Qed.

(** X12. [setAt(i, x)] with [i >= 0] replaces the unread byte at index [i]
    by the character of [x] and leaves the cursor and every other byte
    alone; at or beyond the end it appends the character instead (the
    buffer grows by one, whatever [i] is).  [at] reads the new character
    back at [i], or at the old length in the second case. *)
Theorem setAt_replaces_one_byte (b : ByteStringBuffer) (i x : Z) :
  cursor_ok b -> 0 <= i ->
  read (ByteBuffer.setAt b i x) = read b /\
  unread (ByteBuffer.setAt b i x) =
    firstn (Z.to_nat i) (unread b) ++
    JS.ToUint16 x :: skipn (Z.to_nat (i + 1)) (unread b) /\
  ByteBuffer.at_ (ByteBuffer.setAt b i x) (Z.min i (Buffer.length b)) =
    Ok (JS.ToUint16 x).
Proof.
  intros Hc Hi. pose proof (unread_length b Hc) as Hl.
  pose proof Hc as [H0 H1].
  assert (Hu : unread (ByteBuffer.setAt b i x) =
               firstn (Z.to_nat i) (unread b) ++
               JS.ToUint16 x :: skipn (Z.to_nat (i + 1)) (unread b)).
  { unfold ByteBuffer.setAt, unread. cbn [data read].
    rewrite substr_prefix, substr_suffix by lia. unfold fromCharCode.
    rewrite skipn_app. rewrite skipn_firstn_comm.
    replace (Z.to_nat (read b + i) - Z.to_nat (read b))%nat with (Z.to_nat i)
      by lia.
    rewrite length_firstn.
    replace (Z.to_nat (read b) -
             Nat.min (Z.to_nat (read b + i)) (List.length (data b)))%nat
      with 0%nat by (unfold jslength in H1; lia).
    cbn [skipn app]. rewrite skipn_skipn.
    replace (Z.to_nat (i + 1) + Z.to_nat (read b))%nat
      with (Z.to_nat (read b + i + 1)) by lia.
    reflexivity. }
  assert (Hc' : cursor_ok (ByteBuffer.setAt b i x)).
  { unfold cursor_ok, ByteBuffer.setAt. cbn [data read].
    rewrite substr_prefix, substr_suffix by lia. unfold fromCharCode.
    rewrite !jslength_app. unfold jslength at 1 2.
    rewrite length_firstn. cbn [List.length].
    pose proof (jslength_nonneg (skipn (Z.to_nat (read b + i + 1)) (data b))).
    unfold jslength in *. lia. }
  split; [reflexivity|]. split; [exact Hu|].
  unfold ByteBuffer.at_.
  replace (read (ByteBuffer.setAt b i x) + Z.min i (Buffer.length b))
    with (read (ByteBuffer.setAt b i x) +
          Z.of_nat (List.length (firstn (Z.to_nat i) (unread b)))).
  - apply codeAt_unread; [exact Hc'|]. rewrite Hu.
    rewrite nth_error_app2 by lia. now rewrite Nat.sub_diag.
  - f_equal. rewrite length_firstn. unfold jslength in Hl. lia.
Qed.

Lemma setAt_replaces_one_byte_witness :
  read (ByteBuffer.setAt (mkBuffer [1; 2; 3; 4] 1) 1 9) =
    read (mkBuffer [1; 2; 3; 4] 1) /\
  unread (ByteBuffer.setAt (mkBuffer [1; 2; 3; 4] 1) 1 9) =
    firstn (Z.to_nat 1) (unread (mkBuffer [1; 2; 3; 4] 1)) ++
    JS.ToUint16 9 ::
    skipn (Z.to_nat (1 + 1)) (unread (mkBuffer [1; 2; 3; 4] 1)) /\
  ByteBuffer.at_ (ByteBuffer.setAt (mkBuffer [1; 2; 3; 4] 1) 1 9)
    (Z.min 1 (Buffer.length (mkBuffer [1; 2; 3; 4] 1))) =
    Ok (JS.ToUint16 9).
Proof.
  apply (setAt_replaces_one_byte (mkBuffer [1; 2; 3; 4] 1) 1 9).
  - unfold cursor_ok. cbn. lia.
  - lia.
Defined.

(* ================================================================== *)
(** * Further properties of the ASN.1 functions *)

(** ** [equals] and [copy] *)

Lemma jsstring_eqb_sym : forall s1 s2, jsstring_eqb s1 s2 = jsstring_eqb s2 s1.
Proof.
  induction s1 as [|c s1 IH]; intros [|c' s2]; try reflexivity.
  cbn [jsstring_eqb]. now rewrite Z.eqb_sym, IH.
Qed.

Lemma jsstring_eqb_eq : forall s1 s2, jsstring_eqb s1 s2 = true -> s1 = s2.
Proof.
  induction s1 as [|c s1 IH]; intros [|c' s2] H; try discriminate;
    [reflexivity|].
  cbn [jsstring_eqb] in H. apply andb_prop in H. destruct H as [Hc Hs].
  apply Z.eqb_eq in Hc. subst. f_equal. now apply IH.
Qed.

Lemma eqb_sym_bool (a b : bool) : Bool.eqb a b = Bool.eqb b a.
Proof. destruct a, b; reflexivity. Qed.

Lemma equals_node_refl : forall o, equals_node o o = true.
Proof.
  induction o as [tc ty c cp v bsc orig IHv _] using Asn1_induction.
  cbn [equals_node]. rewrite !Z.eqb_refl, !eqb_reflx. cbn [andb].
  destruct v as [s|l]; [apply jsstring_eqb_refl|].
  rewrite Nat.eqb_refl. cbn [andb].
  induction IHv as [|x l Hx _ IH]; [reflexivity|].
  cbn [equals_each]. now rewrite Hx.
Qed.

Lemma equals_node_copy options : forall o,
  equals_node o (copy o options) = true /\
  equals_node (copy o options) o = true.
Proof.
  induction o as [tc ty c cp v bsc orig IHv _] using Asn1_induction.
  cbn [copy equals_node]. rewrite !Z.eqb_refl, !eqb_reflx. cbn [andb].
  destruct v as [s|l]; [now rewrite jsstring_eqb_refl|].
  rewrite length_map, Nat.eqb_refl. cbn [andb].
  induction IHv as [|x l [Hx1 Hx2] _ [IH1 IH2]]; [split; reflexivity|].
  cbn [map equals_each]. now rewrite Hx1, Hx2.
Qed.

Lemma equals_node_sym : forall a b, equals_node a b = equals_node b a.
Proof.
  induction a as [tc ty c cp v bsc orig IHv _] using Asn1_induction.
  intros [tc' ty' c' cp' v' bsc' orig']. cbn [equals_node].
  rewrite (Z.eqb_sym tc), (Z.eqb_sym ty), (eqb_sym_bool c), (eqb_sym_bool cp).
  f_equal.
  destruct v as [s|l], v' as [s'|l']; try reflexivity;
    [apply jsstring_eqb_sym|].
  rewrite (Nat.eqb_sym (List.length l)). f_equal.
  revert l'. induction IHv as [|x l Hx _ IH]; intros [|x' l']; try reflexivity.
  cbn [equals_each]. now rewrite Hx, IH.
Qed.

Lemma equals_node_trans : forall a b c,
  equals_node a b = true -> equals_node b c = true -> equals_node a c = true.
Proof.
  induction a as [tc ty k cp v bsc orig IHv _] using Asn1_induction.
  intros [tc' ty' k' cp' v' bsc' orig'] [tc2 ty2 k2 cp2 v2 bsc2 orig2].
  cbn [equals_node]. intros H1 H2.
  repeat (apply andb_prop in H1; let H := fresh "A" in destruct H1 as [H1 H]).
  repeat (apply andb_prop in H2; let H := fresh "B" in destruct H2 as [H2 H]).
  apply Z.eqb_eq in H1, H2, A2, B2. apply eqb_prop in A1, B1, A0, B0. subst.
  rewrite !Z.eqb_refl, !eqb_reflx. cbn [andb].
  destruct v as [s|l], v' as [s'|l'], v2 as [s2|l2]; try discriminate.
  - apply jsstring_eqb_eq in A, B. subst. apply jsstring_eqb_refl.
  - apply andb_prop in A, B. destruct A as [LA EA], B as [LB EB].
    apply Nat.eqb_eq in LA, LB.
    replace (List.length l =? List.length l2)%nat with true
      by (symmetry; apply Nat.eqb_eq; congruence).
    cbn [andb]. revert l' l2 LA LB EA EB.
    induction IHv as [|x l Hx _ IH]; intros [|x' l'] [|x2 l2] LA LB EA EB;
      try reflexivity; try discriminate.
    cbn [equals_each] in *.
    destruct (equals_node x x') eqn:E1; [|discriminate].
    destruct (equals_node x' x2) eqn:E2; [|discriminate].
    rewrite (Hx _ _ E1 E2). cbn [List.length] in LA, LB.
    apply (IH l' l2); congruence.
Qed.

Lemma opt_string_eqb_refl a : opt_string_eqb a a = true.
Proof. destruct a; [apply jsstring_eqb_refl|reflexivity]. Qed.

(** X13. [equals] is an equivalence on nodes, with or without
    [includeBitStringContents]: every node equals itself, the order of the
    two arguments does not matter, and two nodes equal to a third are equal.
    A [copy] of a node equals the node; with [includeBitStringContents] it
    still does when the copy was asked to keep the contents. *)
Theorem equals_is_an_equivalence_and_copy_respects_it :
  (forall o options, equals o o options = true) /\
  (forall a b options, equals a b options = equals b a options) /\
  (forall a b c options,
      equals a b options = true -> equals b c options = true ->
      equals a c options = true) /\
  (forall o how, equals o (copy o how) None = true) /\
  (forall o, equals o (copy o (Some false)) (Some true) = true).
Proof.
  split; [|split; [|split; [|split]]].
  - intros o [[|]|]; unfold equals; rewrite equals_node_refl;
      [apply opt_string_eqb_refl | reflexivity | reflexivity].
  - intros a b [[|]|]; unfold equals; rewrite (equals_node_sym a b);
      [|reflexivity|reflexivity].
    f_equal. destruct (field_get (bitStringContents a)),
      (field_get (bitStringContents b)); cbn [opt_string_eqb];
      try reflexivity. apply jsstring_eqb_sym.
  - intros a b c [[|]|]; unfold equals;
      [|apply equals_node_trans|apply equals_node_trans].
    intros H1 H2. apply andb_prop in H1, H2.
    destruct H1 as [H1 S1], H2 as [H2 S2].
    rewrite (equals_node_trans a b c H1 H2). cbn [andb].
    destruct (field_get (bitStringContents a)) as [x|],
      (field_get (bitStringContents b)) as [y|],
      (field_get (bitStringContents c)) as [z|];
      cbn [opt_string_eqb] in *; try discriminate; try reflexivity.
    apply jsstring_eqb_eq in S1, S2. subst. apply jsstring_eqb_refl.
  - intros o how. unfold equals. apply equals_node_copy.
  - intros o. unfold equals. rewrite (proj1 (equals_node_copy (Some false) o)).
    cbn [andb]. destruct o as [tc ty k cp v bsc orig].
    cbn [copy bitStringContents field_get]. apply opt_string_eqb_refl.
Qed.

Lemma equals_is_an_equivalence_and_copy_respects_it_witness :
  equals (create Class.UNIVERSAL Asn1Type.INTEGER false (VString [1]) None)
         (copy (create Class.UNIVERSAL Asn1Type.INTEGER false (VString [1]) None)
               (Some true))
         (Some true) = true.
Proof.
  destruct equals_is_an_equivalence_and_copy_respects_it
    as (_ & _ & Htrans & _ & _).
  apply (Htrans _
           (create Class.UNIVERSAL Asn1Type.INTEGER false (VString [1]) None) _
           (Some true)); reflexivity.
Defined.

(** ** [toDer] and the saved BIT STRING contents *)

Lemma toDer_create_contents tc ty c v s :
  class_ok tc = true -> 0 <= ty <= 30 -> jslength s < 2 ^ 31 ->
  toDer (create tc ty c v (Some (Present (Some s)))) =
  Ok (mkBuffer ((tc + ty) :: length_octets (jslength s) ++ s) 0).
Proof.
  intros Hcls Hty Hs. unfold create.
  pose proof (equals_node_copy None
                (mkAsn1 tc ty c (c || isArray v) v (Present (Some s)) None))
    as [E _].
  cbn [toDer field_in field_get bind].
  cbn [equals_node copy] in E |- *. rewrite E.
  destruct (tag_byte_facts false tc ty Hcls ltac:(lia)) as (B & Hb & _).
  cbn [bind]. unfold Buffer.putBytes, createBuffer. cbn [data read app].
  rewrite toDer_assemble_octets by assumption.
  rewrite B. do 3 f_equal. lia.
Qed.

(** X14. A node made by [create] with [bitStringContents] is encoded from
    those contents, whatever its [value] holds: the tag byte (class and
    number, without the constructed bit), the length of the contents and
    the contents themselves.  Once the node no longer equals the snapshot
    taken by [create], [toDer] ignores the contents and encodes the node as
    if it had none. *)
Theorem toDer_prefers_unchanged_bitStringContents :
  (forall tc ty c v s,
      class_ok tc = true -> 0 <= ty <= 30 -> jslength s < 2 ^ 31 ->
      toDer (create tc ty c v (Some (Present (Some s)))) =
      Ok (mkBuffer ((tc + ty) :: length_octets (jslength s) ++ s) 0)) /\
  (forall tc ty c cp v x orig,
      equals (mkAsn1 tc ty c cp v (Present x) (Some orig)) orig None = false ->
      toDer (mkAsn1 tc ty c cp v (Present x) (Some orig)) =
      toDer (mkAsn1 tc ty c cp v Absent None)).
Proof.
  split.
  - exact toDer_create_contents.
  - intros tc ty c cp v x orig E. unfold equals in E.
    cbn [toDer field_in field_get]. cbn [equals_node] in E |- *.
    destruct orig as [tc' ty' c' cp' v' b' o']. rewrite E. reflexivity.
Qed.

Lemma toDer_prefers_unchanged_bitStringContents_witness :
  toDer (create Class.UNIVERSAL Asn1Type.BITSTRING false (VString [9; 9])
           (Some (Present (Some [0; 5])))) =
    Ok (mkBuffer ((Class.UNIVERSAL + Asn1Type.BITSTRING) ::
                  length_octets (jslength [0; 5]) ++ [0; 5]) 0) /\
  toDer (mkAsn1 Class.UNIVERSAL Asn1Type.BITSTRING false false (VString [0; 7])
           (Present (Some [0; 5]))
           (Some (mkAsn1 Class.UNIVERSAL Asn1Type.BITSTRING false false
                    (VString [0; 5]) Absent None))) =
    toDer (mkAsn1 Class.UNIVERSAL Asn1Type.BITSTRING false false
             (VString [0; 7]) Absent None).
Proof.
  destruct toDer_prefers_unchanged_bitStringContents as [Hkeep Hdrop]. split.
  - apply (Hkeep Class.UNIVERSAL Asn1Type.BITSTRING false (VString [9; 9])
             [0; 5]); [reflexivity | unfold Asn1Type.BITSTRING; lia |].
    unfold jslength. cbn. lia.
  - apply (Hdrop Class.UNIVERSAL Asn1Type.BITSTRING false false
             (VString [0; 7]) (Some [0; 5])). reflexivity.
Defined.

(** ** [getBerValueLength] *)

Lemma getBerValueLength_agrees b remaining len b' :
  _getValueLength b remaining = Ok (len, b') ->
  getBerValueLength b = Ok (len, b').
Proof.
  unfold _getValueLength, getBerValueLength. intros H.
  destruct (Buffer.getByte b) as [[b2 b0]| |]; cbn [bind] in *;
    try discriminate.
  destruct (b2 =? 128); [exact H|].
  destruct (JS.band b2 128 =? 0).
  - cbn [bind] in H. destruct (b2 <? 0); [discriminate|exact H].
  - destruct (_checkBufferLength b0 (remaining - 1) (JS.band b2 127));
      cbn [bind] in H; try discriminate.
    destruct (Buffer.getInt b0 (JS.shl (JS.band b2 127) 3)) as [[l b1]| |];
      cbn [bind] in *; try discriminate.
    destruct (l <? 0); [discriminate|]. injection H as <- <-. reflexivity.
Qed.

(** X15. [getBerValueLength] returns what [_getValueLength] returns
    whenever the latter returns; it reads back the length octets that
    [toDer] writes for every length below [2^31]; and where
    [_getValueLength] rejects a four-byte length with the high bit set as
    negative, [getBerValueLength] returns that negative number. *)
Theorem getBerValueLength_is_getValueLength_without_checks :
  (forall b remaining len b',
      _getValueLength b remaining = Ok (len, b') ->
      getBerValueLength b = Ok (len, b')) /\
  (forall b len suf,
      cursor_ok b -> unread b = length_octets len ++ suf ->
      0 <= len < 2 ^ 31 ->
      getBerValueLength b =
      Ok (Some len, advance b (jslength (length_octets len)))) /\
  (forall b c0 c1 c2 c3 suf remaining,
      cursor_ok b -> unread b = 132 :: c0 :: c1 :: c2 :: c3 :: suf ->
      128 <= c0 < 256 -> is_byte c1 -> is_byte c2 -> is_byte c3 ->
      5 <= remaining ->
      getBerValueLength b =
        Ok (Some (be_value [c0; c1; c2; c3] - 2 ^ 32), advance b 5) /\
      _getValueLength b remaining =
        Throw (NegativeLengthError (be_value [c0; c1; c2; c3] - 2 ^ 32))).
Proof.
  split; [exact getBerValueLength_agrees|]. split.
  - intros b len suf Hc Hu Hlen.
    apply (getBerValueLength_agrees b (jslength (length_octets len))).
    apply (_getValueLength_octets b _ len suf Hc Hu Hlen). lia.
  - intros b c0 c1 c2 c3 suf remaining Hc Hu H0 H1 H2 H3 Hr.
    unfold getBerValueLength, _getValueLength.
    rewrite (getByte_unread b _ _ Hc Hu). cbn [bind].
    destruct (advance_cons b _ _ Hc Hu) as [Hc1 Hu1].
    change (132 =? 128) with false. change (JS.band 132 128 =? 0) with false.
    change (JS.shl (JS.band 132 127) 3) with (8 * 4).
    change (JS.band 132 127) with 4. cbv iota.
    unfold _checkBufferLength. destruct (Z.gtb_spec 4 (remaining - 1)); [lia|].
    cbn [bind].
    assert (HF : Forall is_byte [c0; c1; c2; c3]).
    { repeat (apply Forall_cons; [unfold is_byte in *; lia|]). apply Forall_nil. }
    rewrite (getInt_value (advance b 1) [c0; c1; c2; c3] suf 4 Hc1 Hu1 HF
               eq_refl ltac:(lia)).
    cbn [bind]. rewrite advance_advance. change (1 + 4) with 5.
    assert (V : JS.ToInt32 (be_value [c0; c1; c2; c3]) =
                be_value [c0; c1; c2; c3] - 2 ^ 32).
    { cbv [be_value fold_left]. unfold JS.ToInt32, is_byte in *. pow_consts.
      Z.div_mod_to_equations. lia. }
    rewrite V.
    assert (N : be_value [c0; c1; c2; c3] - 2 ^ 32 < 0).
    { cbv [be_value fold_left]. unfold is_byte in *. pow_consts. lia. }
    destruct (Z.ltb_spec (be_value [c0; c1; c2; c3] - 2 ^ 32) 0); [|lia].
    split; reflexivity.
Qed.

Lemma getBerValueLength_is_getValueLength_without_checks_witness :
  getBerValueLength (mkBuffer [130; 1; 0; 7] 0) =
    Ok (Some 256, mkBuffer [130; 1; 0; 7] 3) /\
  getBerValueLength (mkBuffer [129; 200] 0) =
    Ok (Some 200, advance (mkBuffer [129; 200] 0)
                    (jslength (length_octets 200))) /\
  getBerValueLength (mkBuffer [132; 255; 255; 255; 254] 0) =
    Ok (Some (be_value [255; 255; 255; 254] - 2 ^ 32),
        advance (mkBuffer [132; 255; 255; 255; 254] 0) 5) /\
  _getValueLength (mkBuffer [132; 255; 255; 255; 254] 0) 5 =
    Throw (NegativeLengthError (be_value [255; 255; 255; 254] - 2 ^ 32)).
Proof.
  destruct getBerValueLength_is_getValueLength_without_checks
    as (Hagree & Hoctets & Hneg).
  split; [|split].
  - apply (Hagree (mkBuffer [130; 1; 0; 7] 0) 4). reflexivity.
  - apply (Hoctets (mkBuffer [129; 200] 0) 200 []).
    + unfold cursor_ok. cbn. lia.
    + reflexivity.
    + lia.
  - apply (Hneg (mkBuffer [132; 255; 255; 255; 254] 0) 255 255 255 254 [] 5).
    + unfold cursor_ok. cbn. lia.
    + reflexivity.
    + lia.
    + unfold is_byte. lia.
    + unfold is_byte. lia.
    + unfold is_byte. lia.
    + lia.
Defined.

(** ** [fromDer]: what it reads, and how it fails *)

(** X16. [fromDer] never reads outside the bytes it was given: started
    with the cursor inside the buffer it returns or throws (no read ever
    yields [NaN] and the parse ends), and when it returns, the buffer
    holds the same bytes, the cursor moved forward by at least two and is
    still inside, and with [parseAllBytes] it is at the end. *)
Theorem fromDer_stays_inside_the_buffer (b : ByteStringBuffer)
    (options : FromDerOptions) :
  cursor_ok b ->
  (forall s, fromDer (inr b) options <> Undef s) /\
  (forall o b',
      fromDer (inr b) options = Ok (o, b') ->
      data b' = data b /\
      read b + 2 <= read b' <= jslength (data b) /\
      (parseAllBytes (resolve_options options) = true ->
       read b' = jslength (data b))).
Proof.
  intros Hc.
  assert (Hpos : 0 <= Buffer.length b)
    by (unfold cursor_ok, Buffer.length in *; lia).
  pose proof (_fromDer_ok (S (Z.to_nat (Buffer.length b)))
                (resolve_options options) 0 b (Buffer.length b) Hc
                ltac:(lia) ltac:(lia)) as H.
  unfold parse_post in H. unfold fromDer.
  destruct (_fromDer _ _ 0 b (Buffer.length b)) as [[o1 b1]|err|st];
    cbn [bind].
  - destruct H as (Hd & Hr & _). split.
    + intros s. destruct (_ && _); discriminate.
    + intros o b'.
      destruct (parseAllBytes (resolve_options options)) eqn:Hp; cbn [andb].
      * destruct (Z.eqb_spec (Buffer.length b1) 0) as [E|E]; cbn [negb];
          [|discriminate].
        intros H. injection H as <- <-. unfold Buffer.length in *.
        rewrite Hd in *. split; [reflexivity|]. split; [lia|intros _; lia].
      * intros H. injection H as <- <-. unfold Buffer.length in *.
        split; [assumption|]. split; [lia|discriminate].
  - split; [intros s; discriminate | intros o b' H'; discriminate].
  - contradiction.
Qed.

Lemma fromDer_stays_inside_the_buffer_witness :
  (forall s, fromDer (inr (mkBuffer [9; 5; 0; 7] 1)) OptionsOmitted <> Undef s) /\
  (forall o b',
      fromDer (inr (mkBuffer [9; 5; 0; 7] 1)) OptionsOmitted = Ok (o, b') ->
      data b' = data (mkBuffer [9; 5; 0; 7] 1) /\
      read (mkBuffer [9; 5; 0; 7] 1) + 2 <= read b'
        <= jslength (data (mkBuffer [9; 5; 0; 7] 1)) /\
      (parseAllBytes (resolve_options OptionsOmitted) = true ->
       read b' = jslength (data (mkBuffer [9; 5; 0; 7] 1)))).
Proof.
  apply (fromDer_stays_inside_the_buffer (mkBuffer [9; 5; 0; 7] 1) OptionsOmitted).
  unfold cursor_ok. cbn. lia.
Defined.

Lemma length_fresh (s : jsstring) : Buffer.length (mkBuffer s 0) = jslength s.
Proof. unfold Buffer.length. cbn [data read]. lia. Qed.

(** Without a primitive BIT STRING in the tree, [decodeBitStrings] has
    nothing to decode: the parser reads the encoding of the tree under any
    options. *)
Lemma _fromDer_der_of_plain : forall o,
  der_tree o = true -> low_tags o = true -> no_bit_string o = true ->
  jslength (der_of o) < 2 ^ 31 ->
  forall fuel options depth b remaining suf,
    cursor_ok b -> unread b = der_of o ++ suf ->
    jslength (der_of o) <= remaining ->
    jslength (der_of o) <= Z.of_nat fuel ->
    _fromDer fuel options depth b remaining =
    Ok (reparsed o, advance b (jslength (der_of o))).
Proof.
  induction o as [tc ty c cp v bsc orig IHv _] using Asn1_induction.
  intros Hd Hl Hnb Hsize fuel options depth b rem suf Hc Hu Hrem Hfuel.
  pose proof (der_of_at_least_2 _ Hl) as Hmin.
  assert (Hfields := Hd). cbn [der_tree] in Hfields.
  repeat (apply andb_prop in Hfields;
          let H := fresh "Hf" in destruct Hfields as [Hfields H]).
  rename Hfields into Hcls. apply Z.leb_le in Hf3.
  assert (Hlow := Hl). cbn [low_tags] in Hlow.
  apply andb_prop in Hlow. destruct Hlow as [Hty Hlow]. apply Z.leb_le in Hty.
  cbn [no_bit_string] in Hnb. apply andb_prop in Hnb. destruct Hnb as [Hnb Hnbs].
  rewrite der_of_low in * by lia. cbv zeta in *.
  set (content := match v with
                  | VArray l => flat_map der_of l
                  | VString s => if ty =? Asn1Type.BMPSTRING then utf16be s else s
                  end) in *.
  set (lo := length_octets (jslength content)) in *.
  rewrite jslength_cons, jslength_app in *.
  pose proof (jslength_nonneg content) as Hn0.
  pose proof (length_octets_nonempty (jslength content)) as Hlo1. fold lo in Hlo1.
  pose proof (tag_byte_facts c tc ty Hcls ltac:(lia)) as Htag. cbv zeta in Htag.
  destruct Htag as (Hb1 & Hbyte & Hrc & Hrt & Hrk).
  replace (if c then JS.bor (JS.bor tc ty) 32 else JS.bor tc ty)
    with (tc + (if c then 32 else 0) + ty) in * by (symmetry; exact Hb1).
  set (t := tc + (if c then 32 else 0) + ty) in *.
  destruct fuel as [|fuel]; [lia|]. cbn [_fromDer].
  unfold _checkBufferLength at 1. destruct (Z.gtb_spec 2 rem); [lia|]. cbn [bind].
  cbn [app] in Hu. rewrite (getByte_unread b t _ Hc Hu). cbn [bind].
  destruct (advance_cons b t _ Hc Hu) as [Hc1 Hu1].
  rewrite <- app_assoc in Hu1.
  rewrite (_getValueLength_octets (advance b 1) (rem - 1) (jslength content)
             (content ++ suf) Hc1 Hu1) by (fold lo; lia).
  cbn [bind]. fold lo.
  destruct (unread_advance (advance b 1) lo _ Hc1 Hu1) as [Hc2 Hu2].
  rewrite advance_advance in *. rewrite !length_advance.
  replace (rem - 1 - (Buffer.length b - 1 - (Buffer.length b - (1 + jslength lo))))
    with (rem - 1 - jslength lo) by lia.
  set (b2 := advance b (1 + jslength lo)) in *.
  unfold clamp_length.
  destruct (Z.gtb_spec (jslength content) (rem - 1 - jslength lo)); [lia|].
  cbn [bind]. rewrite Hrc, Hrt, Hrk.
  assert (Hend : advance b2 (jslength content) =
                 advance b (1 + (jslength lo + jslength content))).
  { unfold b2. rewrite advance_advance. f_equal. lia. }
  destruct v as [s|l].
  - apply andb_prop in Hf. destruct Hf as [Hf _].
    apply andb_prop in Hf. destruct Hf as [Hcf Hs].
    apply negb_true_iff in Hcf. subst c.
    cbn [negb] in Hnb. rewrite andb_true_r in Hnb.
    apply negb_true_iff in Hnb. rewrite Hnb.
    rewrite andb_false_r. cbn [andb bind].
    unfold read_raw_value. cbn [bind]. cbn [reparsed]. rewrite Hnb.
    destruct (Z.eqb_spec ty Asn1Type.BMPSTRING) as [Ebmp|Ebmp].
    + subst content. rewrite utf16be_length in *.
      rewrite (bmp_loop_utf16 s _ b2 _ [] suf Hs Hc2 Hu2)
        by (unfold jslength in *; lia).
      cbn [bind app]. rewrite Hend. reflexivity.
    + subst content.
      rewrite (getBytes_unread b2 s suf Hc2 Hu2). cbn [bind]. rewrite Hend.
      reflexivity.
  - apply andb_prop in Hf. destruct Hf as [Hcf Hall]. subst c.
    unfold parse_children.
    assert (Hkids : forall x, In x l ->
      2 <= jslength (der_of x) /\
      forall b' suf' r,
        cursor_ok b' -> unread b' = der_of x ++ suf' ->
        jslength (der_of x) <= r ->
        _fromDer fuel options (depth + 1) b' r =
        Ok (reparsed x, advance b' (jslength (der_of x)))).
    { intros x Hx. rewrite forallb_forall in Hall, Hlow, Hnbs.
      rewrite Forall_forall in IHv.
      pose proof (flat_map_der_length x l Hx) as Hle. fold content in Hle.
      split; [apply der_of_at_least_2; auto|].
      intros b' suf' r Hcb Hub Hr.
      apply (IHv x Hx (Hall x Hx) (Hlow x Hx) (Hnbs x Hx) ltac:(lia) fuel
               options (depth + 1) b' r suf' Hcb Hub Hr). lia. }
    pose proof (children_count_le_size l (fun x Hx => proj1 (Hkids x Hx))) as Hcount.
    fold content in Hcount.
    destruct (definite_loop_der (_fromDer fuel options (depth + 1)) l fuel b2
                (rem - 1 - jslength lo) [] suf Hkids Hc2 Hu2 ltac:(lia))
      as (rem' & len' & E).
    fold content in E. rewrite E. cbn [bind app]. rewrite Hend.
    cbn [reparsed]. reflexivity.
Qed.




(** X18. A primitive (tag number other than 30) whose declared length, in
    the short form, runs past the end of the input: in strict mode
    [fromDer] throws [TooFewBytesDerError] naming the declared length and
    the bytes left; with [strict: false] it takes the bytes that are left
    as the value -- unless the primitive is a UNIVERSAL BIT STRING read
    with [decodeBitStrings] on, which may be decoded further. *)
Theorem fromDer_truncated_value (t l : Z) (content : jsstring)
    (options : FromDerOptions) :
  JS.band t 32 <> 32 -> JS.band t 31 <> Asn1Type.BMPSTRING ->
  jslength content < l <= 127 ->
  (strict (resolve_options options) = true ->
   fromDer (inl (t :: l :: content)) options =
     Throw (TooFewBytesDerError "Too few bytes to read ASN.1 value."
              (jslength content) (jslength content) l)) /\
  (strict (resolve_options options) = false ->
   decodeBitStrings (resolve_options options) &&
     ((JS.band t 192 =? Class.UNIVERSAL) &&
      (JS.band t 31 =? Asn1Type.BITSTRING)) = false ->
   fromDer (inl (t :: l :: content)) options =
     Ok (create (JS.band t 192) (JS.band t 31) false (VString content)
           (if (JS.band t 192 =? Class.UNIVERSAL) &&
               (JS.band t 31 =? Asn1Type.BITSTRING)
            then Some (Present (Some content)) else None),
         mkBuffer (t :: l :: content) (2 + jslength content))).
Proof.
  intros Hprim Hbmp Hl. pose proof (jslength_nonneg content) as Hn.
  destruct (unread_fresh (t :: l :: content)) as [Hc Hu]. rewrite app_nil_r in Hu.
  assert (Hlen : forall options,
    _fromDer (S (Z.to_nat (jslength (t :: l :: content)))) options 0
      (mkBuffer (t :: l :: content) 0) (jslength (t :: l :: content)) =
    (length <- clamp_length options (mkBuffer (t :: l :: content) 2)
                 (jslength content) (Some l) ;;
     '(value, bytes, remaining) <-
       match length with
       | Some l' =>
           if decodeBitStrings options &&
              ((JS.band t 192 =? Class.UNIVERSAL) &&
               (JS.band t 31 =? Asn1Type.BITSTRING)) && (l' >? 1)
           then decode_bit_string
                  (_fromDer (Z.to_nat (jslength (t :: l :: content)))
                     (mkOptions true false true) (0 + 1))
                  (mkBuffer (t :: l :: content) 2) (jslength content) l'
                  (JS.band t 31)
           else Ok (None, mkBuffer (t :: l :: content) 2, jslength content)
       | None => Ok (None, mkBuffer (t :: l :: content) 2, jslength content)
       end ;;
     match value with
     | Some v =>
         Ok (create (JS.band t 192) (JS.band t 31) false v
               (if (JS.band t 192 =? Class.UNIVERSAL) &&
                   (JS.band t 31 =? Asn1Type.BITSTRING)
                then Some (Present (Some (Buffer.bytes
                                            (mkBuffer (t :: l :: content) 2)
                                            length)))
                else None),
             bytes)
     | None =>
         '(s, bytes, remaining) <-
           read_raw_value options (JS.band t 31) bytes remaining length ;;
         Ok (create (JS.band t 192) (JS.band t 31) false (VString s)
               (if (JS.band t 192 =? Class.UNIVERSAL) &&
                   (JS.band t 31 =? Asn1Type.BITSTRING)
                then Some (Present (Some (Buffer.bytes
                                            (mkBuffer (t :: l :: content) 2)
                                            length)))
                else None),
             bytes)
     end)).
  { intros opts. cbn [_fromDer]. unfold _checkBufferLength at 1.
    rewrite !jslength_cons.
    destruct (Z.gtb_spec 2 (1 + (1 + jslength content))); [lia|]. cbn [bind].
    rewrite (getByte_unread _ t _ Hc Hu). cbn [bind].
    destruct (advance_cons _ t _ Hc Hu) as [Hc1 Hu1].
    unfold _getValueLength.
    rewrite (getByte_unread _ l _ Hc1 Hu1). cbn [bind].
    destruct (Z.eqb_spec l 128); [lia|].
    rewrite band_128_byte by (unfold is_byte; lia).
    destruct (Z.ltb_spec l 128); [|lia]. cbn [Z.eqb bind].
    destruct (Z.ltb_spec l 0); [lia|]. cbn [bind].
    rewrite advance_advance. unfold advance. cbn [data read].
    change (0 + (1 + 1)) with 2. change (0 + 1) with 1.
    unfold Buffer.length. cbn [data read]. rewrite !jslength_cons.
    replace (1 + (1 + jslength content) - 1 -
             (1 + (1 + jslength content) - 1 - (1 + (1 + jslength content) - 2)))
      with (jslength content) by lia.
    destruct (Z.eqb_spec (JS.band t 32) 32); [contradiction|].
    reflexivity. }
  assert (Hc2 : cursor_ok (mkBuffer (t :: l :: content) 2) /\
                unread (mkBuffer (t :: l :: content) 2) = content ++ []).
  { pose proof (unread_advance _ [t; l] content Hc Hu) as H.
    unfold advance in H. cbn [data read] in H.
    change (0 + jslength [t; l]) with 2 in H.
    rewrite app_nil_r. exact H. }
  destruct Hc2 as [Hc2 Hu2].
  unfold fromDer, createBuffer. rewrite length_fresh, Hlen.
  unfold clamp_length.
  destruct (Z.gtb_spec l (jslength content)); [|lia].
  split.
  - intros Hstrict. rewrite Hstrict. cbn [bind].
    unfold Buffer.length. cbn [data read]. rewrite !jslength_cons.
    repeat f_equal; lia.
  - intros Hstrict Hbits. rewrite Hstrict. cbn [bind]. rewrite Hbits.
    cbn [andb bind]. unfold read_raw_value. cbn [bind].
    destruct (Z.eqb_spec (JS.band t 31) Asn1Type.BMPSTRING); [contradiction|].
    rewrite (getBytes_unread _ content [] Hc2 Hu2). cbn [bind].
    unfold Buffer.bytes. rewrite (slice_unread _ content [] Hc2 Hu2).
    unfold advance, Buffer.length. cbn [data read].
    rewrite !jslength_cons.
    replace (1 + (1 + jslength content) - (2 + jslength content)) with 0 by lia.
    cbn [Z.eqb negb]. rewrite andb_false_r. reflexivity.
Qed.

Lemma fromDer_truncated_value_witness :
  fromDer (inl (4 :: 5 :: [1; 2; 3])) OptionsOmitted =
    Throw (TooFewBytesDerError "Too few bytes to read ASN.1 value."
             (jslength [1; 2; 3]) (jslength [1; 2; 3]) 5) /\
  fromDer (inl (4 :: 5 :: [1; 2; 3])) (OptionsStrict false) =
    Ok (create (JS.band 4 192) (JS.band 4 31) false (VString [1; 2; 3])
          (if (JS.band 4 192 =? Class.UNIVERSAL) &&
              (JS.band 4 31 =? Asn1Type.BITSTRING)
           then Some (Present (Some [1; 2; 3])) else None),
        mkBuffer (4 :: 5 :: [1; 2; 3]) (2 + jslength [1; 2; 3])).
Proof.
  split.
  - apply (fromDer_truncated_value 4 5 [1; 2; 3] OptionsOmitted).
    + vm_compute. discriminate.
    + vm_compute. discriminate.
    + vm_compute. split; [reflexivity | discriminate].
    + reflexivity.
  - apply (fromDer_truncated_value 4 5 [1; 2; 3] (OptionsStrict false)).
    + vm_compute. discriminate.
    + vm_compute. discriminate.
    + vm_compute. split; [reflexivity | discriminate].
    + reflexivity.
    + reflexivity.
Defined.

(** ** Indefinite length *)





(** ** A BIT STRING that holds an encoding *)




(** ** Every parsed node can be encoded *)

Lemma putChildren_encodable l : forall acc,
  Forall (fun c => exists der, toDer c = Ok der) l ->
  exists out, putChildren toDer l acc = Ok out.
Proof.
  induction l as [|c l IH]; intros acc H.
  - exists acc. reflexivity.
  - inversion H as [|? ? [der Hc] Hl]; subst. cbn [putChildren].
    rewrite Hc. cbn [bind]. now apply IH.
Qed.

Lemma toDer_encodable : forall o,
  encodable o = true -> exists der, toDer o = Ok der.
Proof.
  induction o as [tc ty c cp v bsc orig IHv _] using Asn1_induction.
  cbn [encodable]. intros H. apply andb_prop in H. destruct H as [Hv Hb].
  cbn [toDer].
  destruct (if field_in bsc
            then match orig with
                 | Some o => equals_node (mkAsn1 tc ty c cp v bsc orig) o
                 | None => true
                 end
            else false) eqn:Huse.
  - destruct bsc as [|[s|]]; try discriminate. cbn [field_get bind]. eauto.
  - destruct v as [s|l].
    + apply negb_true_iff in Hv. subst cp. cbn [bind]. eauto.
    + apply andb_prop in Hv. destruct Hv as [-> Hl].
      assert (Hkids : Forall (fun c => exists der, toDer c = Ok der) l).
      { rewrite Forall_forall in *. rewrite forallb_forall in Hl.
        intros x Hx. apply IHv; auto. }
      destruct c.
      * destruct (putChildren_encodable l (createBuffer None) Hkids) as [out E].
        rewrite E. cbn [bind]. eauto.
      * destruct (putChildren_encodable l
                    (Buffer.putByte (createBuffer None) 0) Hkids) as [out E].
        rewrite E. cbn [bind]. eauto.
Qed.

Section ParsedChildren.

Variable parse : Parser.
Hypothesis parse_encodable :
  forall b r c b', parse b r = Ok (c, b') -> encodable c = true.

Lemma definite_loop_encodable : forall fuel b r len acc l b' r' len',
  forallb encodable acc = true ->
  definite_loop fuel parse b r len acc = Ok (l, b', r', len') ->
  forallb encodable l = true.
Proof.
  induction fuel as [|fuel IH]; intros b r len acc l b' r' len' Hacc H.
  - cbn [definite_loop] in H. destruct (len >? 0); [discriminate|].
    injection H as <- _ _ _. exact Hacc.
  - cbn [definite_loop] in H. destruct (len >? 0).
    + invert_bind H. destruct a as [c b1].
      apply (IH _ _ _ _ _ _ _ _) in H; [exact H|].
      rewrite forallb_app, Hacc. cbn [forallb andb].
      now rewrite (parse_encodable _ _ _ _ E).
    + injection H as <- _ _ _. exact Hacc.
Qed.

Lemma indefinite_loop_encodable : forall fuel b r acc l b' r',
  forallb encodable acc = true ->
  indefinite_loop fuel parse b r acc = Ok (l, b', r') ->
  forallb encodable l = true.
Proof.
  induction fuel as [|fuel IH]; intros b r acc l b' r' Hacc H;
    [discriminate|].
  cbn [indefinite_loop] in H. invert_bind H.
  destruct (jsstring_eqb (Buffer.bytes b (Some 2)) [0; 0]).
  - injection H as <- _ _. exact Hacc.
  - invert_bind H. destruct a0 as [c b1].
    apply (IH _ _ _ _ _ _) in H; [exact H|].
    rewrite forallb_app, Hacc. cbn [forallb andb].
    now rewrite (parse_encodable _ _ _ _ E0).
Qed.

Lemma decode_bit_string_encodable b r len ty v b' r' :
  decode_bit_string parse b r len ty = Ok (Some v, b', r') ->
  exists c, v = VArray [c] /\ encodable c = true.
Proof.
  unfold decode_bit_string. intros H.
  invert_bind H. destruct a as [[unused b1] r1].
  invert_bind H. destruct a as [[value b2] r2].
  destruct value as [v'|]; [|discriminate]. injection H as <- _ _.
  destruct (unused =? 0); [|discriminate].
  destruct (parse b1 r1) as [[c b3]| |] eqn:Ep; try discriminate.
  destruct (_ && _); [|discriminate].
  injection E0 as <- _ _. exists c. split; [reflexivity|].
  now apply (parse_encodable _ _ _ _ Ep).
Qed.

End ParsedChildren.

Lemma _fromDer_encodable : forall fuel options depth b r o b',
  _fromDer fuel options depth b r = Ok (o, b') -> encodable o = true.
Proof.
  induction fuel as [|fuel IH]; intros options depth b r o b' H;
    [discriminate|].
  cbn [_fromDer] in H.
  invert_bind H. invert_bind H. destruct a0 as [b1 bytes1].
  invert_bind H. destruct a0 as [len bytes2]. invert_bind H.
  destruct (JS.band b1 32 =? 32).
  - invert_bind H. destruct a1 as [[l bytes3] r3]. injection H as <- _.
    unfold create. cbn [encodable orb andb]. rewrite andb_true_r.
    unfold parse_children in E3. destruct a0 as [len'|].
    + invert_bind E3. destruct a0 as [[[l' b4] r4] len4].
      injection E3 as <- _ _.
      apply (definite_loop_encodable _ (IH options (depth + 1))
               _ _ _ _ [] _ _ _ _ eq_refl E4).
    + apply (indefinite_loop_encodable _ (IH options (depth + 1))
               _ _ _ [] _ _ _ eq_refl E3).
  - invert_bind H. destruct a1 as [[v bytes3] r3]. destruct v as [v|].
    + injection H as <- _.
      assert (Hv : exists c, v = VArray [c] /\ encodable c = true).
      { destruct a0 as [l|]; [|discriminate].
        destruct (_ && _ && _); [|discriminate].
        apply (decode_bit_string_encodable _
                 (IH (mkOptions true false true) (depth + 1)) _ _ _ _ _ _ _ E3). }
      destruct Hv as (c & -> & Hc). unfold create.
      destruct ((JS.band b1 192 =? Class.UNIVERSAL) &&
                (JS.band b1 31 =? Asn1Type.BITSTRING));
        cbn [encodable orb isArray forallb andb]; now rewrite Hc.
    + invert_bind H. destruct a1 as [[s bytes4] r4]. injection H as <- _.
      unfold create.
      destruct ((JS.band b1 192 =? Class.UNIVERSAL) &&
                (JS.band b1 31 =? Asn1Type.BITSTRING));
        reflexivity.
Qed.

(** X21. Whatever [fromDer] returns, [toDer] encodes: for every input and
    every choice of options, a node returned by [fromDer] makes [toDer]
    return a buffer -- it never throws on it. *)
Theorem toDer_accepts_every_parsed_node (input : jsstring + ByteStringBuffer)
    (options : FromDerOptions) (o : Asn1) (b' : ByteStringBuffer) :
  fromDer input options = Ok (o, b') ->
  exists der, toDer o = Ok der.
Proof.
  unfold fromDer. intros H. invert_bind H. destruct a as [o1 b1].
  destruct (_ && _); [discriminate|]. injection H as <- _.
  apply toDer_encodable. now apply (_fromDer_encodable _ _ _ _ _ _ _ E).
Qed.

Lemma toDer_accepts_every_parsed_node_witness :
  exists der,
    toDer (create Class.UNIVERSAL Asn1Type.SEQUENCE true
             (VArray [create Class.UNIVERSAL Asn1Type.NULL false
                        (VString []) None]) None) = Ok der.
Proof.
  apply (toDer_accepts_every_parsed_node (inl [48; 128; 5; 0; 0; 0])
           OptionsOmitted _ (mkBuffer [48; 128; 5; 0; 0; 0] 6)).
  reflexivity.
Defined.

(** ** The validator: messages and exceptions *)

Lemma Schema_induction (P : Schema -> Prop) :
  (forall name tagClass type constructed value optional capture captureAsn1
          captureBitStringContents captureBitStringValue,
      match value with
      | Some l => Forall P l
      | None => True
      end ->
      P (mkSchema name tagClass type constructed value optional capture
                  captureAsn1 captureBitStringContents captureBitStringValue)) ->
  forall v, P v.
Proof.
  intros H. fix IH 1. intros [name tc ty c value opt cap capA capC capV].
  apply H. destruct value as [l|]; [|exact I].
  induction l as [|x l IHl]; constructor; [apply IH | exact IHl].
Qed.

Lemma errors_extend_refl e : errors_extend e e 0.
Proof.
  destruct e as [l|]; [|reflexivity]. exists []. split; [|cbn; lia].
  now rewrite app_nil_r.
Qed.

Lemma errors_extend_trans e1 e2 e3 j k :
  errors_extend e1 e2 j -> errors_extend e2 e3 k ->
  errors_extend e1 e3 (j + k).
Proof.
  destruct e1 as [l1|]; cbn [errors_extend].
  - intros (m1 & -> & H1). cbn [errors_extend]. intros (m2 & -> & H2).
    exists (m1 ++ m2). split; [now rewrite app_assoc|].
    rewrite length_app. lia.
  - intros ->. cbn [errors_extend]. auto.
Qed.

Lemma errors_extend_weaken e1 e2 j k :
  (k <= j)%nat -> errors_extend e1 e2 j -> errors_extend e1 e2 k.
Proof.
  destruct e1 as [l1|]; cbn [errors_extend]; [|auto].
  intros Hk (m & -> & H). exists m. split; [reflexivity|lia].
Qed.

Lemma errors_extend_pushed e msg : errors_extend e (push_error e msg) 1.
Proof.
  destruct e as [l|]; [|reflexivity]. exists [msg]. split; [reflexivity|].
  cbn. lia.
Qed.

Lemma validate_children_post (validate : Validator) v obj vs :
  Forall (fun vi => forall child capture errors,
            validate_post (validate vi child capture errors) capture errors) vs ->
  forall j rval capture errors,
    walk_post (validate_children validate v obj vs j rval capture errors)
              rval capture errors.
Proof.
  induction 1 as [|vi vs Hvi _ IH]; intros j rval capture errors.
  - cbn [validate_children walk_post]. rewrite andb_negb_r.
    split; [apply errors_extend_refl|auto].
  - cbn [validate_children]. destruct rval;
      [|cbn [walk_post andb]; split; [apply errors_extend_refl|auto]].
    destruct obj as [o|c]; [|cbn [walk_post]; auto].
    assert (Hstep : forall rval2 j2 c1 e1 k,
      errors_extend errors e1 k -> (capture = None -> c1 = None) ->
      walk_post
        (validate_children validate v o vs j2 rval2 c1
           (if negb rval2 then push_error e1 (length_message v o) else e1))
        true capture errors).
    { intros rval2 j2 c1 e1 k He Hcap.
      specialize (IH j2 rval2 c1
                    (if negb rval2 then push_error e1 (length_message v o)
                     else e1)).
      destruct (validate_children validate v o vs j2 rval2 c1 _)
        as [[[[r' j'] c'] e']|err|st]; cbn [walk_post] in *.
      - destruct IH as [IHe IHc]. split; [|auto].
        destruct rval2; cbn [negb andb] in *.
        + eapply errors_extend_weaken;
            [|exact (errors_extend_trans _ _ _ _ _ He IHe)]. lia.
        + eapply errors_extend_weaken;
            [|exact (errors_extend_trans _ _ _ _ _
                       (errors_extend_trans _ _ _ _ _ He
                          (errors_extend_pushed e1 _)) IHe)].
          destruct r'; cbn; lia.
      - intros Hn. apply IH. auto.
      - exact IH. }
    destruct (element (value o) j) as [child|]; cbn [bind];
      [|apply (Hstep _ _ _ _ 0%nat); [apply errors_extend_refl|auto]].
    specialize (Hvi child capture errors).
    destruct (validate vi child capture errors) as [[[r1 c1] e1]|err|st];
      cbn [bind validate_post walk_post] in *; [|exact Hvi|exact Hvi].
    destruct Hvi as [He Hc].
    destruct r1; cbn [bind]; [apply (Hstep _ _ _ _ _ He Hc)|].
    destruct (SchemaFields.optional vi); cbn [bind];
      apply (Hstep _ _ _ _ _ He Hc).
Qed.

Lemma apply_captures_defined v obj m s : apply_captures v obj m <> Undef s.
Proof.
  destruct v as [name tc ty c value opt cap capA capC capV].
  unfold apply_captures.
  destruct (truthy_key capC) as [k3|]; destruct (truthy_key capV) as [k4|];
    destruct obj as [o|l]; cbn [bind]; try discriminate;
    destruct (field_in (bitStringContents o)); cbn [bind]; try discriminate;
    destruct (field_get (bitStringContents o)) as [contents|];
    try discriminate;
    destruct (Z.ltb_spec (jslength contents) 2); try discriminate;
    destruct (charCodeAt_inside contents 0 ltac:(lia)) as [u ->];
    destruct (negb (u =? 0)); discriminate.
Qed.

Lemma validate_validate_post : forall v obj capture errors,
  validate_post (validate v obj capture errors) capture errors.
Proof.
  induction v as [name tc ty c value opt cap capA capC capV IHv]
    using Schema_induction.
  intros obj capture errors. cbn [validate].
  set (v := mkSchema name tc ty c value opt cap capA capC capV).
  destruct (tag_matches v obj) eqn:Htag.
  - destruct (constructed_matches v obj).
    + assert (Hwalk : walk_post
                (match value with
                 | Some vs =>
                     validate_children
                       (fun vi child capture errors =>
                          validate vi child capture errors)
                       v obj vs 0 true capture errors
                 | None => Ok (true, 0%nat, capture, errors)
                 end) true capture errors).
      { destruct value as [vs|].
        - apply validate_children_post. exact IHv.
        - cbn [walk_post andb negb]. split; [apply errors_extend_refl|auto]. }
      destruct (match value with
                | Some vs => _
                | None => _
                end) as [[[[r j] c'] e']|err|st];
        cbn [bind walk_post validate_post] in *; [|exact Hwalk|exact Hwalk].
      destruct Hwalk as [He Hc]. cbn [andb] in He.
      destruct r; [|cbn [validate_post negb] in *; auto].
      destruct c' as [m|]; [|cbn [validate_post]; auto].
      pose proof (apply_captures_defined v obj m) as Hdef.
      destruct (apply_captures v obj m) as [m'|err|st];
        cbn [bind validate_post].
      * split; [exact He|]. intros Hn. specialize (Hc Hn). discriminate.
      * intros Hn. specialize (Hc Hn). discriminate.
      * exact (Hdef st eq_refl).
    + cbn [validate_post]. split; [apply errors_extend_pushed|auto].
  - cbn [validate_post]. split; [|auto].
    unfold tag_matches in Htag. cbn [v SchemaFields.tagClass SchemaFields.type] in Htag.
    destruct (same_Z (SubjectFields.tagClass obj) tc) eqn:E1; cbn [negb].
    + cbn [orb andb] in Htag.
      destruct (same_Z (SubjectFields.type obj) ty) eqn:E2; [discriminate|].
      cbn [negb]. apply errors_extend_pushed.
    + destruct (negb (same_Z (SubjectFields.type obj) ty)).
      * eapply errors_extend_weaken;
          [|exact (errors_extend_trans _ _ _ _ _
                     (errors_extend_pushed errors _)
                     (errors_extend_pushed _ _))]. lia.
      * apply errors_extend_pushed.
Qed.

(** No letter matches a validator that names a tag class, a type or a
    constructed flag. *)
Lemma validate_letter_tagged v c errors :
  names_tag v = true ->
  exists e', validate v (Letter c) None errors = Ok (false, None, e').
Proof.
  destruct v as [name tc ty cons value opt cap capA capC capV].
  unfold names_tag. cbn [SchemaFields.tagClass SchemaFields.type
                         SchemaFields.constructed].
  intros H. cbn [validate]. unfold tag_matches, constructed_matches.
  cbn [SchemaFields.tagClass SchemaFields.type SchemaFields.constructed
       SubjectFields.tagClass SubjectFields.type SubjectFields.constructed].
  destruct tc as [tc|]; destruct ty as [ty|]; destruct cons as [cons|];
    cbn [same_Z same_bool is_undefined orb andb negb] in *;
    try discriminate; eexists; reflexivity.
Qed.

Lemma validate_children_returns (validate : Validator) v (o : Asn1) vs :
  Forall (fun vi => forall child errors,
            exists r e', validate vi child None errors = Ok (r, None, e')) vs ->
  forall j rval errors,
    exists r j' e',
      validate_children validate v o vs j rval None errors = Ok (r, j', None, e').
Proof.
  induction 1 as [|vi vs Hvi _ IH]; intros j rval errors.
  - cbn [validate_children]. eauto.
  - cbn [validate_children]. destruct rval; [|eauto].
    destruct (element (value o) j) as [child|]; cbn [bind]; [|apply IH].
    destruct (Hvi child errors) as (r & e' & ->). cbn [bind].
    destruct r; cbn [bind]; [apply IH|].
    destruct (SchemaFields.optional vi); cbn [bind]; apply IH.
Qed.

Lemma validate_tagged_returns : forall v,
  sub_validators_tagged v = true ->
  forall (o : Asn1) errors,
    exists r e', validate v o None errors = Ok (r, None, e').
Proof.
  induction v as [name tc ty c value opt cap capA capC capV IHv]
    using Schema_induction.
  intros Htagged o errors. cbn [validate].
  set (v := mkSchema name tc ty c value opt cap capA capC capV).
  destruct (tag_matches v o); [|eauto].
  destruct (constructed_matches v o); [|eauto].
  destruct value as [vs|]; [|cbn [bind]; eauto].
  cbn [sub_validators_tagged] in Htagged. rewrite forallb_forall in Htagged.
  assert (Hall : Forall (fun vi => forall child errors,
            exists r e', validate vi child None errors = Ok (r, None, e')) vs).
  { rewrite Forall_forall in *. intros vi Hin child errors'.
    specialize (Htagged vi Hin). apply andb_prop in Htagged.
    destruct Htagged as [Hn Ht]. destruct child as [o'|l].
    - apply (IHv vi Hin Ht).
    - destruct (validate_letter_tagged vi l errors' Hn) as (e' & ->). eauto. }
  destruct (validate_children_returns
              (fun vi child capture errors => validate vi child capture errors)
              v o vs Hall 0%nat true errors) as (r & j' & e' & ->).
  cbn [bind]. destruct r; eauto.
Qed.

(** X22. [validate] only ever adds to the errors array it is given, and a
    call that returns [false] has added at least one message (a call that
    returns [true] may have added some too, from optional sub-validators
    that did not match).  Without a capture object the only exception is
    the TypeError of the runtime, and it does occur: a validator with
    sub-validators whose first one names no tag class, type or constructed
    flag and has sub-validators of its own raises it on a matching node
    whose value is a non-empty string.  When every sub-validator, at every
    depth, names a tag class, a type or a constructed flag, the call
    without a capture object returns on every node. *)
Theorem validate_reports_and_throws_only_TypeError_without_capture :
  (forall v (obj : Asn1) capture errors r c' e',
      validate v obj capture errors = Ok (r, c', e') ->
      errors_extend errors e' (if r then 0 else 1)) /\
  (forall v (obj : Asn1) errors e,
      validate v obj None errors = Throw e -> e = TypeError) /\
  (forall v (obj : Asn1) w ws z zs c s capture errors,
      tag_matches v obj = true -> constructed_matches v obj = true ->
      SchemaFields.value v = Some (w :: ws) ->
      names_tag w = false -> SchemaFields.value w = Some (z :: zs) ->
      value obj = VString (c :: s) ->
      validate v obj capture errors = Throw TypeError) /\
  (forall v (obj : Asn1) errors,
      sub_validators_tagged v = true ->
      exists r e', validate v obj None errors = Ok (r, None, e')).
Proof.
  split; [|split; [|split]].
  - intros v obj capture errors r c' e' H.
    pose proof (validate_validate_post v obj capture errors) as P.
    rewrite H in P. apply P.
  - intros v obj errors e H.
    pose proof (validate_validate_post v obj None errors) as P.
    rewrite H in P. now apply P.
  - intros v obj w ws z zs c s capture errors Htag Hcons Hv Hw Hwv Hs.
    destruct v as [name tc ty cons value opt cap capA capC capV].
    cbn [SchemaFields.value] in Hv. subst value.
    cbn [validate]. rewrite Htag, Hcons. cbn [validate_children].
    rewrite Hs. cbn [element nth_error option_map].
    destruct w as [wname wtc wty wcons wvalue wopt wcap wcapA wcapC wcapV].
    cbn [SchemaFields.value] in Hwv. subst wvalue.
    unfold names_tag in Hw.
    cbn [SchemaFields.tagClass SchemaFields.type SchemaFields.constructed] in Hw.
    destruct wtc; [discriminate|]. destruct wty; [discriminate|].
    destruct wcons; [discriminate|]. reflexivity.
  - intros v obj errors H. apply validate_tagged_returns. exact H.
Qed.

Lemma validate_reports_and_throws_only_TypeError_without_capture_witness :
  errors_extend (Some ["earlier"%string])
    (Some ["earlier"%string;
           ("[RSAPublicKey] Expected constructed " ++ dq ++ "true" ++ dq ++
            ", got " ++ dq ++ "false" ++ dq)%string])
    1 /\
  validate
    (mkSchema (Some "O"%string) None None None
       (Some [mkSchema (Some "w"%string) None None None
                (Some [mkSchema (Some "z"%string) None None None None false
                         None None None None])
                false None None None None])
       false None None None None)
    (create Class.UNIVERSAL Asn1Type.OCTETSTRING false (VString [97; 98]) None)
    None (Some []) = Throw TypeError /\
  (exists r e',
    validate Rsa.rsaPrivateKeyValidator
      (create Class.UNIVERSAL Asn1Type.SEQUENCE true (VString [97; 98]) None)
      None (Some []) = Ok (r, None, e')) /\
  TypeError = TypeError.
Proof.
  destruct validate_reports_and_throws_only_TypeError_without_capture
    as (Hext & Honly & Hthrow & Hret).
  split; [|split; [|split]].
  - apply (Hext Rsa.rsaPublicKeyValidator
             (create Class.UNIVERSAL Asn1Type.SEQUENCE false (VString []) None)
             None (Some ["earlier"%string]) false None).
    reflexivity.
  - apply (Hthrow _ _
             (mkSchema (Some "w"%string) None None None
                (Some [mkSchema (Some "z"%string) None None None None false
                         None None None None])
                false None None None None)
             []
             (mkSchema (Some "z"%string) None None None None false
                None None None None)
             [] 97 [98]); reflexivity.
  - apply Hret. reflexivity.
  - apply (Honly
             (mkSchema (Some "O"%string) None None None
                (Some [mkSchema (Some "w"%string) None None None
                         (Some [mkSchema (Some "z"%string) None None None None
                                  false None None None None])
                         false None None None None])
                false None None None None)
             (create Class.UNIVERSAL Asn1Type.OCTETSTRING false
                (VString [97; 98]) None)
             (Some [])).
    reflexivity.
Defined.

(** ** rsa.ts *)

Lemma hex_digits_spec : forall fuel x acc,
  0 <= x < 16 ^ (Z.of_nat fuel + 1) ->
  exists d0 ds,
    digits_be 16 fuel x acc = (d0 :: ds) ++ acc /\
    Forall (fun d => 0 <= d < 16) (d0 :: ds) /\
    fold_left (fun a d => a * 16 + d) (d0 :: ds) 0 = x /\
    (0 < x -> 0 < d0).
Proof.
  assert (Hone : forall x acc, 0 <= x < 16 ->
            exists d0 ds,
              x mod 16 :: acc = (d0 :: ds) ++ acc /\
              Forall (fun d => 0 <= d < 16) (d0 :: ds) /\
              fold_left (fun a d => a * 16 + d) (d0 :: ds) 0 = x /\
              (0 < x -> 0 < d0)).
  { intros x acc Hx. rewrite Z.mod_small by lia. exists x, [].
    split; [reflexivity|]. split; [|split].
    - apply Forall_cons; [lia|apply Forall_nil].
    - cbn. lia.
    - auto. }
  induction fuel as [|fuel IH]; intros x acc Hx.
  - cbn [digits_be]. change (16 ^ (Z.of_nat 0 + 1)) with 16 in Hx.
    now apply Hone.
  - cbn [digits_be].
    assert (Hpow : 16 ^ (Z.of_nat (S fuel) + 1) = 16 * 16 ^ (Z.of_nat fuel + 1)).
    { rewrite <- Z.pow_succ_r by lia. f_equal. lia. }
    destruct (Z.eqb_spec (x / 16) 0) as [E|E].
    + assert (x < 16) by (Z.div_mod_to_equations; lia).
      apply Hone. lia.
    + destruct (IH (x / 16) (x mod 16 :: acc)) as (d0 & ds & Hds & HF & Hv & Hp).
      { rewrite Hpow in Hx. split; [Z.div_mod_to_equations; lia|].
        apply Z.div_lt_upper_bound; lia. }
      exists d0, (ds ++ [x mod 16]). rewrite Hds.
      split; [cbn [app]; now rewrite <- app_assoc|]. split; [|split].
      * change (d0 :: ds ++ [x mod 16]) with ((d0 :: ds) ++ [x mod 16]).
        apply Forall_app. split; [assumption|].
        apply Forall_cons; [apply Z.mod_pos_bound; lia|apply Forall_nil].
      * change (d0 :: ds ++ [x mod 16]) with ((d0 :: ds) ++ [x mod 16]).
        rewrite fold_left_app, Hv. cbn [fold_left].
        Z.div_mod_to_equations; lia.
      * intros _. apply Hp. Z.div_mod_to_equations; lia.
Qed.

Lemma toString16_digits b :
  0 <= b ->
  exists d0 ds,
    toString16 b = map hex_digit (d0 :: ds) /\
    Forall (fun d => 0 <= d < 16) (d0 :: ds) /\
    fold_left (fun a d => a * 16 + d) (d0 :: ds) 0 = b /\
    (0 < b -> 0 < d0).
Proof.
  intros Hb. unfold toString16. destruct (Z.ltb_spec b 0); [lia|].
  destruct (hex_digits_spec (Z.to_nat (Z.log2 b)) b []) as (d0 & ds & E & Hds).
  - split; [lia|]. rewrite Z2Nat.id by apply Z.log2_nonneg.
    destruct (Z.eq_dec b 0) as [->|Hnz]; [reflexivity|].
    pose proof (Z.log2_spec b ltac:(lia)) as [_ Hlt].
    pose proof (Z.log2_nonneg b) as HL.
    assert (H16 : 16 ^ (Z.log2 b + 1) = 2 ^ (4 * (Z.log2 b + 1))).
    { change 16 with (2 ^ 4). rewrite <- Z.pow_mul_r by lia. reflexivity. }
    rewrite H16. eapply Z.lt_le_trans; [exact Hlt|].
    apply Z.pow_le_mono_r; lia.
  - exists d0, ds. rewrite E, app_nil_r. split; [reflexivity|exact Hds].
Qed.

(** Two hexadecimal digits make one byte. *)
Lemma hex_pair_table :
  forallb (fun a => forallb (fun b =>
    match parseInt16 [hex_digit (Z.of_nat a); hex_digit (Z.of_nat b)] with
    | Some v => v =? 16 * Z.of_nat a + Z.of_nat b
    | None => false
    end) (seq 0 16)) (seq 0 16) = true.
Proof. vm_compute. reflexivity. Qed.

Lemma hex_pair a b :
  0 <= a < 16 -> 0 <= b < 16 ->
  fromCharCode (nan0 (parseInt16 [hex_digit a; hex_digit b])) = [16 * a + b].
Proof.
  intros Ha Hb. pose proof hex_pair_table as T. rewrite forallb_forall in T.
  specialize (T (Z.to_nat a) ltac:(apply in_seq; lia)).
  rewrite forallb_forall in T.
  specialize (T (Z.to_nat b) ltac:(apply in_seq; lia)).
  rewrite !Z2Nat.id in T by lia.
  destruct (parseInt16 [hex_digit a; hex_digit b]) as [v|]; [|discriminate].
  apply Z.eqb_eq in T. subst v. cbn [nan0]. unfold fromCharCode.
  rewrite ToUint16_byte by (unfold is_byte; lia). reflexivity.
Qed.

Lemma hexToBytes_loop_pairs : forall n es,
  List.length es = (2 * n)%nat -> Forall (fun d => 0 <= d < 16) es ->
  exists bytes,
    hexToBytes_loop (map hex_digit es) = bytes /\
    Forall is_byte bytes /\
    (forall acc, fold_left (fun a c => a * 256 + c) bytes acc =
                 fold_left (fun a d => a * 16 + d) es acc) /\
    match es with
    | a :: b :: _ => exists tl, bytes = (16 * a + b) :: tl
    | _ => bytes = []
    end.
Proof.
  induction n as [|n IH]; intros es Hlen HF.
  - destruct es; [|discriminate]. exists []. repeat split; constructor.
  - destruct es as [|a [|b es]]; try (cbn in Hlen; lia).
    inversion HF as [|? ? Ha HF1]; subst. inversion HF1 as [|? ? Hb HF2]; subst.
    destruct (IH es ltac:(cbn in Hlen; lia) HF2) as (bytes & E & HB & HV & _).
    exists ((16 * a + b) :: bytes). cbn [map hexToBytes_loop].
    rewrite hex_pair, E by assumption. split; [reflexivity|].
    split; [apply Forall_cons; [unfold is_byte; lia|assumption]|].
    split; [|eauto].
    intros acc. cbn [fold_left]. rewrite HV. f_equal. lia.
Qed.

Lemma hexToBytes_odd (h0 : Z) (rest : jsstring) :
  Nat.odd (List.length (h0 :: rest)) = true ->
  hexToBytes (h0 :: rest) = hexToBytes (48 :: h0 :: rest).
Proof.
  intros Hodd. unfold hexToBytes. rewrite !band_length_odd, Hodd.
  change (List.length (48 :: h0 :: rest)) with (S (List.length (h0 :: rest))).
  rewrite Nat.odd_succ, <- Nat.negb_odd, Hodd. cbn [negb].
  cbn [hexToBytes_loop]. now rewrite parseInt16_leading_zero.
Qed.

Lemma hexToBytes_even (hex : jsstring) :
  Nat.odd (List.length hex) = false ->
  hexToBytes hex = hexToBytes_loop hex.
Proof. intros H. unfold hexToBytes. now rewrite band_length_odd, H. Qed.

Lemma hex_digit_ge_8 d : 0 <= d < 16 -> (hex_digit d >=? 56) = (8 <=? d).
Proof.
  intros Hd. unfold hex_digit. destruct (Z.ltb_spec d 10);
    destruct (Z.geb_spec (48 + d) 56); destruct (Z.geb_spec (87 + d) 56);
    destruct (Z.leb_spec 8 d); try reflexivity; lia.
Qed.

Lemma length_parity n : {k | n = (2 * k)%nat} + {k | n = S (2 * k)}.
Proof.
  induction n as [|n [[k ->]|[k ->]]].
  - left. now exists 0%nat.
  - right. now exists k.
  - left. exists (S k). lia.
Qed.

Lemma odd_double k : Nat.odd (2 * k) = false /\ Nat.odd (S (2 * k)) = true.
Proof.
  split.
  - rewrite <- Nat.negb_even, Nat.even_mul. reflexivity.
  - rewrite Nat.odd_succ, Nat.even_mul. reflexivity.
Qed.

Lemma hexToBytes_loop_cons2 a b es :
  0 <= a < 16 -> 0 <= b < 16 ->
  hexToBytes_loop (map hex_digit (a :: b :: es)) =
  (16 * a + b) :: hexToBytes_loop (map hex_digit es).
Proof. intros Ha Hb. cbn [map hexToBytes_loop]. now rewrite hex_pair. Qed.

Lemma band_128_small c : 0 <= c < 128 -> JS.band c 128 = 0.
Proof.
  intros H. rewrite band_128_byte by (unfold is_byte; lia).
  destruct (Z.ltb_spec c 128); [reflexivity|lia].
Qed.

Lemma band_128_large c : 128 <= c < 256 -> JS.band c 128 = 128.
Proof.
  intros H. rewrite band_128_byte by (unfold is_byte; lia).
  destruct (Z.ltb_spec c 128); [lia|reflexivity].
Qed.

Lemma integer_minimal_head c0 tl :
  0 < c0 < 255 -> integer_minimal (c0 :: tl) = true.
Proof.
  intros H. destruct tl as [|c1 tl]; [reflexivity|]. cbn [integer_minimal].
  destruct (Z.eqb_spec c0 0); [lia|]. destruct (Z.eqb_spec c0 255); [lia|].
  reflexivity.
Qed.

Lemma _bnToBytes_spec (b : Z) :
  0 <= b ->
  exists c0 tl,
    Rsa._bnToBytes b = c0 :: tl /\
    Forall is_byte (c0 :: tl) /\
    be_value (c0 :: tl) = b /\
    c0 < 128 /\
    integer_minimal (c0 :: tl) = true.
Proof.
  intros Hb0. destruct (Z.eq_dec b 0) as [->|Hnz].
  { exists 0, []. split; [reflexivity|].
    split; [apply Forall_cons; [unfold is_byte; lia|apply Forall_nil]|].
    repeat split; reflexivity || lia. }
  assert (Hb : 0 < b) by lia. clear Hb0 Hnz.
  destruct (toString16_digits b ltac:(lia)) as (d0 & ds & E & HF & Hv & Hd0).
  specialize (Hd0 Hb).
  inversion HF as [|? ? Hr0 HFs]; subst.
  unfold Rsa._bnToBytes. rewrite E. cbn [map].
  rewrite hex_digit_ge_8 by assumption.
  change (codes "00") with [hex_digit 0; hex_digit 0].
  change (hex_digit d0 :: map hex_digit ds) with (map hex_digit (d0 :: ds)).
  assert (Hz : 0 <= 0 < 16) by lia.
  destruct (length_parity (List.length ds)) as [[k Hk]|[k Hk]].
  - (* an odd number of digits *)
    destruct (hexToBytes_loop_pairs k ds Hk HFs) as (R & ER & HR & HV & _).
    assert (Hval : be_value (d0 :: R) = fold_left (fun a d => a * 16 + d)
                                          (d0 :: ds) 0).
    { unfold be_value. cbn [fold_left]. rewrite HV. reflexivity. }
    destruct (Z.leb_spec 8 d0) as [H8|H8]; cbv iota.
    + cbn [app].
      change ([hex_digit 0; hex_digit 0] ++ map hex_digit (d0 :: ds))
        with (hex_digit 0 :: map hex_digit (0 :: d0 :: ds)).
      change (hex_digit 0 :: hex_digit 0 :: map hex_digit (d0 :: ds))
        with (hex_digit 0 :: map hex_digit (0 :: d0 :: ds)).
      rewrite hexToBytes_odd
        by (cbn [List.length map]; rewrite length_map, Hk;
            rewrite !Nat.odd_succ, Nat.even_succ;
            apply (proj2 (odd_double k))).
      change 48 with (hex_digit 0).
      change (hex_digit 0 :: hex_digit 0 :: map hex_digit (0 :: d0 :: ds))
        with (map hex_digit (0 :: 0 :: 0 :: d0 :: ds)).
      rewrite hexToBytes_even
        by (cbn [List.length map]; rewrite length_map, Hk;
            rewrite !Nat.odd_succ, !Nat.even_succ;
            apply (proj1 (odd_double k))).
      rewrite !hexToBytes_loop_cons2 by assumption. rewrite ER.
      replace (16 * 0 + 0) with 0 by lia. replace (16 * 0 + d0) with d0 by lia.
      rewrite Z.eqb_refl, band_128_small by lia. cbn [Z.eqb andb orb].
      rewrite substr_suffix by lia. cbn [Z.to_nat Pos.to_nat Pos.iter_op skipn].
      exists d0, R. split; [reflexivity|].
      split; [apply Forall_cons; [unfold is_byte; lia|assumption]|].
      split; [now rewrite Hval|]. split; [lia|].
      apply integer_minimal_head. lia.
    + cbn [map]. rewrite hexToBytes_odd
        by (cbn [List.length map]; rewrite length_map, Hk;
            apply (proj2 (odd_double k))).
      change 48 with (hex_digit 0).
      change (hex_digit 0 :: hex_digit d0 :: map hex_digit ds)
        with (map hex_digit (0 :: d0 :: ds)).
      rewrite hexToBytes_even
        by (cbn [List.length map]; rewrite length_map, Hk;
            rewrite !Nat.odd_succ, !Nat.even_succ;
            apply (proj1 (odd_double k))).
      rewrite !hexToBytes_loop_cons2 by assumption. rewrite ER.
      replace (16 * 0 + d0) with d0 by lia.
      assert (Hres : match R with
                     | [] => d0 :: R
                     | c1 :: _ =>
                         if ((d0 =? 0) && (JS.band c1 128 =? 0)) ||
                            ((d0 =? 255) && (JS.band c1 128 =? 128))
                         then substr (d0 :: R) 1 None
                         else d0 :: R
                     end = d0 :: R).
      { destruct R as [|c1 R']; [reflexivity|].
        destruct (Z.eqb_spec d0 0); [lia|]. destruct (Z.eqb_spec d0 255); [lia|].
        reflexivity. }
      exists d0, R. split; [exact Hres|].
      split; [apply Forall_cons; [unfold is_byte; lia|assumption]|].
      split; [now rewrite Hval|]. split; [lia|].
      apply integer_minimal_head. lia.
  - (* an even number of digits *)
    destruct ds as [|d1 ds']; [discriminate|].
    inversion HFs as [|? ? Hr1 HFs']; subst.
    assert (Hk' : List.length ds' = (2 * k)%nat) by (cbn [List.length] in Hk; lia).
    clear Hk. rename Hk' into Hk.
    destruct (hexToBytes_loop_pairs k ds' Hk HFs') as (R & ER & HR & HV & _).
    assert (Hval : be_value ((16 * d0 + d1) :: R) =
                   fold_left (fun a d => a * 16 + d) (d0 :: d1 :: ds') 0).
    { unfold be_value. cbn [fold_left]. rewrite HV. f_equal. lia. }
    assert (Hev : forall pre, Nat.odd (List.length pre) = false ->
              Nat.odd (List.length
                         (map hex_digit (pre ++ d0 :: d1 :: ds'))) = false).
    { intros pre Hpre. rewrite length_map, length_app. cbn [List.length].
      rewrite Hk. rewrite Nat.odd_add, Hpre.
      rewrite !Nat.odd_succ, !Nat.even_succ.
      now rewrite (proj1 (odd_double k)). }
    destruct (Z.leb_spec 8 d0) as [H8|H8]; cbv iota.
    + change ([hex_digit 0; hex_digit 0] ++ map hex_digit (d0 :: d1 :: ds'))
        with (map hex_digit ([0; 0] ++ d0 :: d1 :: ds')).
      rewrite hexToBytes_even by (apply Hev; reflexivity).
      cbn [app]. rewrite !hexToBytes_loop_cons2 by assumption. rewrite ER.
      replace (16 * 0 + 0) with 0 by lia.
      rewrite band_128_large by lia. cbn [Z.eqb andb orb].
      exists 0, ((16 * d0 + d1) :: R). split; [reflexivity|].
      split; [apply Forall_cons; [unfold is_byte; lia|];
              apply Forall_cons; [unfold is_byte; lia|assumption]|].
      split; [|split; [lia|]].
      * rewrite <- Hval. unfold be_value. cbn [fold_left]. f_equal.
      * cbn [integer_minimal]. destruct (Z.ltb_spec (16 * d0 + d1) 128); [lia|].
        reflexivity.
    + change (map hex_digit (d0 :: d1 :: ds'))
        with (map hex_digit ([] ++ d0 :: d1 :: ds')).
      rewrite hexToBytes_even by (apply Hev; reflexivity).
      cbn [app]. rewrite !hexToBytes_loop_cons2 by assumption. rewrite ER.
      assert (Hres : match R with
                     | [] => (16 * d0 + d1) :: R
                     | c1 :: _ =>
                         if ((16 * d0 + d1 =? 0) && (JS.band c1 128 =? 0)) ||
                            ((16 * d0 + d1 =? 255) && (JS.band c1 128 =? 128))
                         then substr ((16 * d0 + d1) :: R) 1 None
                         else (16 * d0 + d1) :: R
                     end = (16 * d0 + d1) :: R).
      { destruct R as [|c1 R']; [reflexivity|].
        destruct (Z.eqb_spec (16 * d0 + d1) 0); [lia|].
        destruct (Z.eqb_spec (16 * d0 + d1) 255); [lia|]. reflexivity. }
      exists (16 * d0 + d1), R. split; [exact Hres|].
      split; [apply Forall_cons; [unfold is_byte; lia|assumption]|].
      split; [now rewrite Hval|]. split; [lia|].
      apply integer_minimal_head. lia.
Qed.

(** X23. For a positive integer [b], [_bnToBytes(b)] is the shortest
    two's-complement big-endian form of [b]: bytes whose unsigned value is
    [b], the first below 128 (the sign bit is clear), with no redundant
    leading byte -- so [toDer] writes them unchanged as an INTEGER.  Zero
    gives the single byte 0. *)
Theorem bnToBytes_is_the_minimal_positive_encoding (b : Z) :
  0 <= b ->
  exists c0 tl,
    Rsa._bnToBytes b = c0 :: tl /\
    Forall is_byte (c0 :: tl) /\
    be_value (c0 :: tl) = b /\
    c0 < 128 /\
    integer_minimal (c0 :: tl) = true.
Proof. exact (_bnToBytes_spec b). Qed.

Lemma bnToBytes_is_the_minimal_positive_encoding_witness :
  exists c0 tl,
    Rsa._bnToBytes 32768 = c0 :: tl /\
    Forall is_byte (c0 :: tl) /\
    be_value (c0 :: tl) = 32768 /\
    c0 < 128 /\
    integer_minimal (c0 :: tl) = true.
Proof.
  apply (bnToBytes_is_the_minimal_positive_encoding 32768). lia.
Defined.

(** X24. The node that [privateKeyToAsn1] builds is accepted by
    [rsaPrivateKeyValidator], with no message, and the capture object
    holds under each key the bytes of the corresponding INTEGER: the
    version byte 0 and [_bnToBytes] of each field of the key. *)
Theorem rsaPrivateKeyValidator_accepts_privateKeyToAsn1 (key : Rsa.PrivateKey) :
  exists o m,
    Rsa.privateKeyToAsn1 key = Ok o /\
    validate Rsa.rsaPrivateKeyValidator o (Some []) (Some []) =
      Ok (true, Some m, Some []) /\
    capture_get m "privateKeyVersion" = Some (CapturedValue (VString [0])) /\
    capture_get m "privateKeyModulus" =
      Some (CapturedValue (VString (Rsa._bnToBytes (Rsa.n key)))) /\
    capture_get m "privateKeyPublicExponent" =
      Some (CapturedValue (VString (Rsa._bnToBytes (Rsa.e key)))) /\
    capture_get m "privateKeyPrivateExponent" =
      Some (CapturedValue (VString (Rsa._bnToBytes (Rsa.d key)))) /\
    capture_get m "privateKeyPrime1" =
      Some (CapturedValue (VString (Rsa._bnToBytes (Rsa.p key)))) /\
    capture_get m "privateKeyPrime2" =
      Some (CapturedValue (VString (Rsa._bnToBytes (Rsa.q key)))) /\
    capture_get m "privateKeyExponent1" =
      Some (CapturedValue (VString (Rsa._bnToBytes (Rsa.dP key)))) /\
    capture_get m "privateKeyExponent2" =
      Some (CapturedValue (VString (Rsa._bnToBytes (Rsa.dQ key)))) /\
    capture_get m "privateKeyCoefficient" =
      Some (CapturedValue (VString (Rsa._bnToBytes (Rsa.qInv key)))).
Proof.
  unfold Rsa.privateKeyToAsn1.
  change (integerToDer 0) with (Ok (mkBuffer [0] 0)). cbn [bind].
  change (fst (Buffer.getBytes (mkBuffer [0] 0) None)) with [0].
  generalize (Rsa._bnToBytes (Rsa.n key)) (Rsa._bnToBytes (Rsa.e key))
             (Rsa._bnToBytes (Rsa.d key)) (Rsa._bnToBytes (Rsa.p key))
             (Rsa._bnToBytes (Rsa.q key)) (Rsa._bnToBytes (Rsa.dP key))
             (Rsa._bnToBytes (Rsa.dQ key)) (Rsa._bnToBytes (Rsa.qInv key)).
  intros s1 s2 s3 s4 s5 s6 s7 s8.
  eexists. eexists. split; [reflexivity|]. split; [vm_compute; reflexivity|].
  repeat split; reflexivity.
Qed.

Lemma is_byte_byteb (s : jsstring) : Forall is_byte s -> forallb byteb s = true.
Proof.
  intros H. apply forallb_forall. intros x Hx.
  rewrite Forall_forall in H. specialize (H x Hx). unfold is_byte in H.
  unfold byteb. destruct (Z.leb_spec 0 x); destruct (Z.ltb_spec x 256);
    try reflexivity; lia.
Qed.

Lemma integer_node_facts s :
  Forall is_byte s -> integer_minimal s = true ->
  der_tree (Rsa.integer_ s) = true /\ low_tags (Rsa.integer_ s) = true /\
  tag2_minimal (Rsa.integer_ s) = true /\
  no_bit_string (Rsa.integer_ s) = true /\
  reparsed (Rsa.integer_ s) = Rsa.integer_ s.
Proof.
  intros Hb Hm. unfold Rsa.integer_, create.
  cbn [der_tree low_tags tag2_minimal no_bit_string reparsed isArray orb].
  rewrite (is_byte_byteb s Hb), Hm. repeat split; reflexivity.
Qed.

Lemma fromDer_der_of_plain o options :
  der_tree o = true -> low_tags o = true -> no_bit_string o = true ->
  jslength (der_of o) < 2 ^ 31 ->
  fromDer (inr (mkBuffer (der_of o) 0)) options =
  Ok (reparsed o, mkBuffer (der_of o) (jslength (der_of o))).
Proof.
  intros Hd Hl Hnb Hsize. unfold fromDer.
  destruct (unread_fresh (der_of o)) as [Hc Hu].
  rewrite length_fresh. pose proof (jslength_nonneg (der_of o)).
  rewrite (_fromDer_der_of_plain o Hd Hl Hnb Hsize _ (resolve_options options)
             0 _ _ [] Hc Hu) by lia.
  cbn [bind]. rewrite length_advance, length_fresh, Z.sub_diag.
  cbn [Z.eqb negb]. rewrite andb_false_r. unfold advance. cbn [data read].
  reflexivity.
Qed.

(** X25. An RSA private key with non-negative fields goes through DER
    unchanged: the node [privateKeyToAsn1] builds is encoded by [toDer] as
    its X.690 DER -- no INTEGER loses a byte, because [_bnToBytes] and
    [integerToDer] already give minimal values -- and [fromDer], under any
    options, reads that encoding back as the very same node. *)
Theorem privateKeyToAsn1_der_roundtrip (key : Rsa.PrivateKey) (o : Asn1) :
  Forall (fun x => 0 <= x)
    [Rsa.n key; Rsa.e key; Rsa.d key; Rsa.p key; Rsa.q key;
     Rsa.dP key; Rsa.dQ key; Rsa.qInv key] ->
  Rsa.privateKeyToAsn1 key = Ok o ->
  jslength (der_of o) < 2 ^ 31 ->
  toDer o = Ok (mkBuffer (der_of o) 0) /\
  forall options,
    fromDer (inr (mkBuffer (der_of o) 0)) options =
    Ok (o, mkBuffer (der_of o) (jslength (der_of o))).
Proof.
  intros Hpos Hkey Hsize.
  assert (Hint : forall x, 0 <= x ->
            der_tree (Rsa.integer_ (Rsa._bnToBytes x)) = true /\
            low_tags (Rsa.integer_ (Rsa._bnToBytes x)) = true /\
            tag2_minimal (Rsa.integer_ (Rsa._bnToBytes x)) = true /\
            no_bit_string (Rsa.integer_ (Rsa._bnToBytes x)) = true /\
            reparsed (Rsa.integer_ (Rsa._bnToBytes x)) =
              Rsa.integer_ (Rsa._bnToBytes x)).
  { intros x Hx. destruct (_bnToBytes_spec x Hx) as (c0 & tl & E & Hb & _ & _ & Hm).
    rewrite E. now apply integer_node_facts. }
  repeat match goal with
         | H : Forall _ (_ :: _) |- _ => inversion H; subst; clear H
         end.
  repeat match goal with
         | H : 0 <= _ |- _ => apply Hint in H
         end.
  unfold Rsa.privateKeyToAsn1 in Hkey.
  change (integerToDer 0) with (Ok (mkBuffer [0] 0)) in Hkey.
  cbn [bind] in Hkey.
  change (fst (Buffer.getBytes (mkBuffer [0] 0) None)) with [0] in Hkey.
  injection Hkey as <-.
  assert (Hver : der_tree (Rsa.integer_ [0]) = true /\
                 low_tags (Rsa.integer_ [0]) = true /\
                 tag2_minimal (Rsa.integer_ [0]) = true /\
                 no_bit_string (Rsa.integer_ [0]) = true /\
                 reparsed (Rsa.integer_ [0]) = Rsa.integer_ [0])
    by (repeat split; reflexivity).
  repeat match goal with
         | H : _ /\ _ |- _ => destruct H
         end.
  match goal with
  | |- context [mkAsn1 ?tc ?ty true true (VArray ?l) Absent None] =>
      set (l0 := l) in *;
      set (node := mkAsn1 tc ty true true (VArray l0) Absent None) in *
  end.
  assert (Hd : der_tree node = true).
  { unfold node. cbn [der_tree isArray orb forallb l0].
    repeat match goal with H : der_tree _ = true |- _ => rewrite H; clear H end.
    reflexivity. }
  assert (Hl : low_tags node = true).
  { unfold node. cbn [low_tags isArray orb forallb l0].
    repeat match goal with H : low_tags _ = true |- _ => rewrite H; clear H end.
    reflexivity. }
  assert (Ht : tag2_minimal node = true).
  { unfold node. cbn [tag2_minimal isArray orb forallb l0].
    repeat match goal with H : tag2_minimal _ = true |- _ => rewrite H; clear H end.
    reflexivity. }
  assert (Hnb : no_bit_string node = true).
  { unfold node. cbn [no_bit_string isArray orb forallb l0].
    repeat match goal with H : no_bit_string _ = true |- _ => rewrite H; clear H end.
    reflexivity. }
  assert (Hre : reparsed node = node).
  { unfold node. cbn [reparsed map l0]. unfold create at 1.
    cbn [isArray orb].
    repeat match goal with H : reparsed _ = _ |- _ => rewrite H; clear H end.
    reflexivity. }
  split.
  - apply (toDer_der_of node Hd Hl Ht Hsize).
  - intros options. rewrite <- Hre at 2.
    now apply fromDer_der_of_plain.
Qed.

Lemma privateKeyToAsn1_der_roundtrip_witness :
  exists o,
    Rsa.privateKeyToAsn1 (Rsa.mkPrivateKey 3233 17 413 61 53 53 49 38) = Ok o /\
    toDer o = Ok (mkBuffer (der_of o) 0) /\
    forall options,
      fromDer (inr (mkBuffer (der_of o) 0)) options =
      Ok (o, mkBuffer (der_of o) (jslength (der_of o))).
Proof.
  eexists. split; [reflexivity|].
  apply (privateKeyToAsn1_der_roundtrip
           (Rsa.mkPrivateKey 3233 17 413 61 53 53 49 38)).
  - cbn [Rsa.n Rsa.e Rsa.d Rsa.p Rsa.q Rsa.dP Rsa.dQ Rsa.qInv].
    repeat (apply Forall_cons; [lia|]). apply Forall_nil.
  - reflexivity.
  - vm_compute. reflexivity.
Defined.

(** ** INTEGER values through DER *)

Lemma integerToDer_bytes x :
  - 2 ^ 31 <= x < 2 ^ 31 ->
  exists k bs,
    1 <= k <= 4 /\ fits_bytes x k /\ (k = 1 \/ ~ fits_bytes x (k - 1)) /\
    integerToDer x = Ok (mkBuffer bs 0) /\
    jslength bs = k /\ Forall is_byte bs /\ be_value bs = x mod 2 ^ (8 * k).
Proof.
  intros Hx. change (2 ^ 31) with 2147483648 in Hx.
  assert (Hsel : exists k,
             1 <= k <= 4 /\ fits_bytes x k /\
             (k = 1 \/ ~ fits_bytes x (k - 1)) /\
             integerToDer x = Buffer.putSignedInt (createBuffer None) x (8 * k)).
  { unfold integerToDer, fits_bytes.
    destruct (in_range_dec x (-128) 128) as [[-> R]|[-> R]];
      [exists 1; cbn; repeat split; auto; lia|].
    destruct (in_range_dec x (-32768) 32768) as [[-> R2]|[-> R2]];
      [exists 2; cbn; repeat split; auto; lia|].
    destruct (in_range_dec x (-8388608) 8388608) as [[-> R3]|[-> R3]];
      [exists 3; cbn; repeat split; auto; lia|].
    destruct (in_range_dec x (-2147483648) 2147483648) as [[-> R4]|[-> R4]];
      [exists 4; cbn; repeat split; auto; lia|lia]. }
  destruct Hsel as (k & Hk & Hfit & Hleast & E).
  destruct (putSignedInt_value (createBuffer None) x k Hk Hfit)
    as (bs & Hput & Hlen & Hbytes & Hval).
  exists k, bs. rewrite E, Hput.
  split; [exact Hk|]. split; [exact Hfit|]. split; [exact Hleast|].
  split; [reflexivity|]. split; [exact Hlen|]. split; [exact Hbytes|exact Hval].
Qed.

Lemma integerToDer_minimal x k bs :
  1 <= k <= 4 -> fits_bytes x k -> (k = 1 \/ ~ fits_bytes x (k - 1)) ->
  jslength bs = k -> Forall is_byte bs -> be_value bs = x mod 2 ^ (8 * k) ->
  integer_minimal bs = true.
Proof.
  intros Hk Hfit Hleast Hlen Hb Hv. unfold fits_bytes in *.
  assert (Hcases : k = 1 \/ k = 2 \/ k = 3 \/ k = 4) by lia.
  destruct Hcases as [-> | [-> | [-> | ->]]];
    (destruct bs as [|c0 [|c1 [|c2 [|c3 [|c4 bs]]]]];
     unfold jslength in Hlen; cbn [List.length] in Hlen; try lia);
    try reflexivity;
    (destruct Hleast as [Hone|Hleast]; [lia|]);
    repeat match goal with
           | H : Forall _ (_ :: _) |- _ => inversion H; subst; clear H
           end;
    unfold is_byte in *; cbn [integer_minimal];
    cbv [be_value fold_left] in Hv;
    change (2 ^ (8 * 2)) with 65536 in *;
    change (2 ^ (8 * 3)) with 16777216 in *;
    change (2 ^ (8 * 4)) with 4294967296 in *;
    change (2 ^ (8 * 2 - 1)) with 32768 in *;
    change (2 ^ (8 * 3 - 1)) with 8388608 in *;
    change (2 ^ (8 * 4 - 1)) with 2147483648 in *;
    change (2 ^ (8 * (2 - 1) - 1)) with 128 in *;
    change (2 ^ (8 * (3 - 1) - 1)) with 32768 in *;
    change (2 ^ (8 * (4 - 1) - 1)) with 8388608 in *;
    destruct (Z.eqb_spec c0 0); destruct (Z.eqb_spec c0 255);
    destruct (Z.ltb_spec c1 128); destruct (Z.leb_spec 128 c1);
    cbn [andb orb negb]; try reflexivity; exfalso; apply Hleast;
    Z.div_mod_to_equations; lia.
Qed.

(** X26. Integers through DER: for every 32-bit [x], the bytes of
    [integerToDer(x)] put in an INTEGER node are written by [toDer] as
    [02], their count and the bytes themselves -- nothing is stripped --
    [fromDer] reads that back as the same node under any options, and
    [getSignedInt] on the value bytes returns [x]. *)
Theorem integerToDer_survives_der (x : Z) :
  - 2 ^ 31 <= x < 2 ^ 31 ->
  exists bs,
    integerToDer x = Ok (mkBuffer bs 0) /\
    toDer (create Class.UNIVERSAL Asn1Type.INTEGER false (VString bs) None) =
      Ok (mkBuffer (2 :: jslength bs :: bs) 0) /\
    (forall options,
        fromDer (inr (mkBuffer (2 :: jslength bs :: bs) 0)) options =
        Ok (create Class.UNIVERSAL Asn1Type.INTEGER false (VString bs) None,
            mkBuffer (2 :: jslength bs :: bs) (2 + jslength bs))) /\
    Buffer.getSignedInt (mkBuffer bs 0) (8 * jslength bs) =
      Ok (x, mkBuffer bs (jslength bs)).
Proof.
  intros Hx.
  destruct (integerToDer_bytes x Hx)
    as (k & bs & Hk & Hfit & Hleast & E & Hlen & Hb & Hv).
  pose proof (integerToDer_minimal x k bs Hk Hfit Hleast Hlen Hb Hv) as Hmin.
  exists bs. split; [exact E|].
  destruct (integer_node_facts bs Hb Hmin) as (Hd & Hl & Ht & Hnb & Hre).
  unfold Rsa.integer_ in *.
  set (node := create Class.UNIVERSAL Asn1Type.INTEGER false (VString bs) None)
    in *.
  assert (Hder : der_of node = 2 :: jslength bs :: bs).
  { unfold node, create. rewrite der_of_low by (unfold Asn1Type.INTEGER; lia).
    cbv zeta. cbn [Z.eqb Asn1Type.INTEGER Asn1Type.BMPSTRING Pos.eqb].
    unfold length_octets. rewrite Hlen.
    destruct (Z.leb_spec k 127); [reflexivity|lia]. }
  assert (Hsize : jslength (der_of node) < 2 ^ 31).
  { rewrite Hder, !jslength_cons, Hlen. change (2 ^ 31) with 2147483648. lia. }
  split; [|split].
  - rewrite <- Hder. apply (toDer_der_of node Hd Hl Ht Hsize).
  - intros options.
    pose proof (fromDer_der_of_plain node options Hd Hl Hnb Hsize) as P.
    rewrite Hre, Hder in P. rewrite P. rewrite !jslength_cons.
    replace (1 + (1 + jslength bs)) with (2 + jslength bs) by lia. reflexivity.
  - destruct (unread_fresh bs) as [Hc Hu]. rewrite Hlen.
    rewrite (getSignedInt_value _ bs [] k Hc Hu Hb Hlen Hk).
    rewrite (signed_of_mod x bs k ltac:(lia) Hfit Hlen Hv).
    unfold advance. cbn [data read]. reflexivity.
Qed.

Lemma integerToDer_survives_der_witness :
  exists bs,
    integerToDer (-129) = Ok (mkBuffer bs 0) /\
    toDer (create Class.UNIVERSAL Asn1Type.INTEGER false (VString bs) None) =
      Ok (mkBuffer (2 :: jslength bs :: bs) 0) /\
    (forall options,
        fromDer (inr (mkBuffer (2 :: jslength bs :: bs) 0)) options =
        Ok (create Class.UNIVERSAL Asn1Type.INTEGER false (VString bs) None,
            mkBuffer (2 :: jslength bs :: bs) (2 + jslength bs))) /\
    Buffer.getSignedInt (mkBuffer bs 0) (8 * jslength bs) =
      Ok (-129, mkBuffer bs (jslength bs)).
Proof.
  apply (integerToDer_survives_der (-129)). lia.
Defined.

(** ** Length octets that are longer than needed *)

Lemma band_127_long k : 1 <= k <= 4 -> JS.band (128 + k) 127 = k.
Proof.
  intros Hk.
  assert (k = 1 \/ k = 2 \/ k = 3 \/ k = 4) as [->|[->|[->| ->]]] by lia;
    reflexivity.
Qed.

(** X27. [fromDer] does not insist on the shortest length octets, not even
    in strict mode: a primitive (tag number other than 30) whose length,
    below [2^31], is written in the long form on [k] bytes, [1 <= k <= 4],
    with or without leading zeros, and followed by that many bytes, is read
    with these bytes as its value -- unless it is a UNIVERSAL BIT STRING
    read with [decodeBitStrings] on, which may be decoded further. *)
Theorem fromDer_accepts_padded_length_octets (t k : Z) (ds content : jsstring)
    (options : FromDerOptions) :
  JS.band t 32 <> 32 -> JS.band t 31 <> Asn1Type.BMPSTRING ->
  decodeBitStrings (resolve_options options) &&
    ((JS.band t 192 =? Class.UNIVERSAL) &&
     (JS.band t 31 =? Asn1Type.BITSTRING)) = false ->
  1 <= k <= 4 -> jslength ds = k -> Forall is_byte ds ->
  be_value ds = jslength content -> jslength content < 2 ^ 31 ->
  let input := t :: (128 + k) :: ds ++ content in
  fromDer (inl input) options =
    Ok (create (JS.band t 192) (JS.band t 31) false (VString content)
          (if (JS.band t 192 =? Class.UNIVERSAL) &&
              (JS.band t 31 =? Asn1Type.BITSTRING)
           then Some (Present (Some content)) else None),
        mkBuffer input (jslength input)).
Proof.
  intros Hprim Hbmp Hbits Hk Hlen Hb Hv Hsize input.
  pose proof (jslength_nonneg content) as Hn.
  assert (Hin : jslength input = 2 + k + jslength content).
  { unfold input. rewrite !jslength_cons, jslength_app. lia. }
  destruct (unread_fresh input) as [Hc Hu]. rewrite app_nil_r in Hu.
  unfold fromDer, createBuffer. rewrite length_fresh.
  set (opts := resolve_options options) in *.
  cbn [_fromDer]. unfold _checkBufferLength at 1.
  destruct (Z.gtb_spec 2 (jslength input)); [lia|]. cbn [bind].
  unfold input in Hu.
  rewrite (getByte_unread _ t _ Hc Hu). cbn [bind].
  destruct (advance_cons _ t _ Hc Hu) as [Hc1 Hu1].
  unfold _getValueLength.
  rewrite (getByte_unread _ (128 + k) _ Hc1 Hu1). cbn [bind].
  destruct (advance_cons _ (128 + k) _ Hc1 Hu1) as [Hc2 Hu2].
  destruct (Z.eqb_spec (128 + k) 128); [lia|].
  rewrite band_128_large by lia. change (128 =? 0) with false. cbv iota.
  rewrite band_127_long by lia. unfold _checkBufferLength at 1.
  fold input.
  destruct (Z.gtb_spec k (jslength input - 1 - 1)); [lia|]. cbn [bind].
  rewrite shl_3_small by lia.
  rewrite (getInt_value _ ds content k Hc2 Hu2 Hb Hlen Hk). cbn [bind].
  rewrite Hv, ToInt32_small by lia.
  destruct (Z.ltb_spec (jslength content) 0); [lia|]. cbn [bind].
  destruct (unread_advance _ ds content Hc2 Hu2) as [Hc3 Hu3].
  rewrite Hlen in Hc3, Hu3. rewrite <- (app_nil_r content) in Hu3.
  rewrite !advance_advance in *. rewrite !length_advance, length_fresh.
  set (b3 := advance (mkBuffer input 0) (1 + (1 + k))) in *.
  replace (jslength input - 1 -
           (jslength input - 1 - (jslength input - (1 + (1 + k)))))
    with (jslength content) by lia.
  unfold clamp_length.
  destruct (Z.gtb_spec (jslength content) (jslength content)); [lia|].
  cbn [bind]. destruct (Z.eqb_spec (JS.band t 32) 32); [contradiction|].
  rewrite Hbits. cbn [andb bind].
  unfold read_raw_value. cbn [bind].
  destruct (Z.eqb_spec (JS.band t 31) Asn1Type.BMPSTRING); [contradiction|].
  rewrite (getBytes_unread b3 content [] Hc3 Hu3). cbn [bind].
  unfold Buffer.bytes. rewrite (slice_unread b3 content [] Hc3 Hu3).
  unfold b3. rewrite advance_advance. unfold advance, Buffer.length.
  cbn [data read].
  replace (0 + (1 + (1 + k) + jslength content)) with (jslength input) by lia.
  rewrite Z.sub_diag. cbn [Z.eqb negb]. rewrite andb_false_r. reflexivity.
Qed.

Lemma fromDer_accepts_padded_length_octets_witness :
  let input := 4 :: (128 + 4) :: [0; 0; 0; 2] ++ [7; 9] in
  fromDer (inl input) OptionsOmitted =
    Ok (create (JS.band 4 192) (JS.band 4 31) false (VString [7; 9])
          (if (JS.band 4 192 =? Class.UNIVERSAL) &&
              (JS.band 4 31 =? Asn1Type.BITSTRING)
           then Some (Present (Some [7; 9])) else None),
        mkBuffer input (jslength input)).
Proof.
  apply (fromDer_accepts_padded_length_octets 4 4 [0; 0; 0; 2] [7; 9]
           OptionsOmitted).
  - vm_compute. discriminate.
  - vm_compute. discriminate.
  - reflexivity.
  - lia.
  - reflexivity.
  - repeat (apply Forall_cons; [unfold is_byte; lia|]). apply Forall_nil.
  - reflexivity.
  - vm_compute. reflexivity.
Defined.
